(** * SNES Retro Hub: input routing, ROM ingestion and session lifecycle

    A shallow embedding of the stateful core of the emulator front end
    ([src/components/EmulatorScreen(fixes 2p).jsx], its predecessor
    [src/components/EmulatorScreen.jsx] and [src/inputMapping.js]) together
    with the properties the design document states about it.

    JavaScript values are modelled as the code uses them: strings as
    [string], objects used as records as Rocq records, objects used as
    ordered dictionaries as association lists in enumeration order, the
    per-device edge caches as finite maps, numbers the code computes with
    as binary64 floating-point numbers and numbers it only compares as
    rationals with the infinities and NaN, thrown values as an object,
    [undefined] or [null], and DOM/engine side effects as an explicit trace
    threaded through a small state-and-exception monad.

    The second part of the development covers the code around that core:
    keyboard capture and play, the remap helpers, the listener that
    forwards [snes:input] events to the engine, the wait for the core and
    the key table read from it, and the button table of
    [src/inputMapping.js].

    Left out: logging and sound, and the visual feedback of keyboard and
    gamepad input. *)

From Stdlib Require Import String Ascii List ZArith QArith Lia Bool.
From Stdlib Require Import Floats.
From stdpp Require Import base option gmap.
Import ListNotations.
Local Open Scope string_scope.
Local Open Scope list_scope.
Local Set Warnings "-inexact-float".

(* ===================================================================== *)
(** ** JavaScript preliminaries *)
(* ===================================================================== *)

Module JS.

(** [String.prototype.toLowerCase] on ASCII text.  Strings are sequences of
    ASCII characters here: the letters [A] to [Z] are lowered and every
    other character is left as it is.  Text outside ASCII is not
    represented, so what JavaScript does with it (it lowers U+212A, the
    Kelvin sign, to [k], for one) is outside of what is proved about file
    names. *)
Definition lower_ascii (c : ascii) : ascii :=
  let n := nat_of_ascii c in
  if ((65 <=? n) && (n <=? 90))%nat then ascii_of_nat (n + 32) else c.

Fixpoint toLowerCase (s : string) : string :=
  match s with
  | EmptyString => EmptyString
  | String c r => String (lower_ascii c) (toLowerCase r)
  end.

(** [s.split(sep)] for a one-character separator: never empty, the pieces
    between consecutive separators in order. *)
Fixpoint split (sep : ascii) (s : string) : list string :=
  match s with
  | EmptyString => [EmptyString]
  | String c r =>
      if Ascii.eqb c sep then EmptyString :: split sep r
      else match split sep r with
           | [] => [String c EmptyString]
           | seg :: segs => String c seg :: segs
           end
  end.

(** [arr.pop()] read as an expression: the last element. *)
Definition pop (l : list string) : string := List.last l EmptyString.

(** [arr.includes(x)] on an array of strings. *)
Definition includes (l : list string) (x : string) : bool :=
  existsb (String.eqb x) l.

(** [s.startsWith(p)]. *)
Definition startsWith (s p : string) : bool := String.prefix p s.

(** [s.endsWith(p)]. *)
Fixpoint endsWith (s p : string) : bool :=
  String.eqb s p ||
  match s with
  | EmptyString => false
  | String _ r => endsWith r p
  end.

(** The property names every object literal inherits from
    [Object.prototype]; a bracket read [obj[k]] that misses the own
    properties finds these. *)
Definition objectPrototypeKeys : list string :=
  [ "constructor"; "__defineGetter__"; "__defineSetter__"; "hasOwnProperty";
    "__lookupGetter__"; "__lookupSetter__"; "isPrototypeOf";
    "propertyIsEnumerable"; "toString"; "valueOf"; "__proto__";
    "toLocaleString" ].

(** Objects used as ordered dictionaries.  [set] is what an object literal,
    a spread followed by a computed key, or an assignment does: an existing
    key keeps its place and takes the new value, a new key goes last. *)
Section Obj.
Context {V : Type}.

Fixpoint get (o : list (string * V)) (k : string) : option V :=
  match o with
  | [] => None
  | (k', v) :: r => if String.eqb k k' then Some v else get r k
  end.

Fixpoint set (o : list (string * V)) (k : string) (v : V) : list (string * V) :=
  match o with
  | [] => [(k, v)]
  | (k', v') :: r =>
      if String.eqb k k' then (k', v) :: r else (k', v') :: set r k v
  end.

(** The object an object literal denotes: its entries written one after
    the other, so that a repeated key keeps the value written last. *)
Definition literal (entries : list (string * V)) : list (string * V) :=
  fold_left (fun o kv => set o (fst kv) (snd kv)) entries [].

Definition keys (o : list (string * V)) : list string := List.map fst o.
End Obj.

(** Numbers that are only compared and tested, never computed with: the
    rational a double stands for (zero unsigned), an infinity or NaN.
    Where the code does arithmetic (the d-pad's ratios) numbers are
    binary64 floats, [PrimFloat.float]. *)
Inductive num : Type := Fin (q : Q) | PInf | NInf | NaN.

Definition Qltb (a b : Q) : bool := negb (Qle_bool b a).

(** [a < b]; every comparison with NaN is false. *)
Definition lt (a b : num) : bool :=
  match a, b with
  | NaN, _ | _, NaN => false
  | Fin x, Fin y => Qltb x y
  | _, NInf => false
  | PInf, _ => false
  | NInf, _ => true
  | Fin _, PInf => true
  end.

(** [a > b]. *)
Definition gt (a b : num) : bool := lt b a.

(** [v || 0] on a number that may be missing: [undefined], NaN and zero
    are falsy. *)
Definition orZero (v : option num) : num :=
  match v with
  | None | Some NaN => Fin 0
  | Some n => n
  end.

(** A thrown object as the handlers inspect it: [err.message], [err.stack]
    and [String(err)].  Where a handler guards its reads ([err &&
    err.message]), a thrown [undefined] or [null] behaves as an object
    with neither member whose string form is ["undefined"] or ["null"]. *)
Record exn : Type := mkExn
  { message : option string; stack : option string; asString : string }.

(** What a [throw] or a rejection can carry: an object, or [undefined] or
    [null], on which reading a member throws. *)
Inductive thrown : Type :=
| Thrown (e : exn)
| ThrownUndefined
| ThrownNull.

(** The message and the string form of [new Error(msg)].  Its stack
    trace, which is the engine's, is not represented: the errors this code
    builds are caught by handlers that read their message only. *)
Definition Error (msg : string) : exn :=
  mkExn (Some msg) None ("Error: " ++ msg).

(** The [TypeError] a member read on [undefined] or [null] throws; the
    wording of its message is the engine's (here V8's). *)
Definition TypeError (msg : string) : exn :=
  mkExn (Some msg) None ("TypeError: " ++ msg).

Definition cannotRead (member : string) (v : thrown) : exn :=
  TypeError ("Cannot read properties of "
             ++ match v with ThrownNull => "null" | _ => "undefined" end
             ++ " (reading '" ++ member ++ "')").

(** ['...' + err.message] on an object. *)
Definition messageText (e : exn) : string :=
  match message e with Some m => m | None => "undefined" end.

(** Truthiness of a string that may be missing. *)
Definition truthyStr (s : option string) : bool :=
  match s with Some s => negb (String.eqb s "") | None => false end.

End JS.

(** A thrown object is a thrown value. *)
Coercion JS.Thrown : JS.exn >-> JS.thrown.

(* ===================================================================== *)
(** ** Effects: state, a trace of outward calls, and exceptions *)
(* ===================================================================== *)

Module Eff.

Inductive outcome (A : Type) : Type :=
| Returned (a : A)
| Raised (e : JS.thrown).
Arguments Returned {A} a.
Arguments Raised {A} e.

Section Monad.
Context {S E : Type}.

(** A handler body: from the state before to how it ends, the state
    after and the outward calls it made, in order. *)
Definition M (A : Type) : Type := S -> outcome A * S * list E.

Definition ret {A} (a : A) : M A := fun s => (Returned a, s, []).

Definition bind {A B} (m : M A) (k : A -> M B) : M B :=
  fun s =>
    match m s with
    | (Returned a, s1, t1) =>
        match k a s1 with (r, s2, t2) => (r, s2, t1 ++ t2) end
    | (Raised e, s1, t1) => (Raised e, s1, t1)
    end.

Definition throw {A} (e : JS.thrown) : M A := fun s => (Raised e, s, []).

(** [try { m } catch (e) { h e }]: what [m] did stays done. *)
Definition try_catch {A} (m : M A) (h : JS.thrown -> M A) : M A :=
  fun s =>
    match m s with
    | (Returned a, s1, t1) => (Returned a, s1, t1)
    | (Raised e, s1, t1) =>
        match h e s1 with (r, s2, t2) => (r, s2, t1 ++ t2) end
    end.

(** [err.message] read without a guard, as the [catch] blocks do. *)
Definition read_message (err : JS.thrown) : M string :=
  match err with
  | JS.Thrown e => ret (JS.messageText e)
  | _ => throw (JS.cannotRead "message" err)
  end.

Definition get : M S := fun s => (Returned s, s, []).
Definition modify (f : S -> S) : M unit := fun s => (Returned tt, f s, []).
Definition emit (e : E) : M unit := fun s => (Returned tt, s, [e]).

(** [for (const x of xs) body(x)]. *)
Fixpoint for_each {A} (xs : list A) (body : A -> M unit) : M unit :=
  match xs with
  | [] => ret tt
  | x :: r => bind (body x) (fun _ => for_each r body)
  end.

Definition result_of {A} (r : outcome A * S * list E) : outcome A := fst (fst r).
Definition state_of {A} (r : outcome A * S * list E) : S := snd (fst r).
Definition trace_of {A} (r : outcome A * S * list E) : list E := snd r.
End Monad.

Arguments M : clear implicits.

Module Notations.
Declare Scope eff_scope.
Delimit Scope eff_scope with eff.
Notation "'let*' x ':=' m 'in' k" := (bind m (fun x => k))
  (at level 10, x name, m at level 100, k at level 200) : eff_scope.
Notation "m '>>' k" := (bind m (fun _ => k))
  (at level 100, k at level 200, right associativity) : eff_scope.
End Notations.

End Eff.

(* ===================================================================== *)
(** ** src/inputMapping.js *)
(* ===================================================================== *)

Module InputMapping.

(** The [player] argument as callers may pass it: omitted ([undefined],
    which selects the default [1]) or a number. *)
Definition toCoreId (buttonName : string) (player : option Z) : string :=
  let player := match player with None => 1%Z | Some p => p end in
  if Z.eqb player 2 then "P2_" ++ buttonName else buttonName.

End InputMapping.

(* ===================================================================== *)
(** ** Console detection ([detectConsoleFromFile]) *)
(* ===================================================================== *)

Module ConsoleProfileTable.

Record profile : Type := mkProfile { core : string; extensions : string }.

Definition profile_eqb (p q : profile) : bool :=
  String.eqb (core p) (core q) && String.eqb (extensions p) (extensions q).

(** The entries of the [consoleMap] literal, in source order.  The literal
    writes the keys [cue] and [iso] twice. *)
Definition consoleMap_entries : list (string * profile) :=
  [ ("smc", mkProfile "snes9x" ".smc,.sfc,.fig,.swc");
    ("sfc", mkProfile "snes9x" ".smc,.sfc,.fig,.swc");
    ("fig", mkProfile "snes9x" ".smc,.sfc,.fig,.swc");
    ("swc", mkProfile "snes9x" ".smc,.sfc,.fig,.swc");
    ("nes", mkProfile "fceumm" ".nes,.unf,.unif");
    ("unf", mkProfile "fceumm" ".nes,.unf,.unif");
    ("unif", mkProfile "fceumm" ".nes,.unf,.unif");
    ("gba", mkProfile "mgba" ".gba,.agb");
    ("agb", mkProfile "mgba" ".gba,.agb");
    ("gbc", mkProfile "gambatte" ".gbc");
    ("gb", mkProfile "gambatte" ".gb");
    ("n64", mkProfile "mupen64plus_next" ".n64,.z64,.v64");
    ("z64", mkProfile "mupen64plus_next" ".n64,.z64,.v64");
    ("v64", mkProfile "mupen64plus_next" ".n64,.z64,.v64");
    ("nds", mkProfile "melonds" ".nds");
    ("md", mkProfile "genesis_plus_gx" ".md,.gen,.smd,.bin");
    ("gen", mkProfile "genesis_plus_gx" ".md,.gen,.smd,.bin");
    ("smd", mkProfile "genesis_plus_gx" ".md,.gen,.smd,.bin");
    ("sms", mkProfile "genesis_plus_gx" ".sms");
    ("gg", mkProfile "genesis_plus_gx" ".gg");
    ("cue", mkProfile "genesis_plus_gx" ".cue,.chd,.iso");
    ("chd", mkProfile "genesis_plus_gx" ".cue,.chd,.iso");
    ("iso", mkProfile "genesis_plus_gx" ".cue,.chd,.iso");
    ("32x", mkProfile "picodrive" ".32x,.bin");
    ("ccd", mkProfile "yabause" ".cue,.ccd,.chd,.iso");
    ("cue", mkProfile "pcsx_rearmed" ".cue,.chd,.pbp,.bin");
    ("pbp", mkProfile "pcsx_rearmed" ".cue,.chd,.pbp,.bin");
    ("a26", mkProfile "stella" ".a26,.bin");
    ("a78", mkProfile "prosystem" ".a78");
    ("lnx", mkProfile "handy" ".lnx,.o");
    ("o", mkProfile "handy" ".lnx,.o");
    ("j64", mkProfile "virtualjaguar" ".j64,.jag");
    ("jag", mkProfile "virtualjaguar" ".j64,.jag");
    ("pce", mkProfile "mednafen_pce_fast" ".pce,.sgx");
    ("sgx", mkProfile "mednafen_pce_fast" ".pce,.sgx");
    ("ngp", mkProfile "mednafen_ngp" ".ngp,.ngc");
    ("ngc", mkProfile "mednafen_ngp" ".ngp,.ngc");
    ("ws", mkProfile "mednafen_wswan" ".ws,.wsc");
    ("wsc", mkProfile "mednafen_wswan" ".ws,.wsc");
    ("vb", mkProfile "mednafen_vb" ".vb,.vboy");
    ("vboy", mkProfile "mednafen_vb" ".vb,.vboy");
    ("rom", mkProfile "bluemsx" ".rom,.mx1,.mx2,.dsk");
    ("mx1", mkProfile "bluemsx" ".rom,.mx1,.mx2,.dsk");
    ("mx2", mkProfile "bluemsx" ".rom,.mx1,.mx2,.dsk");
    ("dsk", mkProfile "bluemsx" ".rom,.mx1,.mx2,.dsk");
    ("d64", mkProfile "vice_x64" ".d64,.t64,.prg");
    ("t64", mkProfile "vice_x64" ".d64,.t64,.prg");
    ("prg", mkProfile "vice_x64" ".d64,.t64,.prg");
    ("cdt", mkProfile "cap32" ".cdt,.dsk");
    ("iso", mkProfile "opera" ".iso,.cue,.chd");
    ("vec", mkProfile "vecx" ".vec,.gam,.bin");
    ("gam", mkProfile "vecx" ".vec,.gam,.bin");
    ("bin", mkProfile "snes9x" ".bin") ].

(** The object the literal evaluates to. *)
Definition consoleMap : list (string * profile) :=
  Eval vm_compute in JS.literal consoleMap_entries.

(** The fallback the function returns when the table has nothing. *)
Definition defaultProfile : profile := mkProfile "snes9x" ".smc,.sfc".

(** [filename.toLowerCase().match(/\.([^.]+)$/)?.[1]]: the text after the
    last dot when there is a dot and that text is not empty, [undefined]
    ([None]) otherwise. *)
Definition extensionOf (filename : string) : option string :=
  match JS.split "." (JS.toLowerCase filename) with
  | [] | [_] => None
  | segs => let e := JS.pop segs in
            if String.eqb e "" then None else Some e
  end.

(** What [consoleMap[ext]] evaluates to.  An [undefined] subscript reads
    the key ["undefined"]; a key that is not an own property is looked up
    on [Object.prototype]. *)
Inductive lookup_result : Type :=
| Own (p : profile)
| Inherited (name : string)
| Undefined.

Definition consoleMap_at (ext : option string) : lookup_result :=
  let k := match ext with Some e => e | None => "undefined" end in
  match JS.get consoleMap k with
  | Some p => Own p
  | None => if JS.includes JS.objectPrototypeKeys k then Inherited k
            else Undefined
  end.

(** What the function hands back: a profile record, or (when the subscript
    named an inherited member) that member, which has no [core] field. *)
Inductive detected : Type :=
| Profile (p : profile)
| PrototypeMember (name : string).

(** The table step of the function, on the extension token. *)
Definition profileFor (ext : option string) : detected :=
  match consoleMap_at ext with
  | Own p => Profile p
  | Inherited n => PrototypeMember n
  | Undefined => Profile defaultProfile
  end.

Definition detectConsoleFromFile (filename : string) : detected :=
  profileFor (extensionOf filename).

(** [detected.core] as the callers read it ([undefined] on a member that
    has no such field). *)
Definition core_of (d : detected) : option string :=
  match d with Profile p => Some (core p) | PrototypeMember _ => None end.

(** The alias set a profile lists: the entries of its comma-separated
    [extensions] text, each with its leading dot. *)
Definition aliasSet (p : profile) : list string := JS.split "," (extensions p).

Definition inAliasSet (ext : string) (p : profile) : bool :=
  JS.includes (aliasSet p) ("." ++ ext).

(** The profiles the table literal writes down. *)
Definition tableProfiles : list profile := List.map snd consoleMap_entries.

(** An extension some profile of the table lists. *)
Definition knownExtension (ext : string) : bool :=
  existsb (inAliasSet ext) tableProfiles.

End ConsoleProfileTable.

(* ===================================================================== *)
(** ** The external engine (Nostalgist) as the component sees it *)
(* ===================================================================== *)

Module Engine.

(** A [File]: its name and its bytes. *)
Record File : Type := mkFile { name : string; content : string }.

(** What [JSZip.loadAsync] makes of a file: a failure, or the [zip.files]
    object in the order [Object.entries] enumerates it.  An entry is a
    directory or not, and reading its data ([file.async('blob')]) yields
    bytes or fails. *)
Record zipEntry : Type := mkEntry { dir : bool; data : Eff.outcome string }.

Inductive archive : Type :=
| NotAnArchive (e : JS.exn)
| Archive (files : list (string * zipEntry)).

(** The argument handed to [loadState] and the value [saveState] yields. *)
Inductive stateArg : Type := AsFile (f : File) | AsArrayBuffer (bytes : string).

Inductive stateData : Type :=
| IsBlob (bytes : string)
| IsArrayBuffer (bytes : string)
| IsUint8Array (bytes : string)
| OtherValue (jsonText : string).

(** Which of the optional methods an instance has ([typeof n.m ===
    'function']) and, for the awaited ones, how a call ends.  The engine
    contract lets any of them be absent. *)
Record capabilities : Type := mkCaps
  { has_pressDown : bool;
    has_pressUp : bool;
    has_press : bool;
    saveState : option (Eff.outcome stateData);
    loadState : option (stateArg -> option JS.thrown);
    exit : option (option JS.thrown) }.

(** An engine handle: the instance [Nostalgist.launch] resolved to. *)
Record engine : Type := mkEngine { eid : nat; caps : capabilities }.

Inductive call : Type :=
| PressDown (id : string)
| PressUp (id : string)
| Press (id : string)
| SaveStateCall
| LoadStateCall (arg : stateArg)
| ExitCall.

(** The configuration [Nostalgist.launch] is called with; the retroarch
    tuning values are all functions of [cfg_mobile]. *)
Record launchConfig : Type := mkConfig
  { cfg_core : option string; cfg_rom : File; cfg_mobile : bool }.

(** Outward calls a handler makes, as they appear in a trace. *)
Inductive effect : Type :=
| Alert (msg : string)
| EngineCall (id : nat) (c : call)
| LaunchCall (cfg : launchConfig)
| Download (filename : string) (bytes : string).

End Engine.

(* ===================================================================== *)
(** ** Session lifecycle, ROM ingestion, save and load state *)
(* ===================================================================== *)

Module Session.
Import Engine Eff Eff.Notations.
Local Open Scope eff_scope.

Inductive status_t : Type := idle | loading | running | error.

(** The component state a launch touches: the [useState] cells and the
    [nostalgistRef] ref. *)
Record state : Type := mkState
  { status : status_t;
    errorMessage : option string;
    errorDetails : option string;
    core : option string;
    extensions : option string;
    nostalgistRef : option engine }.

Definition setStatus (v : status_t) : M state effect unit :=
  modify (fun s => mkState v (errorMessage s) (errorDetails s) (core s)
                           (extensions s) (nostalgistRef s)).
Definition setErrorMessage (v : option string) : M state effect unit :=
  modify (fun s => mkState (status s) v (errorDetails s) (core s)
                           (extensions s) (nostalgistRef s)).
Definition setErrorDetails (v : option string) : M state effect unit :=
  modify (fun s => mkState (status s) (errorMessage s) v (core s)
                           (extensions s) (nostalgistRef s)).
Definition setCore (v : option string) : M state effect unit :=
  modify (fun s => mkState (status s) (errorMessage s) (errorDetails s) v
                           (extensions s) (nostalgistRef s)).
Definition setExtensions (v : option string) : M state effect unit :=
  modify (fun s => mkState (status s) (errorMessage s) (errorDetails s)
                           (core s) v (nostalgistRef s)).
Definition setRef (v : option engine) : M state effect unit :=
  modify (fun s => mkState (status s) (errorMessage s) (errorDetails s)
                           (core s) (extensions s) v).

(** The component as mounted by [EmulatorScreenWrapper]. *)
Definition initial : state :=
  mkState idle None None (Some "snes9x") (Some ".smc,.sfc") None.

(** How the awaited [Nostalgist.launch] ends. *)
Inductive launch_result : Type :=
| Launched (e : engine)
| Rejected (err : JS.exn).

Section Environment.
(** The user-agent test and the archive reader. *)
Variable isMobile : bool.
Variable loadAsync : File -> archive.

(** [launchWithRomFile] up to its [await], as the closure of a render in
    which the [core] cell read [renderCore]: returns the configuration of
    the launch it started, if it started one. *)
Definition launchWithRomFile_in (renderCore : option string)
    (file : option File) (detectedCore : option string)
  : M state effect (option launchConfig) :=
  match file with
  | None => ret None
  | Some f =>
      setStatus loading >>
      let coreToUse :=
        if JS.truthyStr detectedCore then detectedCore else renderCore in
      let cfg := mkConfig coreToUse f isMobile in
      emit (LaunchCall cfg) >>
      ret (Some cfg)
  end.

(** [launchWithRomFile] called on its own: the closure of the latest
    render, whose [core] is the cell's value. *)
Definition launchWithRomFile_begin (file : option File)
    (detectedCore : option string) : M state effect (option launchConfig) :=
  let* s := get in
  launchWithRomFile_in (core s) file detectedCore.

(** [launchWithRomFile] from the point its [await] settles. *)
Definition launchWithRomFile_resume (r : launch_result) : M state effect unit :=
  match r with
  | Launched e =>
      setRef (Some e) >>
      setStatus running
  | Rejected err =>
      setErrorMessage
        (Some (if JS.truthyStr (JS.message err)
               then JS.messageText err else JS.asString err)) >>
      setErrorDetails
        (if JS.truthyStr (JS.stack err) then JS.stack err else None) >>
      setStatus error
  end.

(** The unmount cleanup. *)
Definition teardown : M state effect unit :=
  let* s := get in
  match nostalgistRef s with
  | Some n =>
      match exit (caps n) with
      | Some r =>
          try_catch
            (emit (EngineCall (eid n) ExitCall) >>
             match r with
             | None => setRef None
             | Some e => throw e
             end)
            (fun _ => ret tt)
      | None => ret tt
      end
  | None => ret tt
  end.

(** *** Archive ingestion *)

Definition allRomExtensions : list string :=
  [ ".smc"; ".sfc"; ".fig"; ".swc";
    ".nes"; ".unf"; ".unif";
    ".gba"; ".agb";
    ".gbc"; ".gb";
    ".n64"; ".z64"; ".v64";
    ".nds";
    ".md"; ".gen"; ".smd";
    ".sms"; ".gg";
    ".cue"; ".chd"; ".iso"; ".pbp";
    ".32x";
    ".a26"; ".a78";
    ".lnx"; ".o";
    ".j64"; ".jag";
    ".pce"; ".sgx";
    ".ngp"; ".ngc";
    ".ws"; ".wsc";
    ".vb"; ".vboy";
    ".rom"; ".mx1"; ".mx2";
    ".d64"; ".t64"; ".prg";
    ".cdt"; ".dsk";
    ".vec"; ".gam";
    ".bin" ].

(** ['.' + filename.split('.').pop().toLowerCase()]. *)
Definition entryExtension (filename : string) : string :=
  ("." ++ JS.toLowerCase (JS.pop (JS.split "." filename)))%string.

(** The [for ... of Object.entries(zip.files)] loop with its [break]. *)
Fixpoint findRom (entries : list (string * zipEntry))
  : outcome (option File) :=
  match entries with
  | [] => Returned None
  | (filename, file) :: rest =>
      if negb (dir file) && JS.includes allRomExtensions (entryExtension filename)
      then match data file with
           | Returned blob => Returned (Some (mkFile filename blob))
           | Raised e => Raised e
           end
      else findRom rest
  end.

Definition noRomMessage : string := "No valid ROM file found in ZIP archive".

Definition extractRomFromZip (zipFile : File) : outcome File :=
  match loadAsync zipFile with
  | NotAnArchive e => Raised e
  | Archive files =>
      match findRom files with
      | Returned (Some romFile) => Returned romFile
      | Returned None => Raised (JS.Error noRomMessage)
      | Raised e => Raised e
      end
  end.

Definition liftOutcome {A} (r : outcome A) : M state effect A :=
  match r with Returned a => ret a | Raised e => throw e end.

Definition detectedCore (d : ConsoleProfileTable.detected) : option string :=
  ConsoleProfileTable.core_of d.
Definition detectedExtensions (d : ConsoleProfileTable.detected) : option string :=
  match d with
  | ConsoleProfileTable.Profile p => Some (ConsoleProfileTable.extensions p)
  | ConsoleProfileTable.PrototypeMember _ => None
  end.

(** [onRomSelected] up to the [await] of the launch it starts.  The
    handler and the [launchWithRomFile] it calls are closures of the render
    before the event: the [core] they read is the cell's value then, not
    what this handler's own [setCore] calls ask for. *)
Definition onRomSelected (f : option File) : M state effect (option launchConfig) :=
  match f with
  | None => ret None
  | Some f =>
      let* render := get in
      let detected := ConsoleProfileTable.detectConsoleFromFile (name f) in
      setCore (detectedCore detected) >>
      setExtensions (detectedExtensions detected) >>
      if JS.endsWith (JS.toLowerCase (name f)) ".zip" then
        try_catch
          (setStatus loading >>
           let* romFile := liftOutcome (extractRomFromZip f) in
           let detectedFromRom :=
             ConsoleProfileTable.detectConsoleFromFile (name romFile) in
           setCore (detectedCore detectedFromRom) >>
           setExtensions (detectedExtensions detectedFromRom) >>
           launchWithRomFile_in (core render) (Some romFile)
                                (detectedCore detectedFromRom))
          (fun err =>
             let* message := read_message err in
             setErrorMessage
               (Some ("Failed to extract ROM from ZIP: " ++ message)%string) >>
             setStatus error >>
             ret None)
      else
        launchWithRomFile_in (core render) (Some f) (detectedCore detected)
  end.

(** *** Save and load state *)

Definition saveState : M state effect unit :=
  let* s := get in
  match nostalgistRef s with
  | None => emit (Alert "Please load a ROM first")
  | Some n =>
      match Engine.saveState (caps n) with
      | None => emit (Alert "Save state not supported by this core")
      | Some r =>
          try_catch
            (emit (EngineCall (eid n) SaveStateCall) >>
             let* stateData := liftOutcome r in
             let blob :=
               match stateData with
               | IsBlob b | IsArrayBuffer b | IsUint8Array b => b
               | OtherValue text => text
               end in
             emit (Download "snes_save.state" blob) >>
             emit (Alert "State saved!"))
            (fun err =>
               let* message := read_message err in
               emit (Alert ("Failed to save state: " ++ message)%string))
      end
  end.

Definition callLoadState (n : engine) (ld : stateArg -> option JS.thrown)
    (arg : stateArg) : M state effect unit :=
  emit (EngineCall (eid n) (LoadStateCall arg)) >>
  match ld arg with
  | None => ret tt
  | Some e => throw e
  end.

Definition onLoadStateFile (f : option File) : M state effect unit :=
  match f with
  | None => ret tt
  | Some f =>
      let* s := get in
      match nostalgistRef s with
      | None => emit (Alert "Please load a ROM first")
      | Some n =>
          match loadState (caps n) with
          | None => emit (Alert "Load state not supported by this core")
          | Some ld =>
              try_catch
                (try_catch
                   (callLoadState n ld (AsFile f) >>
                    emit (Alert "State loaded!"))
                   (fun _ =>
                      callLoadState n ld (AsArrayBuffer (content f)) >>
                      emit (Alert "State loaded!")))
                (fun err =>
                   let* message := read_message err in
                   emit (Alert ("Failed to load state: " ++ message)%string))
          end
      end
  end.

(** *** The component in its environment

    Launches are asynchronous: a request runs to the [await] and leaves a
    launch in flight; the environment settles launches in flight one at a
    time, creating an engine when it succeeds.  [live] lists the engines
    created and not yet exited. *)
Record world : Type := mkWorld
  { comp : state;
    inFlight : list launchConfig;
    live : list nat;
    nextId : nat;
    log : list effect }.

Definition mounted : world := mkWorld initial [] [] 0 [].

Inductive event : Type :=
| RomSelected (f : option File)
| LaunchRequested (file : option File) (detectedCore : option string)
| LaunchSettles (r : capabilities + JS.exn)
| SaveStateClicked
| LoadStateSelected (f : option File)
| Unmounted.

Definition started (cfg : option launchConfig) : list launchConfig :=
  match cfg with Some c => [c] | None => [] end.

(** The engines left live once a handle held before is no longer held
    (its [exit()] resolved). *)
Definition released (before after : option engine) (l : list nat)
  : list nat :=
  match before, after with
  | Some n, None => List.filter (fun i => negb (Nat.eqb i (eid n))) l
  | _, _ => l
  end.

Definition step (w : world) (ev : event) : world :=
  match ev with
  | RomSelected f =>
      match onRomSelected f (comp w) with
      | (r, s, t) =>
          mkWorld s
            (inFlight w ++ match r with Returned c => started c | Raised _ => [] end)
            (live w) (nextId w) (log w ++ t)
      end
  | LaunchRequested file dc =>
      match launchWithRomFile_begin file dc (comp w) with
      | (r, s, t) =>
          mkWorld s
            (inFlight w ++ match r with Returned c => started c | Raised _ => [] end)
            (live w) (nextId w) (log w ++ t)
      end
  | LaunchSettles r =>
      match inFlight w with
      | [] => w
      | _ :: rest =>
          match r with
          | inl c =>
              let e := mkEngine (nextId w) c in
              match launchWithRomFile_resume (Launched e) (comp w) with
              | (_, s, t) =>
                  mkWorld s rest (nextId w :: live w) (S (nextId w)) (log w ++ t)
              end
          | inr err =>
              match launchWithRomFile_resume (Rejected err) (comp w) with
              | (_, s, t) => mkWorld s rest (live w) (nextId w) (log w ++ t)
              end
          end
      end
  | SaveStateClicked =>
      match saveState (comp w) with
      | (_, s, t) => mkWorld s (inFlight w) (live w) (nextId w) (log w ++ t)
      end
  | LoadStateSelected f =>
      match onLoadStateFile f (comp w) with
      | (_, s, t) => mkWorld s (inFlight w) (live w) (nextId w) (log w ++ t)
      end
  | Unmounted =>
      match teardown (comp w) with
      | (_, s, t) =>
          mkWorld s (inFlight w)
            (released (nostalgistRef (comp w)) (nostalgistRef s) (live w))
            (nextId w) (log w ++ t)
      end
  end.

Definition run (w : world) (evs : list event) : world := fold_left step evs w.

End Environment.

End Session.

(* ===================================================================== *)
(** ** Normalized input events ([snes:input]) *)
(* ===================================================================== *)

Module InputEvent.

Inductive transition : Type := down | up.

(** The [detail] of a [snes:input] custom event. *)
Record t : Type := mk { control : string; type : transition; player : string }.

End InputEvent.

(* ===================================================================== *)
(** ** Control mappings and their persistence *)
(* ===================================================================== *)

Module MappingStore.

(** A binding is [{ code }] or [null]; a player's mapping is an object from
    logical button to binding, in key order. *)
Definition binding : Type := option string.
Definition playerMap : Type := list (string * binding).
Record PlayerMapping : Type := mkMapping { p1 : playerMap; p2 : playerMap }.

Definition defaultMappings : PlayerMapping :=
  {| p1 := [ ("up", Some "ArrowUp"); ("left", Some "ArrowLeft");
             ("right", Some "ArrowRight"); ("down", Some "ArrowDown");
             ("a", Some "KeyK"); ("b", Some "KeyJ");
             ("x", Some "KeyI"); ("y", Some "KeyU");
             ("l", Some "KeyQ"); ("r", Some "KeyE");
             ("start", Some "Enter"); ("select", Some "ShiftLeft") ];
     p2 := [ ("up", Some "KeyW"); ("left", Some "KeyA");
             ("right", Some "KeyD"); ("down", Some "KeyS");
             ("a", Some "KeyI"); ("b", Some "KeyU");
             ("x", Some "KeyY"); ("y", Some "KeyT");
             ("l", Some "KeyR"); ("r", Some "KeyF");
             ("start", Some "KeyO"); ("select", Some "KeyP") ] |}.

(** The physical key codes a player's mapping binds. *)
Definition boundCodes (m : playerMap) : list string :=
  List.flat_map (fun kb => match snd kb with Some c => [c] | None => [] end) m.

(** The codes bound for both players. *)
Definition sharedCodes (m : PlayerMapping) : list string :=
  List.filter (JS.includes (boundCodes (p2 m))) (boundCodes (p1 m)).

(** Keyboard play mode ([onKeyDown] with no capture pending, and
    [onKeyUp]) on a mapping of the shape the component writes: both
    players' bindings are scanned in order and every match dispatches. *)
Definition matches (m : playerMap) (code : string) : list string :=
  List.flat_map
    (fun kb => match snd kb with
               | Some c => if String.eqb c code then [fst kb] else []
               | None => []
               end) m.

Definition dispatchKey (ty : InputEvent.transition) (m : PlayerMapping)
    (code : string) : list InputEvent.t :=
  List.map (fun c => InputEvent.mk c ty "p1") (matches (p1 m) code) ++
  List.map (fun c => InputEvent.mk c ty "p2") (matches (p2 m) code).

Definition onKeyDown := dispatchKey InputEvent.down.
Definition onKeyUp := dispatchKey InputEvent.up.

(** *** Persistence

    The [mappings] state cell holds whatever the initializer returned, so
    it is what [JSON.parse] can return; an object lists its members in
    enumeration order, each key once; a number is a finite double or, for
    a literal beyond the range of doubles (such as [1e400]), an infinity. *)
#[local] Unset Elimination Schemes.
Inductive json : Type :=
| JNull
| JBool (b : bool)
| JNum (n : JS.num)
| JStr (s : string)
| JArr (l : list json)
| JObj (o : list (string * json)).
#[local] Set Elimination Schemes.

Definition encodeBinding (b : binding) : json :=
  match b with Some c => JObj [("code", JStr c)] | None => JNull end.
Definition encodeMap (m : playerMap) : json :=
  JObj (List.map (fun kb => (fst kb, encodeBinding (snd kb))) m).
Definition encode (m : PlayerMapping) : json :=
  JObj [("p1", encodeMap (p1 m)); ("p2", encodeMap (p2 m))].

(** Truthiness of a value that may be [undefined]. *)
Definition truthy (v : option json) : bool :=
  match v with
  | None | Some JNull => false
  | Some (JBool b) => b
  | Some (JNum (JS.Fin q)) => negb (Qeq_bool q 0)
  | Some (JNum JS.NaN) => false
  | Some (JNum _) => true
  | Some (JStr s) => negb (String.eqb s "")
  | Some (JArr _) | Some (JObj _) => true
  end.

(** [v.p1] / [v.p2] on a non-null value: only an object can have such a
    member. *)
Definition member (v : json) (k : string) : option json :=
  match v with JObj o => JS.get o k | _ => None end.

(** [JSON.parse (JSON.stringify v)]: the serialiser writes a number that
    is not finite as [null], wherever it occurs; every other value is
    written as text that parses back to it. *)
Fixpoint reparsed (v : json) : json :=
  match v with
  | JNum (JS.Fin q) => JNum (JS.Fin q)
  | JNum _ => JNull
  | JArr l => JArr (List.map reparsed l)
  | JObj o => JObj (List.map (fun kv => let '(k, x) := kv in (k, reparsed x)) o)
  | JNull | JBool _ | JStr _ => v
  end.

(** The text under the storage key, by what [JSON.parse] makes of it. *)
Inductive text : Type :=
| EmptyText
| Malformed
| Encodes (v : json).

(** The browser store: the item under [snes_mappings_v1] if any, and
    whether reading or writing throws (storage disabled, quota). *)
Record localStorage : Type := mkStorage
  { item : option text; getItemThrows : bool; setItemThrows : bool }.

(** The [useState] initializer of [mappings]. *)
Definition load (ls : localStorage) : json :=
  if getItemThrows ls then encode defaultMappings
  else
    match item ls with
    | None | Some EmptyText => encode defaultMappings
    | Some Malformed => encode defaultMappings
    | Some (Encodes parsed) =>
        if truthy (Some parsed) && truthy (member parsed "p1")
           && truthy (member parsed "p2")
        then parsed
        else JObj [("p1", parsed); ("p2", encodeMap (p2 defaultMappings))]
    end.

(** The persisting effect: best effort.  What it stores is the text
    [JSON.stringify mappings]. *)
Definition persist (mappings : json) (ls : localStorage) : localStorage :=
  if setItemThrows ls then ls
  else mkStorage (Some (Encodes (reparsed mappings)))
                 (getItemThrows ls) (setItemThrows ls).

(** [resetMappings]. *)
Definition resetMappings : json := encode defaultMappings.

(** Whether an object has an own key. *)
Definition hasKey (o : list (string * json)) (k : string) : bool :=
  match JS.get o k with Some _ => true | None => false end.

End MappingStore.

(* ===================================================================== *)
(** ** Gamepad polling *)
(* ===================================================================== *)

Module Gamepad.
Import Eff Eff.Notations.
Local Open Scope eff_scope.

(** The [setActiveButtons] call that accompanies each dispatch is visual
    feedback and is left out. *)

Record button : Type := mkButton { pressed : bool; value : JS.num }.
Record gamepad : Type := mkPad
  { index : nat; buttons : list button; axes : list JS.num }.

Record axisState : Type := mkAxes
  { ax_up : bool; ax_down : bool; ax_left : bool; ax_right : bool }.

(** [gamepadState.current]: the last observed state per device index, per
    button index and per stick direction. *)
Record gamepadState : Type := mkPadState
  { st_buttons : gmap nat (gmap nat bool);
    st_axes : gmap nat axisState }.

Definition fresh : gamepadState := mkPadState ∅ ∅.

Definition GAMEPAD_MAPPING (idx : nat) : option string :=
  match idx with
  | 0 => Some "b" | 1 => Some "a" | 2 => Some "x" | 3 => Some "y"
  | 4 => Some "l" | 5 => Some "r" | 6 => Some "l" | 7 => Some "r"
  | 8 => Some "select" | 9 => Some "start"
  | 12 => Some "up" | 13 => Some "down" | 14 => Some "left" | 15 => Some "right"
  | _ => None
  end%nat.

Definition DEADZONE : Q := 0.25.

Definition dispatch (control : string) (ty : InputEvent.transition)
    (player : string) : M gamepadState InputEvent.t unit :=
  emit (InputEvent.mk control ty player).

(** The edge test shared by buttons and stick directions. *)
Definition onChange (control player : string) (isActive : bool)
    (wasActive : bool) : M gamepadState InputEvent.t unit :=
  if isActive && negb wasActive then dispatch control InputEvent.down player
  else if negb isActive && wasActive then dispatch control InputEvent.up player
  else ret tt.

Definition wasPressed (st : gamepadState) (gpIndex idx : nat) : bool :=
  default false (default ∅ (st_buttons st !! gpIndex) !! idx).

Definition setPressed (gpIndex idx : nat) (v : bool) (st : gamepadState)
  : gamepadState :=
  mkPadState
    (<[gpIndex := <[idx := v]> (default ∅ (st_buttons st !! gpIndex))]>
       (st_buttons st))
    (st_axes st).

Definition isPressed (btn : button) : bool :=
  pressed btn || JS.gt (value btn) (JS.Fin 0.5).

(** The callback of [gp.buttons.forEach]. *)
Definition processButton (gpIndex : nat) (player : string) (btn : button)
    (idx : nat) : M gamepadState InputEvent.t unit :=
  match GAMEPAD_MAPPING idx with
  | None => ret tt
  | Some snesButton =>
      let* st := get in
      onChange snesButton player (isPressed btn) (wasPressed st gpIndex idx) >>
      modify (setPressed gpIndex idx (isPressed btn))
  end.

Fixpoint forEachFrom (idx : nat) (btns : list button)
    (f : button -> nat -> M gamepadState InputEvent.t unit)
  : M gamepadState InputEvent.t unit :=
  match btns with
  | [] => ret tt
  | b :: r => f b idx >> forEachFrom (S idx) r f
  end.

Definition axesOf (st : gamepadState) (gpIndex : nat) : axisState :=
  default (mkAxes false false false false) (st_axes st !! gpIndex).

Definition setAxes (gpIndex : nat) (f : axisState -> axisState)
    (st : gamepadState) : gamepadState :=
  mkPadState (st_buttons st) (<[gpIndex := f (axesOf st gpIndex)]> (st_axes st)).

Definition leftActive (axisX : JS.num) : bool := JS.lt axisX (JS.Fin (- DEADZONE)).
Definition rightActive (axisX : JS.num) : bool := JS.gt axisX (JS.Fin DEADZONE).
Definition upActive (axisY : JS.num) : bool := JS.lt axisY (JS.Fin (- DEADZONE)).
Definition downActive (axisY : JS.num) : bool := JS.gt axisY (JS.Fin DEADZONE).

(** The left-stick section of the loop body. *)
Definition processAxes (gp : gamepad) (player : string)
  : M gamepadState InputEvent.t unit :=
  let axisX := JS.orZero (nth_error (axes gp) 0) in
  let axisY := JS.orZero (nth_error (axes gp) 1) in
  let i := index gp in
  let* st := get in
  onChange "left" player (leftActive axisX) (ax_left (axesOf st i)) >>
  modify (setAxes i (fun a => mkAxes (ax_up a) (ax_down a) (leftActive axisX) (ax_right a))) >>
  let* st := get in
  onChange "right" player (rightActive axisX) (ax_right (axesOf st i)) >>
  modify (setAxes i (fun a => mkAxes (ax_up a) (ax_down a) (ax_left a) (rightActive axisX))) >>
  let* st := get in
  onChange "up" player (upActive axisY) (ax_up (axesOf st i)) >>
  modify (setAxes i (fun a => mkAxes (upActive axisY) (ax_down a) (ax_left a) (ax_right a))) >>
  let* st := get in
  onChange "down" player (downActive axisY) (ax_down (axesOf st i)) >>
  modify (setAxes i (fun a => mkAxes (ax_up a) (downActive axisY) (ax_left a) (ax_right a))).

(** The loop body for one connected device. *)
Definition pollDevice (gp : gamepad) : M gamepadState InputEvent.t unit :=
  let player := if Nat.eqb (index gp) 0 then "p1" else "p2" in
  modify (fun st =>
    match st_buttons st !! index gp with
    | Some _ => st
    | None => mkPadState (<[index gp := ∅]> (st_buttons st)) (st_axes st)
    end) >>
  modify (fun st =>
    match st_axes st !! index gp with
    | Some _ => st
    | None => setAxes (index gp) (fun a => a) st
    end) >>
  forEachFrom 0 (buttons gp) (processButton (index gp) player) >>
  processAxes gp player.

(** [pollGamepad]: [hasGamepad] is the closure flag [checkGamepads]
    maintains, [gps] what [navigator.getGamepads()] returns. *)
Definition pollGamepad (hasGamepad : bool) (status : Session.status_t)
    (nostalgistRef : option Engine.engine) (gps : list (option gamepad))
  : M gamepadState InputEvent.t unit :=
  if negb hasGamepad then ret tt
  else if match status, nostalgistRef with
          | Session.running, None => true
          | _, _ => false
          end then ret tt
  else for_each gps (fun gp => match gp with
                               | None => ret tt
                               | Some gp => pollDevice gp
                               end).

(** One timer tick on one device, and a run of ticks: the events of each
    tick, in order. *)
Definition tick (st : gamepadState) (gp : gamepad)
  : gamepadState * list InputEvent.t :=
  (state_of (pollDevice gp st), trace_of (pollDevice gp st)).

Fixpoint ticks (st : gamepadState) (samples : list gamepad)
  : list (list InputEvent.t) :=
  match samples with
  | [] => []
  | gp :: r => snd (tick st gp) :: ticks (fst (tick st gp)) r
  end.

(** A run of timer ticks of [pollGamepad] on successive snapshots of
    [navigator.getGamepads()]: the events of each tick, in order. *)
Fixpoint polls (hasGamepad : bool) (status : Session.status_t)
    (nostalgistRef : option Engine.engine) (st : gamepadState)
    (snaps : list (list (option gamepad))) : list (list InputEvent.t) :=
  match snaps with
  | [] => []
  | gps :: r =>
      let out := pollGamepad hasGamepad status nostalgistRef gps st in
      trace_of out :: polls hasGamepad status nostalgistRef (state_of out) r
  end.

(** The predecessor component's poll: no edge cache and no stick handling;
    every pressed button is announced on every tick as a raw
    [snes:gamepad-button] notification carrying the button index. *)
Definition pollGamepad_legacy (hasGamepad : bool) (gps : list (option gamepad))
  : list nat :=
  if negb hasGamepad then []
  else List.flat_map
         (fun gp => match gp with
                    | None => []
                    | Some gp =>
                        List.flat_map
                          (fun ib => if pressed (snd ib) then [fst ib] else [])
                          (List.combine (List.seq 0 (List.length (buttons gp)))
                                        (buttons gp))
                    end) gps.

(** A run of timer ticks of the predecessor's poll: nothing is kept from
    one tick to the next. *)
Definition polls_legacy (hasGamepad : bool)
    (snaps : list (list (option gamepad))) : list (list nat) :=
  List.map (pollGamepad_legacy hasGamepad) snaps.

End Gamepad.

(* ===================================================================== *)
(** ** On-screen controls *)
(* ===================================================================== *)

Module VirtualControls.
Import Engine Eff Eff.Notations.
Local Open Scope eff_scope.

(** [activeButtons] (player, then button, to pressed flag) and the
    [activeDpadDirection] ref. *)
Record state : Type := mkState
  { activeButtons : list (string * list (string * bool));
    activeDpadDirection : option string }.

Definition initial : state := mkState [("p1", []); ("p2", [])] None.

(** [{ ...prev, [player]: { ...(prev[player] || {}), [buttonName]: v } }]. *)
Definition setActive (player buttonName : string) (v : bool)
    (prev : list (string * list (string * bool)))
  : list (string * list (string * bool)) :=
  JS.set prev player (JS.set (default [] (JS.get prev player)) buttonName v).

Definition setActiveButtons (player buttonName : string) (v : bool)
  : M state effect unit :=
  modify (fun s => mkState (setActive player buttonName v (activeButtons s))
                           (activeDpadDirection s)).

Definition setDirection (d : option string) : M state effect unit :=
  modify (fun s => mkState (activeButtons s) d).

(** [activeButtons[player]?.[buttonName]] read as a flag. *)
Definition isActive (s : state) (player buttonName : string) : bool :=
  default false (JS.get (default [] (JS.get (activeButtons s) player)) buttonName).

Definition playerArg (player : option string) : string := default "p1" player.

Definition playerNumber (player : string) : option Z :=
  Some (if String.eqb player "p2" then 2%Z else 1%Z).

Section WithEngine.
(** [nostalgistRef.current] while the handlers run. *)
Variable nostalgistRef : option engine.

Definition handleVirtualPress (buttonName : string) (player : option string)
  : M state effect unit :=
  let player := playerArg player in
  setActiveButtons player buttonName true >>
  let id := InputMapping.toCoreId buttonName (playerNumber player) in
  match nostalgistRef with
  | Some n =>
      if has_pressDown (caps n) then emit (EngineCall (eid n) (PressDown id))
      else if has_press (caps n) then emit (EngineCall (eid n) (Press id))
      else ret tt
  | None => ret tt
  end.

Definition handleVirtualRelease (buttonName : string) (player : option string)
  : M state effect unit :=
  let player := playerArg player in
  setActiveButtons player buttonName false >>
  let id := InputMapping.toCoreId buttonName (playerNumber player) in
  match nostalgistRef with
  | Some n =>
      if has_pressUp (caps n) then emit (EngineCall (eid n) (PressUp id))
      else ret tt
  | None => ret tt
  end.

(** The pad's bounding box and the pointer or touch event over it, in
    doubles.  A field the event does not carry reads [undefined]. *)
Record rectangle : Type := mkRect
  { r_left : float; r_top : float; r_width : float; r_height : float }.
Record touch : Type := mkTouch { t_clientX : float; t_clientY : float }.
Record domEvent : Type := mkEvent
  { rect : rectangle;
    touches : option (list touch);
    clientX : option float;
    clientY : option float }.

(** A missing operand of a subtraction is NaN. *)
Definition toNumber (v : option float) : float :=
  match v with Some n => n | None => PrimFloat.nan end.

Definition contactPoint (e : domEvent) : float * float :=
  match touches e with
  | Some (t :: _) => (t_clientX t, t_clientY t)
  | _ => (toNumber (clientX e), toNumber (clientY e))
  end.

(** The zone test on the two ratios; [0.33] and [0.67] are the doubles
    nearest to these decimals, as in the code. *)
Definition zoneOf (xRatio yRatio : float) : option string :=
  if (yRatio <? 0.33)%float then Some "up"
  else if (0.67 <? yRatio)%float then Some "down"
  else if (xRatio <? 0.33)%float then Some "left"
  else if (0.67 <? xRatio)%float then Some "right"
  else None.

Definition newDirectionOf (e : domEvent) : option string :=
  let '(cx, cy) := contactPoint e in
  let x := (cx - r_left (rect e))%float in
  let y := (cy - r_top (rect e))%float in
  let w := r_width (rect e) in
  let h := r_height (rect e) in
  zoneOf (x / w)%float (y / h)%float.

Definition direction_eqb (a b : option string) : bool :=
  match a, b with
  | None, None => true
  | Some x, Some y => String.eqb x y
  | _, _ => false
  end.

Definition handleDpadMove (e : domEvent) : M state effect unit :=
  let newDirection := newDirectionOf e in
  let* s := get in
  if negb (direction_eqb newDirection (activeDpadDirection s)) then
    match activeDpadDirection s with
    | Some old => handleVirtualRelease old None
    | None => ret tt
    end >>
    match newDirection with
    | Some d => handleVirtualPress d None
    | None => ret tt
    end >>
    setDirection newDirection
  else ret tt.

(** [handleDpadStart] and [handleDpadEnd] first call [e.preventDefault()],
    which [handleDpadMove] does not; that call acts on the event alone and
    is recorded by [preventsDefault] below, not in the trace. *)
Definition handleDpadStart (e : domEvent) : M state effect unit :=
  handleDpadMove e.

Definition handleDpadEnd : M state effect unit :=
  let* s := get in
  match activeDpadDirection s with
  | Some old => handleVirtualRelease old None >> setDirection None
  | None => ret tt
  end.

(** The on-screen buttons the two components render (the shoulder
    buttons only in the predecessor) and the events their elements
    listen to. *)
Inductive onscreenButton : Type :=
| BtnSelect | BtnStart | BtnY | BtnX | BtnA | BtnB | BtnL | BtnR.

Definition nameOf (b : onscreenButton) : string :=
  match b with
  | BtnSelect => "select" | BtnStart => "start"
  | BtnY => "y" | BtnX => "x" | BtnA => "a" | BtnB => "b"
  | BtnL => "l" | BtnR => "r"
  end.

Inductive uiEvent : Type :=
| DpadPointerDown (e : domEvent)
| DpadPointerMove (e : domEvent)
| DpadPointerUp
| DpadPointerLeave
| DpadPointerCancel
| DpadTouchStart (e : domEvent)
| DpadTouchMove (e : domEvent)
| DpadTouchEnd
| DpadTouchCancel
| ButtonPointerDown (b : onscreenButton)
| ButtonPointerUp (b : onscreenButton)
| ButtonTouchStart (b : onscreenButton)
| ButtonTouchEnd (b : onscreenButton).

(** The handler each listener attribute of the JSX names. *)
Definition handle (ev : uiEvent) : M state effect unit :=
  match ev with
  | DpadPointerDown e | DpadTouchStart e => handleDpadStart e
  | DpadPointerMove e | DpadTouchMove e => handleDpadMove e
  | DpadPointerUp | DpadPointerLeave | DpadPointerCancel
  | DpadTouchEnd | DpadTouchCancel => handleDpadEnd
  | ButtonPointerDown b | ButtonTouchStart b => handleVirtualPress (nameOf b) None
  | ButtonPointerUp b | ButtonTouchEnd b => handleVirtualRelease (nameOf b) None
  end.

Definition handleAll (evs : list uiEvent) : M state effect unit :=
  for_each evs handle.
End WithEngine.

(** Whether the handler of an on-screen event calls [e.preventDefault()]:
    the d-pad's start and end handlers do, unconditionally; its move
    handler and the buttons' listeners do not. *)
Definition preventsDefault (ev : uiEvent) : bool :=
  match ev with
  | DpadPointerDown _ | DpadTouchStart _
  | DpadPointerUp | DpadPointerLeave | DpadPointerCancel
  | DpadTouchEnd | DpadTouchCancel => true
  | DpadPointerMove _ | DpadTouchMove _
  | ButtonPointerDown _ | ButtonPointerUp _
  | ButtonTouchStart _ | ButtonTouchEnd _ => false
  end.


Definition directions : list string := ["up"; "down"; "left"; "right"].


End VirtualControls.

(* ===================================================================== *)
(** ** Statements of the design document, for comparison with the code *)
(* ===================================================================== *)

Module DesignDoc.


(** Default bindings of the two players share no key code. *)
Definition defaultsDisjoint : Prop :=
  forall code : string,
    ~ (In code (MappingStore.boundCodes (MappingStore.p1 MappingStore.defaultMappings)) /\
       In code (MappingStore.boundCodes (MappingStore.p2 MappingStore.defaultMappings))).

(** The known-extension universe: the union of the alias sets. *)
Definition knownExtensionUniverse (dotted : string) : bool :=
  existsb (fun p => JS.includes (ConsoleProfileTable.aliasSet p) dotted)
          ConsoleProfileTable.tableProfiles.

(** Single flight: at most one launch pending and at most one engine
    created and not released, whatever the user does. *)
Definition singleHandle (isMobile : bool)
    (loadAsync : Engine.File -> Engine.archive) : Prop :=
  forall evs : list Session.event,
    let w := Session.run isMobile loadAsync Session.mounted evs in
    (List.length (Session.inFlight w) <= 1)%nat /\
    (List.length (Session.live w) <= 1)%nat.

(** Of two consecutive polls of one snapshot by the predecessor component
    the second announces nothing: what is held was announced already. *)
Definition heldAnnouncedOnce : Prop :=
  forall gps : list (option Gamepad.gamepad),
    Gamepad.polls_legacy true [gps; gps]
    = [Gamepad.pollGamepad_legacy true gps; []].


End DesignDoc.

(* ===================================================================== *)
(** ** Vocabulary of the proofs *)
(* ===================================================================== *)

Module Vocabulary.
Import Engine.

(** *** Console table *)

(** What is checked of every entry of the table object. *)
Definition entry_ok (kp : string * ConsoleProfileTable.profile) : bool :=
  ConsoleProfileTable.inAliasSet (fst kp) (snd kp)
  && existsb (ConsoleProfileTable.profile_eqb (snd kp))
             ConsoleProfileTable.tableProfiles
  && ConsoleProfileTable.knownExtension (fst kp).

Definition undot (e : string) : string :=
  String.substring 1 (String.length e - 1) e.


(** *** Archives *)

(** An entry the scan accepts. *)
Definition isCandidate (kv : string * zipEntry) : bool :=
  negb (dir (snd kv))
  && JS.includes Session.allRomExtensions (Session.entryExtension (fst kv)).

(** *** Sessions *)

Definition isExit (e : effect) : bool :=
  match e with EngineCall _ ExitCall => true | _ => false end.

Definition staysMounted (ev : Session.event) : bool :=
  match ev with Session.Unmounted => false | _ => true end.

(** Every engine ever created is still live, the ref names the newest of
    them, and [exit] was never called. *)
Definition neverReleased (w : Session.world) : Prop :=
  Session.live w = List.rev (List.seq 0 (Session.nextId w)) /\
  option_map eid (Session.nostalgistRef (Session.comp w))
  = List.head (Session.live w) /\
  existsb isExit (Session.log w) = false.

(** An engine with none of the optional state methods. *)
Definition bareEngine : engine :=
  mkEngine 0 (mkCaps true true true None None None).

(** *** On-screen controls *)


(** The calls a press and a release make on the engine the ref holds. *)
Definition pressCalls (ref : option engine) (b : option string) : list effect :=
  match ref, b with
  | Some n, Some b =>
      if has_pressDown (caps n) then [EngineCall (eid n) (PressDown b)]
      else if has_press (caps n) then [EngineCall (eid n) (Press b)]
      else []
  | _, _ => []
  end.

Definition releaseCalls (ref : option engine) (b : option string) : list effect :=
  match ref, b with
  | Some n, Some b =>
      if has_pressUp (caps n) then [EngineCall (eid n) (PressUp b)] else []
  | _, _ => []
  end.

Definition afterPress (b : option string)
    (ab : list (string * list (string * bool))) :=
  match b with Some b => VirtualControls.setActive "p1" b true ab | None => ab end.

Definition afterRelease (b : option string)
    (ab : list (string * list (string * bool))) :=
  match b with Some b => VirtualControls.setActive "p1" b false ab | None => ab end.

(** What one on-screen event does, by case: the button released (if any),
    the button pressed (if any) and the pad direction afterwards. *)
Inductive transition (s : VirtualControls.state)
  : option string -> option string -> option string -> Prop :=
| T_same :
    transition s None None (VirtualControls.activeDpadDirection s)
| T_zone (new : option string) :
    new <> VirtualControls.activeDpadDirection s ->
    (forall d, new = Some d -> In d VirtualControls.directions) ->
    transition s (VirtualControls.activeDpadDirection s) new new
| T_end (old : string) :
    VirtualControls.activeDpadDirection s = Some old ->
    transition s (Some old) None None
| T_press (b : VirtualControls.onscreenButton) :
    transition s None (Some (VirtualControls.nameOf b))
               (VirtualControls.activeDpadDirection s)
| T_release (b : VirtualControls.onscreenButton) :
    transition s (Some (VirtualControls.nameOf b)) None
               (VirtualControls.activeDpadDirection s).




(** The logical button names of [inputMapping.js]. *)
Definition BUTTONS : list string :=
  ["up"; "down"; "left"; "right"; "a"; "b"; "x"; "y"; "l"; "r"; "start"; "select"].

(** A call that addresses player 1: a press or release whose identifier is
    a bare logical button name. *)
Definition forPlayer1 (e : effect) : bool :=
  match e with
  | EngineCall _ (PressDown id) | EngineCall _ (PressUp id)
  | EngineCall _ (Press id) => JS.includes BUTTONS id
  | _ => false
  end.


End Vocabulary.

(* ===================================================================== *)
(** ** Vocabulary of the gamepad proofs *)
(* ===================================================================== *)

Module Edges.
Import Gamepad.

(** What a source whose state was [was] and is sampled as [now] should
    emit: nothing when the two agree, one [down] on a rise, one [up] on a
    fall. *)
Definition edgeEvents (control player : string) (now was : bool)
  : list InputEvent.t :=
  if Bool.eqb now was then []
  else [InputEvent.mk control (if now then InputEvent.down else InputEvent.up) player].

Definition playerOf (gp : gamepad) : string :=
  if Nat.eqb (index gp) 0 then "p1" else "p2".

(** The buttons of a sample with their indices, from [k] on. *)
Definition indexed {A} (k : nat) (l : list A) : list (nat * A) :=
  List.combine (List.seq k (List.length l)) l.

(** The stick directions a sample shows active. *)
Definition stickNow (gp : gamepad) : axisState :=
  let axisX := JS.orZero (nth_error (axes gp) 0) in
  let axisY := JS.orZero (nth_error (axes gp) 1) in
  mkAxes (upActive axisY) (downActive axisY) (leftActive axisX) (rightActive axisX).

Definition stickChanges (player : string) (now was : axisState)
  : list InputEvent.t :=
  edgeEvents "left" player (ax_left now) (ax_left was)
  ++ edgeEvents "right" player (ax_right now) (ax_right was)
  ++ edgeEvents "up" player (ax_up now) (ax_up was)
  ++ edgeEvents "down" player (ax_down now) (ax_down was).

(** The events one tick should produce against the cache [st]. *)
Definition buttonEdgesFrom (k : nat) (i : nat) (player : string)
    (st : gamepadState) (btns : list button) : list InputEvent.t :=
  List.flat_map
    (fun ib => match GAMEPAD_MAPPING (fst ib) with
               | Some c => edgeEvents c player (isPressed (snd ib))
                                      (wasPressed st i (fst ib))
               | None => []
               end)
    (indexed k btns).

Definition buttonEdges (st : gamepadState) (gp : gamepad) : list InputEvent.t :=
  buttonEdgesFrom 0 (index gp) (playerOf gp) st (buttons gp).

Definition stickEdges (st : gamepadState) (gp : gamepad) : list InputEvent.t :=
  stickChanges (playerOf gp) (stickNow gp) (axesOf st (index gp)).

(** The events a tick should produce after a tick on [prev], from the two
    samples alone. *)
Definition changes (prev gp : gamepad) : list InputEvent.t :=
  List.flat_map
    (fun ibb => match GAMEPAD_MAPPING (fst ibb) with
                | Some c => edgeEvents c (playerOf gp)
                                       (isPressed (snd (snd ibb)))
                                       (isPressed (fst (snd ibb)))
                | None => []
                end)
    (indexed 0 (List.combine (buttons prev) (buttons gp)))
  ++ stickChanges (playerOf gp) (stickNow gp) (stickNow prev).

Fixpoint consecutive (prev : gamepad) (rest : list gamepad)
  : list (list InputEvent.t) :=
  match rest with
  | [] => []
  | gp :: r => changes prev gp :: consecutive gp r
  end.

(** Samples of one device: same index, same number of buttons. *)
Definition sameDevice (a b : gamepad) : Prop :=
  index a = index b /\ List.length (buttons a) = List.length (buttons b).

(** A sample showing the same pressed buttons and stick directions. *)
Definition sameInputs (a b : gamepad) : Prop :=
  List.map isPressed (buttons a) = List.map isPressed (buttons b) /\
  stickNow a = stickNow b.

(** What the button pass leaves in the cache, relative to the cache before
    it: the sampled state at every mapped index it visited, everything else
    as it was. *)
Definition buttonsSampled (k i : nat) (btns : list button)
    (st st' : gamepadState) : Prop :=
  (forall j, axesOf st' j = axesOf st j) /\
  (forall j idx, j <> i -> wasPressed st' j idx = wasPressed st j idx) /\
  (forall idx, idx < k -> wasPressed st' i idx = wasPressed st i idx) /\
  (forall idx, k + List.length btns <= idx ->
               wasPressed st' i idx = wasPressed st i idx) /\
  (forall off btn, nth_error btns off = Some btn ->
     wasPressed st' i (k + off)
     = match GAMEPAD_MAPPING (k + off) with
       | Some _ => isPressed btn
       | None => wasPressed st i (k + off)
       end).

(** What one tick on [gp] leaves in the cache: the sampled state of the
    stick and of every mapped button of the device, everything else as it
    was. *)
Definition tickSampled (gp : gamepad) (st st' : gamepadState) : Prop :=
  axesOf st' (index gp) = stickNow gp /\
  (forall j, j <> index gp -> axesOf st' j = axesOf st j) /\
  (forall j idx, j <> index gp -> wasPressed st' j idx = wasPressed st j idx) /\
  (forall idx, List.length (buttons gp) <= idx ->
               wasPressed st' (index gp) idx = wasPressed st (index gp) idx) /\
  (forall idx btn, nth_error (buttons gp) idx = Some btn ->
     wasPressed st' (index gp) idx
     = match GAMEPAD_MAPPING idx with
       | Some _ => isPressed btn
       | None => wasPressed st (index gp) idx
       end).

(** A stick value inside the deadzone, its boundary included. *)
Definition atRest (v : Q) : Prop := (- 0.25 <= v)%Q /\ (v <= 0.25)%Q.

(** A stick-only sample of device [i] with the given axis values. *)
Definition stickAt (i : nat) (x y : Q) : gamepad :=
  mkPad i [] [JS.Fin x; JS.Fin y].

End Edges.

(* ===================================================================== *)
(** ** src/inputMapping.js: the button table *)
(* ===================================================================== *)

Module ButtonTable.

(** The [BUTTONS] object. *)
Definition BUTTONS : list (string * string) :=
  [ ("UP", "up"); ("DOWN", "down"); ("LEFT", "left"); ("RIGHT", "right");
    ("A", "a"); ("B", "b"); ("X", "x"); ("Y", "y"); ("L", "l"); ("R", "r");
    ("START", "start"); ("SELECT", "select") ].

(** [Object.values(BUTTONS)]. *)
Definition getAllButtons : list string := List.map snd BUTTONS.

Definition isValidButton (buttonName : string) : bool :=
  JS.includes getAllButtons buttonName.

End ButtonTable.

(* ===================================================================== *)
(** ** Keyboard capture and play *)
(* ===================================================================== *)

Module Keyboard.

(** The fields of a [KeyboardEvent] the handlers read. *)
Record keyEvent : Type := mkKey { key : string; code : string }.

(** The [mappings] cell on the shape the component writes: an object from
    player to that player's bindings. *)
Definition mappingsObj : Type := list (string * MappingStore.playerMap).

Definition ofMapping (m : MappingStore.PlayerMapping) : mappingsObj :=
  [("p1", MappingStore.p1 m); ("p2", MappingStore.p2 m)].

(** The [{ player, key }] token of the remap buttons. *)
Record control : Type := mkControl { c_player : string; c_key : string }.

Record state : Type := mkState
  { mappings : mappingsObj; awaiting : option control }.

(** What a handler did: the state after, the [snes:input] events it
    dispatched and whether it called [preventDefault]. *)
Record handled : Type := mkHandled
  { next : state; dispatched : list InputEvent.t; defaultPrevented : bool }.

Definition isModifier (e : keyEvent) : bool :=
  JS.startsWith (code e) "Shift" || JS.startsWith (code e) "Control"
  || JS.startsWith (code e) "Alt" || String.eqb (key e) "Meta".

(** [{ ...prev, [c.player]: { ...prev[c.player], [c.key]: b } }]. *)
Definition rebind (prev : mappingsObj) (c : control) (b : MappingStore.binding)
  : mappingsObj :=
  JS.set prev (c_player c)
         (JS.set (default [] (JS.get prev (c_player c))) (c_key c) b).

(** The inner loop over [Object.keys(map)] for one player. *)
Definition scan (ty : InputEvent.transition) (maps : mappingsObj)
    (pressed : string) (player : string) : list InputEvent.t :=
  let map := default [] (JS.get maps player) in
  List.flat_map
    (fun control =>
       match JS.get map control with
       | Some (Some c) =>
           if String.eqb c pressed then [InputEvent.mk control ty player] else []
       | _ => []
       end)
    (JS.keys map).

(** The loop over [['p1', 'p2']]. *)
Definition play (ty : InputEvent.transition) (maps : mappingsObj)
    (pressed : string) : list InputEvent.t :=
  scan ty maps pressed "p1" ++ scan ty maps pressed "p2".

Definition isEmpty {A} (l : list A) : bool :=
  match l with [] => true | _ => false end.

Definition onKeyDown (st : state) (e : keyEvent) : handled :=
  match awaiting st with
  | Some a =>
      if String.eqb (key e) "Escape"
      then mkHandled (mkState (mappings st) None) [] true
      else if isModifier e then mkHandled st [] false
      else mkHandled (mkState (rebind (mappings st) a (Some (code e))) None) [] true
  | None =>
      let evs := play InputEvent.down (mappings st) (code e) in
      mkHandled st evs (negb (isEmpty evs))
  end.

Definition onKeyUp (st : state) (e : keyEvent) : handled :=
  let evs := play InputEvent.up (mappings st) (code e) in
  mkHandled st evs (negb (isEmpty evs)).

Definition beginRemap (c : control) (st : state) : state :=
  mkState (mappings st) (Some c).

Definition clearMapping (c : control) (st : state) : state :=
  mkState (rebind (mappings st) c None) (awaiting st).

Definition resetMappings (st : state) : state :=
  mkState (ofMapping MappingStore.defaultMappings) (awaiting st).

(** The binding of a button for a player, [undefined] when there is none. *)
Definition bindingOf (maps : mappingsObj) (player button : string)
  : option MappingStore.binding :=
  JS.get (default [] (JS.get maps player)) button.

End Keyboard.

(* ===================================================================== *)
(** ** Optional engine methods: status, introspection, command channel *)
(* ===================================================================== *)

Module CoreMappings.

(** [getKeyboardCode(button, player)]: a value (missing or a string) or a
    throw. *)
Definition keyboardCodeFn : Type := string -> Z -> Eff.outcome (option string).

(** The module [getEmscripten()] returns, with its optional helper. *)
Record emscripten : Type := mkModule
  { mod_getKeyboardCode : option keyboardCodeFn }.

(** The further optional methods of an instance. *)
Record methods : Type := mkMethods
  { has_sendCommand : bool;
    has_getStatus : bool;
    getKeyboardCode : option keyboardCodeFn;
    getEmscripten : option (Eff.outcome (option emscripten)) }.

(** [v || null]. *)
Definition orNull (v : option string) : option string :=
  match v with
  | Some s => if String.eqb s "" then None else Some s
  | None => None
  end.

Definition buttons : list string :=
  ["up"; "down"; "left"; "right"; "a"; "b"; "x"; "y"; "l"; "r"; "start"; "select"].

(** The two assignments inside the inner [try], with its [catch]. *)
Definition askBoth (f : keyboardCodeFn) (b : string)
  : option string * option string :=
  match f b 1%Z with
  | Eff.Raised _ => (None, None)
  | Eff.Returned v1 =>
      match f b 2%Z with
      | Eff.Raised _ => (None, None)
      | Eff.Returned v2 => (orNull v1, orNull v2)
      end
  end.

(** The body of the loop for one button: what ends up in [result.p1[b]]
    and [result.p2[b]]. *)
Definition lookupButton (n : methods) (b : string)
  : option string * option string :=
  match getKeyboardCode n with
  | Some f => askBoth f b
  | None =>
      match getEmscripten n with
      | Some (Eff.Returned (Some m)) =>
          match mod_getKeyboardCode m with
          | Some f => askBoth f b
          | None => (None, None)
          end
      | Some (Eff.Returned None) => (None, None)
      | Some (Eff.Raised _) => (None, None)
      | None => (None, None)
      end
  end.

(** The [coreMappings] cell. *)
Record coreMap : Type := mkCoreMap
  { cm_p1 : list (string * option string);
    cm_p2 : list (string * option string) }.

Definition addButton (n : methods) (result : coreMap) (b : string) : coreMap :=
  let '(v1, v2) := lookupButton n b in
  mkCoreMap (JS.set (cm_p1 result) b v1) (JS.set (cm_p2 result) b v2).

(** [updateCoreMappings]: the new value of the cell, the cell being left
    alone when there is no instance. *)
Definition updateCoreMappings (n : option methods) (cell : option coreMap)
  : option coreMap :=
  match n with
  | None => cell
  | Some n => Some (fold_left (addButton n) buttons (mkCoreMap [] []))
  end.

(** The 'Sync to core' button of the mapping panel: the new mappings and
    the alert. *)
Definition syncBinding (v : option string) : MappingStore.binding := orNull v.

Definition syncToCore (cell : option coreMap) (maps : Keyboard.mappingsObj)
  : Keyboard.mappingsObj * string :=
  match cell with
  | None => (maps, "Core mappings not available")
  | Some cm =>
      ([ ("p1", JS.literal (List.map (fun kv => (fst kv, syncBinding (snd kv))) (cm_p1 cm)));
         ("p2", JS.literal (List.map (fun kv => (fst kv, syncBinding (snd kv))) (cm_p2 cm))) ],
       "Synced mappings to core defaults")
  end.

(** *** [waitForCoreReady]

    One run of [check]: what [getStatus()] gives at that moment and the
    value of [Date.now() - start] read after it. *)
Record observation : Type := mkObs
  { reported : Eff.outcome string; elapsed : Z }.

Inductive settled : Type :=
| Resolved
| RejectedWith (msg : string).

Definition isReady (r : Eff.outcome string) : bool :=
  match r with
  | Eff.Returned s =>
      String.eqb s "running" || String.eqb s "ready" || String.eqb s "started"
  | Eff.Raised _ => false
  end.

(** The chain of [check] calls over the observations made so far; [None]
    while the promise is pending. *)
Fixpoint check (hasGetStatus : bool) (obs : list observation) : option settled :=
  match obs with
  | [] => None
  | o :: rest =>
      if hasGetStatus && isReady (reported o) then Some Resolved
      else if (5000 <? elapsed o)%Z then Some (RejectedWith "timeout waiting for core")
      else check hasGetStatus rest
  end.

Definition waitForCoreReady (n : option methods) (obs : list observation)
  : option settled :=
  match n with
  | None => Some (RejectedWith "no instance")
  | Some m => check (has_getStatus m) obs
  end.

(** The calls of [updateCoreMappings] the launch schedules once the wait
    has settled: at once, and after 700 and 2200 ms when it resolved. *)
Definition updatesAfter (s : settled) : list Z :=
  match s with
  | Resolved => [0; 700; 2200]%Z
  | RejectedWith _ => [0%Z]
  end.

End CoreMappings.

(* ===================================================================== *)
(** ** Forwarding [snes:input] events to the engine ([onInput]) *)
(* ===================================================================== *)

Module Forwarding.

Definition playerIndex (player : string) : Z :=
  if String.eqb player "p2" then 2%Z else 1%Z.

(** The calls of the current component's listener. *)
Inductive forwarded : Type :=
| PressPayload (control : string) (ty : InputEvent.transition) (player : Z)
| PressDownAt (control : string) (player : Z)
| PressUpAt (control : string) (player : Z)
| SendCommand (control : string) (ty : InputEvent.transition) (player : Z).

Definition onInput (ref : option (Engine.engine * CoreMappings.methods))
    (e : InputEvent.t) : list forwarded :=
  match ref with
  | None => []
  | Some (n, m) =>
      let control := InputEvent.control e in
      let ty := InputEvent.type e in
      let idx := playerIndex (InputEvent.player e) in
      if Engine.has_press (Engine.caps n) then [PressPayload control ty idx]
      else match ty with
           | InputEvent.down =>
               if Engine.has_pressDown (Engine.caps n) then [PressDownAt control idx]
               else if CoreMappings.has_sendCommand m then [SendCommand control ty idx]
               else []
           | InputEvent.up =>
               if Engine.has_pressUp (Engine.caps n) then [PressUpAt control idx]
               else if CoreMappings.has_sendCommand m then [SendCommand control ty idx]
               else []
           end
  end.

(** The calls of the predecessor's listener: identifiers for [pressDown]
    and [pressUp], the player name in the payloads. *)
Inductive forwarded_legacy : Type :=
| ById (c : Engine.call)
| PressPayloadFor (control : string) (ty : InputEvent.transition) (player : string)
| SendCommandFor (control : string) (ty : InputEvent.transition) (player : string).

Definition coreIdOf (control player : string) : string :=
  if String.eqb player "p2" then ("P2_" ++ control)%string else control.

Definition onInput_legacy (ref : option (Engine.engine * CoreMappings.methods))
    (e : InputEvent.t) : list forwarded_legacy :=
  match ref with
  | None => []
  | Some (n, m) =>
      let control := InputEvent.control e in
      let ty := InputEvent.type e in
      let player := InputEvent.player e in
      let fallback :=
        if Engine.has_press (Engine.caps n) then [PressPayloadFor control ty player]
        else if CoreMappings.has_sendCommand m then [SendCommandFor control ty player]
        else [] in
      match ty with
      | InputEvent.down =>
          if Engine.has_pressDown (Engine.caps n)
          then [ById (Engine.PressDown (coreIdOf control player))]
          else fallback
      | InputEvent.up =>
          if Engine.has_pressUp (Engine.caps n)
          then [ById (Engine.PressUp (coreIdOf control player))]
          else fallback
      end
  end.

End Forwarding.

(* ===================================================================== *)
(** ** [checkGamepads] *)
(* ===================================================================== *)

Module GamepadPresence.

(** The slots of [navigator.getGamepads()] that hold a device, by slot
    number, and the [hasGamepad] flag. *)
Definition connected (gps : list (option Gamepad.gamepad)) : list nat :=
  List.flat_map
    (fun ig => match snd ig with Some _ => [fst ig] | None => [] end)
    (List.combine (List.seq 0 (List.length gps)) gps).

Definition checkGamepads (gps : list (option Gamepad.gamepad)) : bool :=
  (0 <? List.length (connected gps))%nat.

End GamepadPresence.

(* ===================================================================== *)
(** ** Vocabulary of the further properties *)
(* ===================================================================== *)

Module Further.

(** Key events in the order they arrive, and the state they leave. *)
Inductive keyAction : Type :=
| Down (e : Keyboard.keyEvent)
| Up (e : Keyboard.keyEvent).

Definition keyStep (st : Keyboard.state) (a : keyAction) : Keyboard.state :=
  match a with
  | Down e => Keyboard.next (Keyboard.onKeyDown st e)
  | Up e => Keyboard.next (Keyboard.onKeyUp st e)
  end.

Definition runKeys (st : Keyboard.state) (evs : list keyAction) : Keyboard.state :=
  fold_left keyStep evs st.

(** A key that ends a pending capture by binding its code. *)
Definition binds (e : Keyboard.keyEvent) : Prop :=
  String.eqb (Keyboard.key e) "Escape" = false /\ Keyboard.isModifier e = false.

(** Whether a character occurs in a string. *)
Fixpoint hasChar (c : ascii) (s : string) : bool :=
  match s with
  | EmptyString => false
  | String c' r => Ascii.eqb c' c || hasChar c r
  end.

(** A name with no dot in it. *)
Definition dotless (s : string) : Prop := hasChar "." s = false.


(** The devices a snapshot of [navigator.getGamepads()] holds, in slot
    order. *)
Definition present (gps : list (option Gamepad.gamepad)) : list Gamepad.gamepad :=
  List.flat_map (fun g => match g with Some gp => [gp] | None => [] end) gps.

(** The events one tick should produce for a device against a cache. *)
Definition deviceEdges (st : Gamepad.gamepadState) (gp : Gamepad.gamepad)
  : list InputEvent.t :=
  Edges.buttonEdges st gp ++ Edges.stickEdges st gp.

(** The second gate of [pollGamepad] is open. *)
Definition gateOpen (status : Session.status_t) (ref : option Engine.engine)
  : Prop :=
  status = Session.running -> ref <> None.


(** What a poll of a snapshot leaves in the cache for a device of the
    snapshot: the sampled state of its stick and of every mapped button. *)
Definition deviceSampled (gp : Gamepad.gamepad)
    (st st' : Gamepad.gamepadState) : Prop :=
  Gamepad.axesOf st' (Gamepad.index gp) = Edges.stickNow gp /\
  (forall idx, List.length (Gamepad.buttons gp) <= idx ->
     Gamepad.wasPressed st' (Gamepad.index gp) idx
     = Gamepad.wasPressed st (Gamepad.index gp) idx) /\
  (forall idx btn, nth_error (Gamepad.buttons gp) idx = Some btn ->
     Gamepad.wasPressed st' (Gamepad.index gp) idx
     = match Gamepad.GAMEPAD_MAPPING idx with
       | Some _ => Gamepad.isPressed btn
       | None => Gamepad.wasPressed st (Gamepad.index gp) idx
       end).

(** The loop of [pollGamepad] over a snapshot. *)
Definition pollEach (gps : list (option Gamepad.gamepad))
  : Eff.M Gamepad.gamepadState InputEvent.t unit :=
  Eff.for_each gps (fun gp => match gp with
                              | None => Eff.ret tt
                              | Some gp => Gamepad.pollDevice gp
                              end).


(** The control, transition and player index a forwarded call carries. *)
Definition callControl (c : Forwarding.forwarded) : string :=
  match c with
  | Forwarding.PressPayload control _ _ | Forwarding.PressDownAt control _
  | Forwarding.PressUpAt control _ | Forwarding.SendCommand control _ _ => control
  end.

Definition callType (c : Forwarding.forwarded) : InputEvent.transition :=
  match c with
  | Forwarding.PressPayload _ ty _ | Forwarding.SendCommand _ ty _ => ty
  | Forwarding.PressDownAt _ _ => InputEvent.down
  | Forwarding.PressUpAt _ _ => InputEvent.up
  end.

Definition callPlayer (c : Forwarding.forwarded) : Z :=
  match c with
  | Forwarding.PressPayload _ _ p | Forwarding.PressDownAt _ p
  | Forwarding.PressUpAt _ p | Forwarding.SendCommand _ _ p => p
  end.

(** Whether the instance offers a route for a transition. *)
Definition canForward (n : Engine.engine) (m : CoreMappings.methods)
    (ty : InputEvent.transition) : bool :=
  Engine.has_press (Engine.caps n)
  || match ty with
     | InputEvent.down => Engine.has_pressDown (Engine.caps n)
     | InputEvent.up => Engine.has_pressUp (Engine.caps n)
     end
  || CoreMappings.has_sendCommand m.


(** Checks are at least 200 ms apart: the [k]-th check (from 0) reads an
    elapsed time of at least [200 * k] ms. *)
Definition paced (obs : list CoreMappings.observation) : Prop :=
  forall k o, nth_error obs k = Some o ->
              (200 * Z.of_nat k <= CoreMappings.elapsed o)%Z.

(** A check that settles nothing: no ready status seen and the time limit
    not passed. *)
Definition pending (hasGetStatus : bool) (o : CoreMappings.observation) : Prop :=
  hasGetStatus && CoreMappings.isReady (CoreMappings.reported o) = false /\
  (CoreMappings.elapsed o <= 5000)%Z.

(** The table [updateCoreMappings] builds from what the instance answers
    for each button. *)
Definition answers (n : CoreMappings.methods) : CoreMappings.coreMap :=
  CoreMappings.mkCoreMap
    (List.map (fun b => (b, fst (CoreMappings.lookupButton n b))) CoreMappings.buttons)
    (List.map (fun b => (b, snd (CoreMappings.lookupButton n b))) CoreMappings.buttons).

(** An instance with no way to tell its keyboard codes. *)
Definition noIntrospection (n : CoreMappings.methods) : Prop :=
  CoreMappings.getKeyboardCode n = None /\
  match CoreMappings.getEmscripten n with
  | Some (Eff.Returned (Some m)) => CoreMappings.mod_getKeyboardCode m = None
  | _ => True
  end.



Definition downloads (t : list Engine.effect) : list (string * string) :=
  List.flat_map
    (fun e => match e with Engine.Download f b => [(f, b)] | _ => [] end) t.


(** A pointer or touch event that carries no contact point: no touch point
    and no client coordinates (as a [touchend] does). *)
Definition noContact (e : VirtualControls.domEvent) : Prop :=
  (VirtualControls.touches e = None \/ VirtualControls.touches e = Some []) /\
  VirtualControls.clientX e = None /\ VirtualControls.clientY e = None.


(** A stored value in which every number is finite. *)
Fixpoint finiteNumbers (v : MappingStore.json) : bool :=
  match v with
  | MappingStore.JNum (JS.Fin _) => true
  | MappingStore.JNum _ => false
  | MappingStore.JArr l => forallb finiteNumbers l
  | MappingStore.JObj o =>
      forallb (fun kv => let '(_, x) := kv in finiteNumbers x) o
  | _ => true
  end.

End Further.

(* ===================================================================== *)
(** * Properties *)
(* ===================================================================== *)

Import Vocabulary Edges.
Import Further.

(** ** Generic facts *)

Lemma get_In {V} (o : list (string * V)) (k : string) (v : V) :
  JS.get o k = Some v -> In (k, v) o.
Proof.
  induction o as [|[k' v'] r IH]; simpl; [discriminate|].
  destruct (String.eqb k k') eqn:E.
  - intros [= ->]. apply String.eqb_eq in E. subst. now left.
  - intros H. right. auto.
Qed.

Lemma includes_In (l : list string) (x : string) :
  JS.includes l x = true <-> In x l.
Proof.
  unfold JS.includes. rewrite existsb_exists. split.
  - intros (y & Hy & E). apply String.eqb_eq in E. now subst.
  - intros H. exists x. split; [assumption|apply String.eqb_refl].
Qed.

Lemma includes_dotted (l : list string) (ext : string) :
  JS.includes l ("." ++ ext) = true ->
  In ext (List.map undot l).
Proof.
  intros H. apply includes_In in H. apply in_map_iff.
  exists ("." ++ ext)%string. split; [|assumption].
  change ("." ++ ext)%string with (String "." ext).
  unfold undot. cbn [String.length String.substring Nat.sub]. rewrite Nat.sub_0_r.
  clear. induction ext as [|c r IH]; cbn [String.length String.substring];
    [reflexivity|].
  now rewrite IH.
Qed.

(** ** [toCoreId] *)

(** C9: [toCoreId b p] is ["P2_"] followed by [b] exactly when [p] is 2,
    and is [b] itself for every other player value, the omitted one (which
    defaults to 1) included.  The function is total and touches no state:
    it is a plain function of its two arguments. *)
Theorem toCoreId_player2_prefix (b : string) (p : option Z) :
  (InputMapping.toCoreId b p = ("P2_" ++ b)%string <-> p = Some 2%Z) /\
  (InputMapping.toCoreId b p = b <-> p <> Some 2%Z) /\
  InputMapping.toCoreId b None = b /\
  InputMapping.toCoreId b (Some 1%Z) = b.
Proof.
  assert (Hne : ("P2_" ++ b)%string <> b).
  { intros H. apply (f_equal String.length) in H.
    change ("P2_" ++ b)%string with (String "P" (String "2" (String "_" b))) in H.
    cbn [String.length] in H. lia. }
  unfold InputMapping.toCoreId.
  destruct p as [z|]; [destruct (Z.eqb_spec z 2) as [->|Hz]|]; cbn [Z.eqb Pos.eqb].
  all: repeat split; try reflexivity; congruence.
Qed.

(** ** Default bindings *)

Lemma defaultMappings_shared_codes :
  MappingStore.sharedCodes MappingStore.defaultMappings = ["KeyI"; "KeyU"].
Proof. reflexivity. Qed.

(** C3: the default bindings of the two players are not disjoint.  The
    codes [KeyI] and [KeyU] are bound for player 1 ([x], [y]) and for player
    2 ([a], [b]); every other default code belongs to one player only, and
    one press of [KeyI] in play mode is dispatched to both players. *)
Theorem defaultMappings_collide_on_KeyI_KeyU :
  ~ DesignDoc.defaultsDisjoint /\
  MappingStore.sharedCodes MappingStore.defaultMappings = ["KeyI"; "KeyU"] /\
  MappingStore.onKeyDown MappingStore.defaultMappings "KeyI"
  = [ InputEvent.mk "x" InputEvent.down "p1";
      InputEvent.mk "a" InputEvent.down "p2" ] /\
  MappingStore.onKeyDown MappingStore.defaultMappings "KeyU"
  = [ InputEvent.mk "y" InputEvent.down "p1";
      InputEvent.mk "b" InputEvent.down "p2" ].
Proof.
  split; [|repeat split; reflexivity].
  intros H. apply (H "KeyI"). split; simpl; tauto.
Qed.

(** ** Console detection *)

Section Detection.
Import ConsoleProfileTable.

Lemma profile_eqb_eq (p q : profile) : profile_eqb p q = true -> p = q.
Proof.
  destruct p as [c e], q as [c' e']. unfold profile_eqb. simpl.
  rewrite andb_true_iff, !String.eqb_eq. now intros [-> ->].
Qed.

Lemma consoleMap_entries_ok : forallb entry_ok consoleMap = true.
Proof. vm_compute. reflexivity. Qed.

Lemma consoleMap_key (ext : string) (p : profile) :
  JS.get consoleMap ext = Some p ->
  inAliasSet ext p = true /\ In p tableProfiles /\ knownExtension ext = true.
Proof.
  intros H. apply get_In in H.
  pose proof consoleMap_entries_ok as Hall.
  rewrite forallb_forall in Hall. specialize (Hall _ H).
  unfold entry_ok in Hall. cbn [fst snd] in Hall.
  apply andb_true_iff in Hall as [Hall Hk].
  apply andb_true_iff in Hall as [Ha Hp].
  repeat split; try assumption.
  apply existsb_exists in Hp as (q & Hq & E).
  apply profile_eqb_eq in E. now subst.
Qed.



Lemma profileFor_key (ext : string) (p : profile) :
  JS.get consoleMap ext = Some p -> profileFor (Some ext) = Profile p.
Proof. intros H. unfold profileFor, consoleMap_at. now rewrite H. Qed.

End Detection.


Lemma get_set {V} (o : list (string * V)) (k k' : string) (v : V) :
  JS.get (JS.set o k v) k' = if String.eqb k' k then Some v else JS.get o k'.
Proof.
  induction o as [|[k0 v0] r IH]; cbn [JS.set JS.get]; [reflexivity|].
  destruct (String.eqb_spec k k0) as [->|Hk]; cbn [JS.get].
  - destruct (String.eqb_spec k' k0); reflexivity.
  - rewrite IH.
    destruct (String.eqb_spec k' k0) as [->|]; [|reflexivity].
    destruct (String.eqb_spec k0 k); [congruence|reflexivity].
Qed.





(** Detection on file names: the examples of the document's table. *)
Example detect_examples :
  List.map (fun f => ConsoleProfileTable.core_of
                       (ConsoleProfileTable.detectConsoleFromFile f))
           ["Zelda.SMC"; "mario.nes"; "x.tar.gba"; "README"; "notes.txt";
            "disc.iso"; "game.bin"]
  = [Some "snes9x"; Some "fceumm"; Some "mgba"; Some "snes9x"; Some "snes9x";
     Some "opera"; Some "snes9x"].
Proof. reflexivity. Qed.

(** An extension that names an inherited member is neither a table entry
    nor the default. *)
Example detect_inherited_member :
  ConsoleProfileTable.detectConsoleFromFile "save.constructor"
  = ConsoleProfileTable.PrototypeMember "constructor".
Proof. reflexivity. Qed.

(** ** Mapping persistence *)

(** A two-player mapping holds strings and nulls only, which the
    serialiser writes and the parser reads back as they are. *)
Lemma reparsed_encodeMap (m : MappingStore.playerMap) :
  MappingStore.reparsed (MappingStore.encodeMap m) = MappingStore.encodeMap m.
Proof.
  unfold MappingStore.encodeMap. cbn [MappingStore.reparsed]. f_equal.
  rewrite List.map_map. apply List.map_ext. intros [k [c|]]; reflexivity.
Qed.

Lemma reparsed_encode (m : MappingStore.PlayerMapping) :
  MappingStore.reparsed (MappingStore.encode m) = MappingStore.encode m.
Proof.
  unfold MappingStore.encode.
  cbn [MappingStore.reparsed List.map]. now rewrite !reparsed_encodeMap.
Qed.

Lemma load_persist_json (v : MappingStore.json) (ls : MappingStore.localStorage) :
  MappingStore.getItemThrows ls = false ->
  MappingStore.setItemThrows ls = false ->
  MappingStore.reparsed v = v ->
  MappingStore.truthy (MappingStore.member v "p1") = true ->
  MappingStore.truthy (MappingStore.member v "p2") = true ->
  MappingStore.load (MappingStore.persist v ls) = v.
Proof.
  intros Hg Hs Hv H1 H2. unfold MappingStore.persist, MappingStore.load.
  rewrite Hs. cbn [MappingStore.getItemThrows MappingStore.item]. rewrite Hg.
  rewrite Hv, H1, H2.
  destruct v as [ | |n| | | ]; try reflexivity; simpl in H1; discriminate.
Qed.

(** C7: a two-player mapping written to the store is read back unchanged,
    and a stored flat record (an object lacking the key [p1] or the key
    [p2]) is read as player 1's mapping with player 2 at the defaults. *)
Theorem mappings_round_trip_and_legacy_migration :
  (forall (m : MappingStore.PlayerMapping) (ls : MappingStore.localStorage),
      MappingStore.getItemThrows ls = false ->
      MappingStore.setItemThrows ls = false ->
      MappingStore.load (MappingStore.persist (MappingStore.encode m) ls)
      = MappingStore.encode m) /\
  (forall (o : list (string * MappingStore.json)) (ls : MappingStore.localStorage),
      MappingStore.getItemThrows ls = false ->
      MappingStore.item ls = Some (MappingStore.Encodes (MappingStore.JObj o)) ->
      MappingStore.hasKey o "p1" && MappingStore.hasKey o "p2" = false ->
      MappingStore.load ls
      = MappingStore.JObj
          [ ("p1", MappingStore.JObj o);
            ("p2", MappingStore.encodeMap
                     (MappingStore.p2 MappingStore.defaultMappings)) ]).
Proof.
  split.
  - intros m ls Hg Hs.
    apply load_persist_json; try assumption;
      [apply reparsed_encode|reflexivity|reflexivity].
  - intros o ls Hg Hi Hk. unfold MappingStore.load. rewrite Hg, Hi.
    unfold MappingStore.hasKey in Hk. cbn [MappingStore.member MappingStore.truthy].
    destruct (JS.get o "p1") as [v1|]; [|reflexivity].
    destruct (JS.get o "p2") as [v2|]; [discriminate|].
    cbn [MappingStore.truthy andb]. now rewrite andb_false_r.
Qed.

Lemma mappings_round_trip_and_legacy_migration_witness :
  let ls := MappingStore.mkStorage None false false in
  let flat := [("a", MappingStore.JObj [("code", MappingStore.JStr "KeyZ")])] in
  MappingStore.load
    (MappingStore.persist (MappingStore.encode MappingStore.defaultMappings) ls)
  = MappingStore.encode MappingStore.defaultMappings /\
  MappingStore.load
    (MappingStore.mkStorage
       (Some (MappingStore.Encodes (MappingStore.JObj flat))) false false)
  = MappingStore.JObj
      [ ("p1", MappingStore.JObj flat);
        ("p2", MappingStore.encodeMap
                 (MappingStore.p2 MappingStore.defaultMappings)) ].
Proof.
  destruct mappings_round_trip_and_legacy_migration as [H1 H2].
  split.
  - apply H1; reflexivity.
  - apply H2; reflexivity.
Defined.

(** Without a stored item, with unreadable storage or with text that does
    not parse, the defaults are loaded. *)
Lemma load_defaults (ls : MappingStore.localStorage) :
  MappingStore.getItemThrows ls = true \/
  MappingStore.item ls = None \/
  MappingStore.item ls = Some MappingStore.EmptyText \/
  MappingStore.item ls = Some MappingStore.Malformed ->
  MappingStore.load ls = MappingStore.encode MappingStore.defaultMappings.
Proof.
  unfold MappingStore.load.
  intros [->|[H|[H|H]]]; [reflexivity| | |];
    rewrite H; now destruct (MappingStore.getItemThrows ls).
Qed.

(** ** Save and load state without engine support *)

(** C8: with an engine instance that has no [saveState] (no [loadState])
    function, the save handler (the load handler, given a file) tells the
    user that the operation is not supported, returns normally and leaves
    the session state as it was. *)
Theorem state_transfer_unsupported_is_reported
    (s : Session.state) (n : Engine.engine) :
  Session.nostalgistRef s = Some n ->
  (Engine.saveState (Engine.caps n) = None ->
   Session.saveState s
   = (Eff.Returned tt, s, [Engine.Alert "Save state not supported by this core"])) /\
  (Engine.loadState (Engine.caps n) = None ->
   forall f : Engine.File,
     Session.onLoadStateFile (Some f) s
     = (Eff.Returned tt, s, [Engine.Alert "Load state not supported by this core"])).
Proof.
  intros Href. split.
  - intros Hcap. unfold Session.saveState, Eff.bind, Eff.get.
    rewrite Href, Hcap. reflexivity.
  - intros Hcap f. unfold Session.onLoadStateFile, Eff.bind, Eff.get.
    rewrite Href, Hcap. reflexivity.
Qed.

Lemma state_transfer_unsupported_is_reported_witness :
  let s := Session.mkState Session.running None None (Some "snes9x")
                           (Some ".smc,.sfc") (Some bareEngine) in
  Session.saveState s
  = (Eff.Returned tt, s, [Engine.Alert "Save state not supported by this core"]) /\
  Session.onLoadStateFile (Some (Engine.mkFile "slot1.state" "")) s
  = (Eff.Returned tt, s, [Engine.Alert "Load state not supported by this core"]).
Proof.
  intros s.
  destruct (state_transfer_unsupported_is_reported s bareEngine eq_refl) as [H1 H2].
  split.
  - apply H1. reflexivity.
  - apply H2. reflexivity.
Defined.

(** ** Archive ingestion *)

Section Ingestion.
Import Engine Eff Session.

Lemma findRom_skips (before rest : list (string * zipEntry)) :
  forallb (fun kv => negb (isCandidate kv)) before = true ->
  findRom (before ++ rest) = findRom rest.
Proof.
  induction before as [|[fn file] r IH]; [reflexivity|].
  cbn [forallb app findRom]. intros H. apply andb_true_iff in H as [Hc Hr].
  unfold isCandidate in Hc. cbn [fst snd] in Hc.
  apply negb_true_iff in Hc. rewrite Hc. auto.
Qed.

(** The scan yields the first accepted entry, in enumeration order. *)
Lemma findRom_first_candidate (before after : list (string * zipEntry))
    (fn : string) (file : zipEntry) (bytes : string) :
  forallb (fun kv => negb (isCandidate kv)) before = true ->
  isCandidate (fn, file) = true ->
  data file = Returned bytes ->
  findRom (before ++ (fn, file) :: after) = Returned (Some (mkFile fn bytes)).
Proof.
  intros Hb Hc Hd. rewrite findRom_skips by assumption.
  cbn [findRom]. unfold isCandidate in Hc. cbn [fst snd] in Hc.
  now rewrite Hc, Hd.
Qed.

Lemma findRom_found (entries : list (string * zipEntry)) (rom : File) :
  findRom entries = Returned (Some rom) ->
  exists before file after,
    entries = before ++ (name rom, file) :: after /\
    forallb (fun kv => negb (isCandidate kv)) before = true /\
    isCandidate (name rom, file) = true /\
    data file = Returned (content rom).
Proof.
  induction entries as [|[fn file] r IH]; [discriminate|].
  cbn [findRom]. destruct (isCandidate (fn, file)) eqn:Hc;
    unfold isCandidate in Hc; cbn [fst snd] in Hc; rewrite Hc.
  - destruct (data file) as [bytes|e] eqn:Hd; [|discriminate].
    intros [= <-]. exists [], file, r. cbn [name content app forallb].
    unfold isCandidate. cbn [fst snd]. now rewrite Hc.
  - intros H. destruct (IH H) as (before & file' & after & -> & Hb & Hc' & Hd).
    exists ((fn, file) :: before), file', after.
    cbn [app forallb]. unfold isCandidate at 1. cbn [fst snd].
    rewrite Hc. now repeat split.
Qed.

Lemma findRom_none (entries : list (string * zipEntry)) :
  findRom entries = Returned None <->
  forallb (fun kv => negb (isCandidate kv)) entries = true.
Proof.
  induction entries as [|[fn file] r IH]; [now split|].
  cbn [findRom forallb]. unfold isCandidate at 1. cbn [fst snd].
  destruct (negb (dir file) && JS.includes allRomExtensions (entryExtension fn)).
  - cbn [negb andb]. split; [|discriminate].
    now destruct (data file).
  - cbn [negb andb]. exact IH.
Qed.

Variable isMobile : bool.
Variable loadAsync : File -> archive.

(** An archive without an accepted entry: the selection ends in the error
    state with the no-ROM message, starts no launch and makes no outward
    call; the engine ref is left alone. *)
Lemma onRomSelected_archive_without_rom (f : File) (s : state)
    (entries : list (string * zipEntry)) :
  JS.endsWith (JS.toLowerCase (name f)) ".zip" = true ->
  loadAsync f = Archive entries ->
  forallb (fun kv => negb (isCandidate kv)) entries = true ->
  let r := onRomSelected isMobile loadAsync (Some f) s in
  result_of r = Returned None /\
  trace_of r = [] /\
  status (state_of r) = error /\
  errorMessage (state_of r)
  = Some "Failed to extract ROM from ZIP: No valid ROM file found in ZIP archive" /\
  nostalgistRef (state_of r) = nostalgistRef s.
Proof.
  intros Hzip Hload Hnone. apply findRom_none in Hnone.
  unfold onRomSelected, extractRomFromZip. rewrite Hzip, Hload, Hnone.
  cbv -[ConsoleProfileTable.detectConsoleFromFile]. repeat split.
Qed.

(** An archive with an accepted entry: the first one is launched, with the
    core its own name is detected as. *)
Lemma onRomSelected_archive_first_rom (f : File) (s : state)
    (before after : list (string * zipEntry)) (fn : string)
    (file : zipEntry) (bytes : string) :
  JS.endsWith (JS.toLowerCase (name f)) ".zip" = true ->
  loadAsync f = Archive (before ++ (fn, file) :: after) ->
  forallb (fun kv => negb (isCandidate kv)) before = true ->
  isCandidate (fn, file) = true ->
  data file = Returned bytes ->
  exists cfg,
    result_of (onRomSelected isMobile loadAsync (Some f) s) = Returned (Some cfg) /\
    cfg_rom cfg = mkFile fn bytes /\
    trace_of (onRomSelected isMobile loadAsync (Some f) s) = [LaunchCall cfg] /\
    core (state_of (onRomSelected isMobile loadAsync (Some f) s))
    = ConsoleProfileTable.core_of (ConsoleProfileTable.detectConsoleFromFile fn).
Proof.
  intros Hzip Hload Hb Hc Hd.
  unfold onRomSelected, extractRomFromZip.
  rewrite Hzip, Hload, (findRom_first_candidate _ _ _ _ _ Hb Hc Hd).
  eexists. cbv -[ConsoleProfileTable.detectConsoleFromFile JS.truthyStr].
  repeat split.
Qed.

End Ingestion.

(** The dotted extensions some profile lists and the scan does not accept. *)
Lemma extensions_missing_from_scan :
  List.filter (fun e => negb (JS.includes Session.allRomExtensions e))
              (List.flat_map ConsoleProfileTable.aliasSet
                             ConsoleProfileTable.tableProfiles)
  = [".ccd"] /\
  forallb DesignDoc.knownExtensionUniverse Session.allRomExtensions = true.
Proof. split; vm_compute; reflexivity. Qed.

(** C4: an archive whose only file is [game.ccd].  [.ccd] is in the alias
    set of the Saturn profile, is a key of the detection table and would be
    detected as core yabause, yet the scan does not accept it and ingestion
    fails with the no-ROM error; with a second entry [game.sfc] behind it,
    the scan passes over [game.ccd] and takes [game.sfc]. *)
Theorem archive_scan_misses_ccd :
  let ccd := ("game.ccd", Engine.mkEntry false (Eff.Returned "saturn")) in
  let sfc := ("game.sfc", Engine.mkEntry false (Eff.Returned "snes")) in
  DesignDoc.knownExtensionUniverse ".ccd" = true /\
  ConsoleProfileTable.core_of (ConsoleProfileTable.detectConsoleFromFile "game.ccd")
  = Some "yabause" /\
  Session.extractRomFromZip (fun _ => Engine.Archive [ccd])
                            (Engine.mkFile "games.zip" "")
  = Eff.Raised (JS.Error "No valid ROM file found in ZIP archive") /\
  Session.extractRomFromZip (fun _ => Engine.Archive [ccd; sfc])
                            (Engine.mkFile "games.zip" "")
  = Eff.Returned (Engine.mkFile "game.sfc" "snes").
Proof. repeat split. Qed.

(** ** Launch and the engine handle *)

Section Launch.
Import Engine Eff Session.
Variable isMobile : bool.
Variable loadAsync : File -> archive.

(** Handlers other than the unmount cleanup leave the ref alone unless a
    launch settles, and never call [exit]. *)
Lemma begin_keeps_ref (file : option File) (dc : option string) (s : state) :
  nostalgistRef (state_of (launchWithRomFile_begin isMobile file dc s))
  = nostalgistRef s /\
  existsb isExit (trace_of (launchWithRomFile_begin isMobile file dc s)) = false.
Proof. destruct file; split; reflexivity. Qed.

Lemma onRomSelected_keeps_ref (f : option File) (s : state) :
  nostalgistRef (state_of (onRomSelected isMobile loadAsync f s)) = nostalgistRef s /\
  existsb isExit (trace_of (onRomSelected isMobile loadAsync f s)) = false.
Proof.
  destruct f as [f|]; [|split; reflexivity].
  unfold onRomSelected, extractRomFromZip.
  destruct (JS.endsWith (JS.toLowerCase (name f)) ".zip"); [|split; reflexivity].
  destruct (loadAsync f) as [e|files]; [split; reflexivity|].
  destruct (findRom files) as [[rom|]|[e| |]]; split; reflexivity.
Qed.

Lemma saveState_keeps_state (s : state) :
  state_of (saveState s) = s /\
  existsb isExit (trace_of (saveState s)) = false.
Proof.
  unfold saveState, bind, get.
  destruct (nostalgistRef s) as [n|]; [|split; reflexivity].
  destruct (Engine.saveState (caps n)) as [[[b|b|b|t]|[e| |]]|];
    split; reflexivity.
Qed.

Lemma loadState_keeps_state (f : option File) (s : state) :
  state_of (onLoadStateFile f s) = s /\
  existsb isExit (trace_of (onLoadStateFile f s)) = false.
Proof.
  destruct f as [f|]; [|split; reflexivity].
  unfold onLoadStateFile, bind, get.
  destruct (nostalgistRef s) as [n|]; [|split; reflexivity].
  destruct (loadState (caps n)) as [ld|]; [|split; reflexivity].
  unfold try_catch, callLoadState, bind, emit, ret, throw.
  destruct (ld (AsFile f)); [|split; reflexivity].
  destruct (ld (AsArrayBuffer (content f))) as [[e| |]|]; split; reflexivity.
Qed.

Lemma step_neverReleased (w : world) (ev : event) :
  staysMounted ev = true ->
  neverReleased w -> neverReleased (step isMobile loadAsync w ev).
Proof.
  intros Hev (Hlive & Href & Hlog). unfold neverReleased.
  destruct ev as [f|file dc|[c|err]| |f|]; try discriminate; cbn [step].
  - pose proof (onRomSelected_keeps_ref f (comp w)) as [Hr Ht].
    unfold state_of, trace_of in Hr, Ht.
    destruct (onRomSelected isMobile loadAsync f (comp w)) as [[r s] t].
    cbn [fst snd] in Hr, Ht. cbn [live nextId comp log].
    rewrite existsb_app, Hlog, Ht, Hr. auto.
  - pose proof (begin_keeps_ref file dc (comp w)) as [Hr Ht].
    unfold state_of, trace_of in Hr, Ht.
    destruct (launchWithRomFile_begin isMobile file dc (comp w)) as [[r s] t].
    cbn [fst snd] in Hr, Ht. cbn [live nextId comp log].
    rewrite existsb_app, Hlog, Ht, Hr. auto.
  - destruct (inFlight w) as [|cfg rest]; [now repeat split|].
    cbn. rewrite existsb_app, Hlog. repeat split; try reflexivity.
    change (List.rev (List.seq 1 (nextId w)) ++ [0%nat])
      with (List.rev (List.seq 0 (S (nextId w)))).
    rewrite Hlive, List.seq_S, List.rev_app_distr. reflexivity.
  - destruct (inFlight w) as [|cfg rest]; [now repeat split|].
    cbn. rewrite existsb_app, Hlog. now repeat split.
  - pose proof (saveState_keeps_state (comp w)) as [Hs Ht].
    unfold state_of, trace_of in Hs, Ht.
    destruct (saveState (comp w)) as [[r s] t].
    cbn [fst snd] in Hs, Ht. subst s. cbn [live nextId comp log].
    rewrite existsb_app, Hlog, Ht. auto.
  - pose proof (loadState_keeps_state f (comp w)) as [Hs Ht].
    unfold state_of, trace_of in Hs, Ht.
    destruct (onLoadStateFile f (comp w)) as [[r s] t].
    cbn [fst snd] in Hs, Ht. subst s. cbn [live nextId comp log].
    rewrite existsb_app, Hlog, Ht. auto.
Qed.

Lemma run_neverReleased (evs : list event) (w : world) :
  forallb staysMounted evs = true ->
  neverReleased w -> neverReleased (run isMobile loadAsync w evs).
Proof.
  revert w. induction evs as [|ev r IH]; intros w Hevs Hw; [exact Hw|].
  cbn [forallb] in Hevs. apply andb_true_iff in Hevs as [Hev Hr].
  cbn [run fold_left]. apply IH; [assumption|].
  now apply step_neverReleased.
Qed.

End Launch.

(** C1, as the document states it, fails: two selections of a ROM in a row
    leave two launches in flight. *)
Lemma launch_is_not_single_flight :
  ~ DesignDoc.singleHandle false (fun _ => Engine.NotAnArchive (JS.Error "not a zip")).
Proof.
  intros H.
  pose (rom := Some (Engine.mkFile "game.sfc" "")).
  specialize (H [ Session.RomSelected rom; Session.RomSelected rom ]).
  destruct H as [H _]. vm_compute in H. lia.
Qed.

(** C1 (amended): a launch is not guarded by the status.  In every status
    a request with a file sets the status to [loading] and starts an engine
    launch, which joins the launches already in flight: a request, and the
    selection of a ROM that is not an archive, leave one more launch in
    flight than before, so that any number of requests in a row leaves that
    many launches more in flight.  A launch that succeeds stores its handle
    in the ref and sets the status to [running]. *)
Theorem launch_is_unguarded
    (isMobile : bool) (loadAsync : Engine.File -> Engine.archive) :
  (forall (s : Session.state) (f : Engine.File) (dc : option string),
      let r := Session.launchWithRomFile_begin isMobile (Some f) dc s in
      Session.status (Eff.state_of r) = Session.loading /\
      exists cfg, Eff.result_of r = Eff.Returned (Some cfg) /\
                  In (Engine.LaunchCall cfg) (Eff.trace_of r) /\
                  Engine.cfg_rom cfg = f) /\
  (forall (w : Session.world) (f : Engine.File) (dc : option string),
      let w' := Session.step isMobile loadAsync w
                  (Session.LaunchRequested (Some f) dc) in
      Session.status (Session.comp w') = Session.loading /\
      List.length (Session.inFlight w') = S (List.length (Session.inFlight w))) /\
  (forall (w : Session.world) (f : Engine.File),
      JS.endsWith (JS.toLowerCase (Engine.name f)) ".zip" = false ->
      let w' := Session.step isMobile loadAsync w
                  (Session.RomSelected (Some f)) in
      Session.status (Session.comp w') = Session.loading /\
      List.length (Session.inFlight w') = S (List.length (Session.inFlight w))) /\
  (forall (w : Session.world) (reqs : list (Engine.File * option string)),
      List.length
        (Session.inFlight
           (Session.run isMobile loadAsync w
              (List.map (fun r => Session.LaunchRequested (Some (fst r)) (snd r))
                        reqs)))
      = (List.length (Session.inFlight w) + List.length reqs)%nat) /\
  (forall (s : Session.state) (e : Engine.engine),
      let r := Session.launchWithRomFile_resume (Session.Launched e) s in
      Session.status (Eff.state_of r) = Session.running /\
      Session.nostalgistRef (Eff.state_of r) = Some e).
Proof.
  assert (Hreq : forall (w : Session.world) (f : Engine.File) (dc : option string),
             let w' := Session.step isMobile loadAsync w
                         (Session.LaunchRequested (Some f) dc) in
             Session.status (Session.comp w') = Session.loading /\
             List.length (Session.inFlight w')
             = S (List.length (Session.inFlight w))).
  { intros w f dc. cbn. rewrite List.length_app. cbn. split; [reflexivity|lia]. }
  split; [|split; [|split; [|split]]].
  - intros s f dc. cbn. split; [reflexivity|].
    eexists. split; [reflexivity|]. split; [left; reflexivity|reflexivity].
  - exact Hreq.
  - intros w f Hzip. cbn [Session.step Session.onRomSelected].
    unfold Eff.bind at 1. unfold Eff.get at 1. cbn beta iota.
    rewrite Hzip. cbn. rewrite List.length_app. cbn. split; [reflexivity|lia].
  - intros w reqs. revert w.
    induction reqs as [|[f dc] r IH]; intros w; [cbn; lia|].
    cbn [List.map fst snd Session.run fold_left List.length].
    change (fold_left (Session.step isMobile loadAsync) ?l ?x)
      with (Session.run isMobile loadAsync x l).
    rewrite IH. destruct (Hreq w f dc) as [_ ->]. lia.
  - intros s e. cbn. split; reflexivity.
Qed.

Lemma launch_is_unguarded_witness :
  let f := Engine.mkFile "game.sfc" "" in
  let w' := Session.step false (fun _ => Engine.NotAnArchive (JS.Error "not a zip"))
              (Session.step false
                 (fun _ => Engine.NotAnArchive (JS.Error "not a zip"))
                 Session.mounted (Session.RomSelected (Some f)))
              (Session.RomSelected (Some f)) in
  Session.status (Session.comp w') = Session.loading /\
  List.length (Session.inFlight w') = 2%nat.
Proof.
  intros f.
  destruct (launch_is_unguarded false
              (fun _ => Engine.NotAnArchive (JS.Error "not a zip")))
    as (_ & _ & Hsel & _).
  apply (Hsel (Session.step false
                 (fun _ => Engine.NotAnArchive (JS.Error "not a zip"))
                 Session.mounted (Session.RomSelected (Some f))) f).
  reflexivity.
Defined.

(** What the code does with the handles themselves.  The launch path never
    calls [exit]: while the component is mounted every engine created so
    far is live and the ref names the newest one.  The cleanup on unmount
    calls [exit] on the handle the ref holds. *)
Lemma handles_while_mounted
    (isMobile : bool) (loadAsync : Engine.File -> Engine.archive) :
  (forall evs : list Session.event,
      forallb staysMounted evs = true ->
      neverReleased (Session.run isMobile loadAsync Session.mounted evs)) /\
  (forall s : Session.state,
      Eff.trace_of (Session.teardown s)
      = match Session.nostalgistRef s with
        | Some n => match Engine.exit (Engine.caps n) with
                    | Some _ => [Engine.EngineCall (Engine.eid n) Engine.ExitCall]
                    | None => []
                    end
        | None => []
        end).
Proof.
  split.
  - intros evs Hevs. apply run_neverReleased; [assumption|].
    repeat split.
  - intros s. unfold Session.teardown, Eff.bind, Eff.get.
    destruct (Session.nostalgistRef s) as [n|]; [|reflexivity].
    destruct (Engine.exit (Engine.caps n)) as [[e|]|]; reflexivity.
Qed.

(** After two launches the unmount cleanup exits the engine the ref holds;
    the engine of the first launch is not exited. *)
Example unmount_exits_newest_engine_only :
  let rom := Some (Engine.mkFile "game.sfc" "") in
  let c := Engine.mkCaps true true true None None (Some None) in
  let w := Session.run false (fun _ => Engine.NotAnArchive (JS.Error "not a zip"))
             Session.mounted
             [ Session.RomSelected rom; Session.LaunchSettles (inl c);
               Session.RomSelected rom; Session.LaunchSettles (inl c);
               Session.Unmounted ] in
  Session.live w = [0%nat] /\
  Session.nostalgistRef (Session.comp w) = None /\
  List.filter isExit (Session.log w) = [Engine.EngineCall 1 Engine.ExitCall].
Proof. repeat split. Qed.

(** ** On-screen controls *)

Section Virtual.
Import Engine Eff VirtualControls.


Lemma setActive_other_player (ab : list (string * list (string * bool)))
    (p b q : string) (v : bool) :
  q <> p -> JS.get (setActive p b v ab) q = JS.get ab q.
Proof.
  intros H. unfold setActive. rewrite get_set.
  destruct (String.eqb_spec q p); [contradiction|reflexivity].
Qed.

Lemma zoneOf_direction (xr yr : float) (d : string) :
  zoneOf xr yr = Some d -> In d directions.
Proof.
  unfold zoneOf, directions.
  destruct (yr <? _)%float; [intros [= <-]; simpl; tauto|].
  destruct (_ <? yr)%float; [intros [= <-]; simpl; tauto|].
  destruct (xr <? _)%float; [intros [= <-]; simpl; tauto|].
  destruct (_ <? xr)%float; [intros [= <-]; simpl; tauto|discriminate].
Qed.

Lemma newDirectionOf_direction (e : domEvent) (d : string) :
  newDirectionOf e = Some d -> In d directions.
Proof.
  unfold newDirectionOf. destruct (contactPoint e). apply zoneOf_direction.
Qed.

Lemma direction_eqb_eq (a b : option string) :
  direction_eqb a b = true <-> a = b.
Proof.
  destruct a, b; cbn; try (split; congruence).
  rewrite String.eqb_eq. split; congruence.
Qed.

End Virtual.

Section Pad.
Import Engine Eff VirtualControls.
Variable ref : option engine.

Lemma press_run (b : string) (s : state) :
  handleVirtualPress ref b None s
  = (Returned tt,
     mkState (afterPress (Some b) (activeButtons s)) (activeDpadDirection s),
     pressCalls ref (Some b)).
Proof.
  unfold handleVirtualPress, pressCalls.
  destruct ref as [n|];
    [destruct (has_pressDown (caps n)), (has_press (caps n))|]; reflexivity.
Qed.

Lemma release_run (b : string) (s : state) :
  handleVirtualRelease ref b None s
  = (Returned tt,
     mkState (afterRelease (Some b) (activeButtons s)) (activeDpadDirection s),
     releaseCalls ref (Some b)).
Proof.
  unfold handleVirtualRelease, releaseCalls.
  destruct ref as [n|]; [destruct (has_pressUp (caps n))|]; reflexivity.
Qed.

Lemma calls_none :
  releaseCalls ref None = [] /\ pressCalls ref None = [].
Proof. unfold releaseCalls, pressCalls. now destruct ref. Qed.

Lemma move_run (e : domEvent) (s : state) :
  handleDpadMove ref e s
  = if direction_eqb (newDirectionOf e) (activeDpadDirection s)
    then (Returned tt, s, [])
    else (Returned tt,
          mkState (afterPress (newDirectionOf e)
                     (afterRelease (activeDpadDirection s) (activeButtons s)))
                  (newDirectionOf e),
          releaseCalls ref (activeDpadDirection s)
          ++ pressCalls ref (newDirectionOf e)).
Proof.
  destruct calls_none as [Hr Hp].
  unfold handleDpadMove, bind, get.
  destruct (direction_eqb (newDirectionOf e) (activeDpadDirection s));
    [reflexivity|]. cbn [negb].
  destruct (activeDpadDirection s) as [old|] eqn:Hold.
  - rewrite release_run. cbn [activeButtons activeDpadDirection].
    destruct (newDirectionOf e) as [new|].
    + rewrite press_run. cbn. now rewrite app_nil_r.
    + cbn. now rewrite Hp.
  - cbn [ret]. destruct (newDirectionOf e) as [new|].
    + rewrite press_run. cbn. now rewrite Hr, app_nil_r.
    + cbn. now rewrite Hr, Hp.
Qed.

Lemma end_run (s : state) :
  handleDpadEnd ref s
  = match activeDpadDirection s with
    | Some old =>
        (Returned tt,
         mkState (afterRelease (Some old) (activeButtons s)) None,
         releaseCalls ref (Some old))
    | None => (Returned tt, s, [])
    end.
Proof.
  unfold handleDpadEnd, bind, get.
  destruct (activeDpadDirection s) as [old|]; [|reflexivity].
  rewrite release_run. cbn. now rewrite app_nil_r.
Qed.

(** Every on-screen event returns normally and is one of the five cases
    of [transition]. *)
Lemma handle_transition (ev : uiEvent) (s : state) :
  exists o n d,
    transition s o n d /\
    handle ref ev s
    = (Returned tt,
       mkState (afterPress n (afterRelease o (activeButtons s))) d,
       releaseCalls ref o ++ pressCalls ref n).
Proof.
  destruct calls_none as [Hr Hp].
  assert (Hmove : forall e, exists o n d,
             transition s o n d /\
             handleDpadMove ref e s
             = (Returned tt,
                mkState (afterPress n (afterRelease o (activeButtons s))) d,
                releaseCalls ref o ++ pressCalls ref n)).
  { intros e. rewrite move_run.
    destruct (direction_eqb (newDirectionOf e) (activeDpadDirection s)) eqn:E.
    - exists None, None, (activeDpadDirection s). split; [constructor|].
      rewrite Hr, Hp. now destruct s.
    - exists (activeDpadDirection s), (newDirectionOf e), (newDirectionOf e).
      split; [|reflexivity]. constructor.
      + intros H. apply direction_eqb_eq in H. congruence.
      + intros d. apply newDirectionOf_direction. }
  assert (Hend : exists o n d,
             transition s o n d /\
             handleDpadEnd ref s
             = (Returned tt,
                mkState (afterPress n (afterRelease o (activeButtons s))) d,
                releaseCalls ref o ++ pressCalls ref n)).
  { rewrite end_run. destruct (activeDpadDirection s) as [old|] eqn:Hold.
    - exists (Some old), None, None. split; [now constructor|].
      now rewrite Hp, app_nil_r.
    - exists None, None, (activeDpadDirection s). split; [constructor|].
      rewrite Hr, Hp, Hold. destruct s; cbn in *. now subst. }
  destruct ev as [e|e| | | |e|e| | |b|b|b|b]; cbn [handle handleDpadStart];
    try apply Hmove; try apply Hend.
  - exists None, (Some (nameOf b)), (activeDpadDirection s).
    split; [constructor|]. now rewrite press_run, Hr.
  - exists (Some (nameOf b)), None, (activeDpadDirection s).
    split; [constructor|]. now rewrite release_run, Hp, app_nil_r.
  - exists None, (Some (nameOf b)), (activeDpadDirection s).
    split; [constructor|]. now rewrite press_run, Hr.
  - exists (Some (nameOf b)), None, (activeDpadDirection s).
    split; [constructor|]. now rewrite release_run, Hp, app_nil_r.
Qed.

Lemma handleAll_cons (ev : uiEvent) (evs : list uiEvent) (s : state) :
  handleAll ref (ev :: evs) s
  = (result_of (handleAll ref evs (state_of (handle ref ev s))),
     state_of (handleAll ref evs (state_of (handle ref ev s))),
     trace_of (handle ref ev s)
     ++ trace_of (handleAll ref evs (state_of (handle ref ev s)))).
Proof.
  destruct (handle_transition ev s) as (o & n & d & _ & H).
  unfold handleAll. cbn [for_each]. unfold bind at 1. rewrite H.
  unfold state_of, trace_of, result_of. cbn [fst snd].
  now destruct (for_each evs (handle ref) _) as [[r s'] t].
Qed.

Lemma handleAll_step (ev : uiEvent) (evs : list uiEvent) (s s1 : state)
    (t1 : list effect) :
  handle ref ev s = (Returned tt, s1, t1) ->
  state_of (handleAll ref (ev :: evs) s) = state_of (handleAll ref evs s1) /\
  trace_of (handleAll ref (ev :: evs) s) = t1 ++ trace_of (handleAll ref evs s1).
Proof. intros H. rewrite handleAll_cons, H. now split. Qed.

Lemma handleAll_returns (evs : list uiEvent) (s : state) :
  result_of (handleAll ref evs s) = Returned tt.
Proof.
  revert s. induction evs as [|ev r IH]; intros s; [reflexivity|].
  rewrite handleAll_cons. apply IH.
Qed.

End Pad.

Section PadInvariants.
Import Engine Eff VirtualControls.
Variable ref : option engine.



Lemma direction_is_button (x : string) : In x directions -> In x BUTTONS.
Proof. unfold directions, BUTTONS. cbn [In]. tauto. Qed.

Lemma nameOf_is_button (b : onscreenButton) : In (nameOf b) BUTTONS.
Proof. destruct b; unfold BUTTONS; cbn [In nameOf]; tauto. Qed.



(** One event addresses player 1 only. *)
Lemma transition_player1 (s : state) (o n d : option string) :
  transition s o n d ->
  (forall x, activeDpadDirection s = Some x -> In x directions) ->
  forallb forPlayer1 (releaseCalls ref o ++ pressCalls ref n) = true /\
  (forall q, q <> "p1" ->
             JS.get (afterPress n (afterRelease o (activeButtons s))) q
             = JS.get (activeButtons s) q) /\
  (forall x, d = Some x -> In x directions).
Proof.
  intros T Hdir.
  assert (Ho : forall x, o = Some x -> In x BUTTONS).
  { intros x ->. inversion T as [ | new Hne Hnew | old Hold | b | b]; subst.
    - apply direction_is_button, Hdir. congruence.
    - apply direction_is_button, Hdir. congruence.
    - apply nameOf_is_button. }
  assert (Hn : forall x, n = Some x -> In x BUTTONS).
  { intros x ->. inversion T as [ | new Hne Hnew | old Hold | b | b]; subst.
    - apply direction_is_button. auto.
    - apply nameOf_is_button. }
  split; [|split].
  - rewrite forallb_app. apply andb_true_iff. split.
    + unfold releaseCalls. destruct ref as [e|]; [|reflexivity].
      destruct o as [x|]; [|reflexivity].
      destruct (has_pressUp (caps e)); [|reflexivity].
      cbn [forallb forPlayer1]. rewrite andb_true_r. apply includes_In. auto.
    + unfold pressCalls. destruct ref as [e|]; [|reflexivity].
      destruct n as [x|]; [|reflexivity].
      destruct (has_pressDown (caps e)); [|destruct (has_press (caps e))];
        try reflexivity; cbn [forallb forPlayer1]; rewrite andb_true_r;
        apply includes_In; auto.
  - intros q Hq. destruct n, o; cbn [afterPress afterRelease];
      rewrite ?setActive_other_player by assumption; reflexivity.
  - intros x ->. inversion T as [ | new Hne Hnew | old Hold | b | b];
      subst; auto; try discriminate.
Qed.

End PadInvariants.

Lemma Qltb_lt (a b : Q) : JS.Qltb a b = true <-> (a < b)%Q.
Proof.
  unfold JS.Qltb. rewrite negb_true_iff. split.
  - intros H. apply Qnot_le_lt. intros Hle.
    apply Qle_bool_iff in Hle. congruence.
  - intros H. destruct (Qle_bool b a) eqn:E; [|reflexivity].
    apply Qle_bool_iff in E. now apply Qlt_not_le in H.
Qed.

Lemma Qltb_ge (a b : Q) : JS.Qltb a b = false <-> (b <= a)%Q.
Proof.
  unfold JS.Qltb. rewrite negb_false_iff. apply Qle_bool_iff.
Qed.


Section PadRuns.
Import Engine Eff VirtualControls.
Variable ref : option engine.




Lemma handleAll_player1 (evs : list uiEvent) (s : state) :
  (forall x, activeDpadDirection s = Some x -> In x directions) ->
  forallb forPlayer1 (trace_of (handleAll ref evs s)) = true /\
  (forall q, q <> "p1" ->
     JS.get (activeButtons (state_of (handleAll ref evs s))) q
     = JS.get (activeButtons s) q).
Proof.
  revert s. induction evs as [|ev r IH]; intros s Hs; [now split|].
  destruct (handle_transition ref ev s) as (o & n & d & T & H).
  destruct (handleAll_step ref ev r s _ _ H) as [Es Et]. rewrite Es, Et.
  destruct (transition_player1 ref s o n d T Hs) as (Ht & Hq & Hd).
  destruct (IH (mkState (afterPress n (afterRelease o (activeButtons s))) d) Hd)
    as [IH1 IH2].
  split.
  - rewrite forallb_app, Ht. exact IH1.
  - intros q Hne. rewrite (IH2 q Hne). cbn [activeButtons]. now apply Hq.
Qed.

End PadRuns.


Example dpad_row_133_of_400 :
  VirtualControls.newDirectionOf
    (VirtualControls.mkEvent
       (VirtualControls.mkRect 0 0 400 400) None (Some 200%float) (Some 133%float))
  = None.
Proof. reflexivity. Qed.




(** C10: every on-screen control calls the press and release helpers
    without a player, which therefore is [p1].  Whatever sequence of
    on-screen events is handled, every call made on the engine is a press or
    release of a bare logical button name (none carries the [P2_] prefix of
    player 2), and the pressed flags of any player other than [p1] stay as
    they were. *)
Theorem onscreen_controls_drive_player1_only
    (ref : option Engine.engine) (evs : list VirtualControls.uiEvent)
    (s : VirtualControls.state) :
  (forall x, VirtualControls.activeDpadDirection s = Some x ->
             In x VirtualControls.directions) ->
  let r := VirtualControls.handleAll ref evs s in
  Eff.result_of r = Eff.Returned tt /\
  forallb forPlayer1 (Eff.trace_of r) = true /\
  (forall q, q <> "p1" ->
     JS.get (VirtualControls.activeButtons (Eff.state_of r)) q
     = JS.get (VirtualControls.activeButtons s) q) /\
  forallb (fun b => negb (JS.startsWith b "P2_")
                    && String.eqb (InputMapping.toCoreId b (Some 1%Z)) b
                    && String.eqb (InputMapping.toCoreId b None) b) BUTTONS = true.
Proof.
  intros Hs r. subst r.
  destruct (handleAll_player1 ref evs s Hs) as [Ht Hq].
  split; [apply handleAll_returns|].
  split; [exact Ht|]. split; [exact Hq|reflexivity].
Qed.

Lemma onscreen_controls_drive_player1_only_witness :
  let n0 := Engine.mkEngine 7 (Engine.mkCaps true true true None None None) in
  let r := VirtualControls.handleAll (Some n0)
             [ VirtualControls.ButtonPointerDown VirtualControls.BtnA;
               VirtualControls.ButtonTouchEnd VirtualControls.BtnA;
               VirtualControls.DpadTouchCancel ]
             VirtualControls.initial in
  forallb forPlayer1 (Eff.trace_of r) = true /\
  JS.get (VirtualControls.activeButtons (Eff.state_of r)) "p2" = Some [].
Proof.
  intros n0 r.
  assert (H0 : forall x,
             VirtualControls.activeDpadDirection VirtualControls.initial = Some x ->
             In x VirtualControls.directions) by discriminate.
  destruct (onscreen_controls_drive_player1_only (Some n0)
              [ VirtualControls.ButtonPointerDown VirtualControls.BtnA;
                VirtualControls.ButtonTouchEnd VirtualControls.BtnA;
                VirtualControls.DpadTouchCancel ]
              VirtualControls.initial H0) as (_ & Ht & Hq & _).
  split; [exact Ht|].
  fold r in Hq. rewrite (Hq "p2"); [reflexivity|discriminate].
Defined.

(** ** Gamepad polling *)

Section PadState.
Import Eff Gamepad.

Lemma wasPressed_setPressed (st : gamepadState) (i idx i' idx' : nat) (v : bool) :
  wasPressed (setPressed i idx v st) i' idx'
  = if decide (i' = i /\ idx' = idx) then v else wasPressed st i' idx'.
Proof.
  unfold wasPressed, setPressed. cbn [st_buttons].
  destruct (decide (i' = i)) as [->|Hi].
  - rewrite lookup_insert_eq. cbn [from_option id].
    destruct (decide (idx' = idx)) as [->|Hx].
    + rewrite lookup_insert_eq. now rewrite decide_True by done.
    + rewrite lookup_insert_ne by done. rewrite decide_False by tauto.
      reflexivity.
  - rewrite lookup_insert_ne by done. rewrite decide_False by tauto.
    reflexivity.
Qed.

Lemma axesOf_setPressed (st : gamepadState) (i idx j : nat) (v : bool) :
  axesOf (setPressed i idx v st) j = axesOf st j.
Proof. reflexivity. Qed.

Lemma wasPressed_setAxes (st : gamepadState) (i j idx : nat)
    (f : axisState -> axisState) :
  wasPressed (setAxes i f st) j idx = wasPressed st j idx.
Proof. reflexivity. Qed.

Lemma axesOf_setAxes (st : gamepadState) (i j : nat) (f : axisState -> axisState) :
  axesOf (setAxes i f st) j = if decide (j = i) then f (axesOf st i) else axesOf st j.
Proof.
  unfold axesOf at 1, setAxes. cbn [st_axes].
  destruct (decide (j = i)) as [->|H].
  - now rewrite lookup_insert_eq.
  - now rewrite lookup_insert_ne by done.
Qed.

Lemma onChange_run (c p : string) (now was : bool) (st : gamepadState) :
  onChange c p now was st = (Returned tt, st, edgeEvents c p now was).
Proof. destruct now, was; reflexivity. Qed.

End PadState.

Section PadPolling.
Import Eff Gamepad.

Lemma processButton_run (i : nat) (p : string) (btn : button) (idx : nat)
    (st : gamepadState) :
  processButton i p btn idx st
  = (Returned tt,
     match GAMEPAD_MAPPING idx with
     | Some _ => setPressed i idx (isPressed btn) st
     | None => st
     end,
     match GAMEPAD_MAPPING idx with
     | Some c => edgeEvents c p (isPressed btn) (wasPressed st i idx)
     | None => []
     end).
Proof.
  unfold processButton. destruct (GAMEPAD_MAPPING idx) as [c|]; [|reflexivity].
  unfold bind, get. rewrite onChange_run. cbn. now rewrite app_nil_r.
Qed.

Lemma buttonEdgesFrom_cons (k i : nat) (p : string) (st : gamepadState)
    (b : button) (r : list button) :
  buttonEdgesFrom k i p st (b :: r)
  = match GAMEPAD_MAPPING k with
    | Some c => edgeEvents c p (isPressed b) (wasPressed st i k)
    | None => []
    end ++ buttonEdgesFrom (S k) i p st r.
Proof. reflexivity. Qed.

Lemma buttonEdgesFrom_ext (btns : list button) (k i : nat) (p : string)
    (st1 st2 : gamepadState) :
  (forall idx, k <= idx -> wasPressed st1 i idx = wasPressed st2 i idx) ->
  buttonEdgesFrom k i p st1 btns = buttonEdgesFrom k i p st2 btns.
Proof.
  revert k. induction btns as [|b r IH]; intros k H; [reflexivity|].
  rewrite !buttonEdgesFrom_cons, (H k) by lia.
  f_equal. apply IH. intros idx Hidx. apply H. lia.
Qed.

Lemma forEachFrom_run (btns : list button) (k i : nat) (p : string)
    (st : gamepadState) :
  exists st',
    forEachFrom k btns (processButton i p) st
    = (Returned tt, st', buttonEdgesFrom k i p st btns) /\
    buttonsSampled k i btns st st'.
Proof.
  revert k st. induction btns as [|b r IH]; intros k st.
  - exists st. split; [reflexivity|]. repeat split; try reflexivity.
    intros [|off] btn; discriminate.
  - set (st1 := match GAMEPAD_MAPPING k with
                | Some _ => setPressed i k (isPressed b) st
                | None => st
                end).
    assert (Hst1 : forall j idx,
               wasPressed st1 j idx
               = if decide (j = i /\ idx = k)
                 then match GAMEPAD_MAPPING k with
                      | Some _ => isPressed b
                      | None => wasPressed st j idx
                      end
                 else wasPressed st j idx).
    { intros j idx. subst st1. destruct (GAMEPAD_MAPPING k).
      - apply wasPressed_setPressed.
      - now destruct (decide _). }
    assert (Hax1 : forall j, axesOf st1 j = axesOf st j).
    { intros j. subst st1. now destruct (GAMEPAD_MAPPING k). }
    destruct (IH (S k) st1) as (st' & Hrun & Ha & Hj & Hlt & Hge & Hnth).
    exists st'. split.
    + cbn [forEachFrom]. unfold bind. rewrite processButton_run.
      fold st1. rewrite Hrun. rewrite buttonEdgesFrom_cons.
      do 2 f_equal. apply buttonEdgesFrom_ext.
      intros idx Hidx. rewrite Hst1. rewrite decide_False by lia. reflexivity.
    + repeat split.
      * intros j. now rewrite Ha.
      * intros j idx Hne. rewrite Hj by assumption. rewrite Hst1.
        now rewrite decide_False by tauto.
      * intros idx Hidx. rewrite Hlt by lia. rewrite Hst1.
        now rewrite decide_False by lia.
      * intros idx Hidx. cbn [List.length] in Hidx. rewrite Hge by lia.
        rewrite Hst1. now rewrite decide_False by lia.
      * intros [|off] btn Hoff.
        -- cbn in Hoff. injection Hoff as <-. rewrite Nat.add_0_r.
           rewrite Hlt by lia. rewrite Hst1. now rewrite decide_True by done.
        -- cbn in Hoff. replace (k + S off) with (S k + off) by lia.
           rewrite (Hnth off btn Hoff). rewrite Hst1.
           now rewrite decide_False by lia.
Qed.

Lemma processAxes_run (gp : gamepad) (p : string) (st : gamepadState) :
  exists st',
    processAxes gp p st
    = (Returned tt, st', stickChanges p (stickNow gp) (axesOf st (index gp))) /\
    axesOf st' (index gp) = stickNow gp /\
    (forall j, j <> index gp -> axesOf st' j = axesOf st j) /\
    (forall j idx, wasPressed st' j idx = wasPressed st j idx).
Proof.
  unfold processAxes, bind, get, modify.
  repeat (rewrite onChange_run; cbn beta iota).
  eexists. split; [|split; [|split]].
  - cbn [app]. rewrite !axesOf_setAxes, !decide_True by reflexivity.
    cbn [ax_up ax_down ax_left ax_right]. unfold stickChanges, stickNow.
    cbn [ax_up ax_down ax_left ax_right].
    rewrite !app_nil_r. reflexivity.
  - rewrite !axesOf_setAxes, !decide_True by reflexivity. reflexivity.
  - intros j Hj. rewrite !axesOf_setAxes, !decide_False by assumption.
    reflexivity.
  - reflexivity.
Qed.

End PadPolling.

Section PadTicks.
Import Eff Gamepad.

Lemma init_observably_same (gp : gamepad) (st : gamepadState) :
  let st0 :=
    match st_buttons st !! index gp with
    | Some _ => st
    | None => mkPadState (<[index gp := ∅]> (st_buttons st)) (st_axes st)
    end in
  let st1 :=
    match st_axes st0 !! index gp with
    | Some _ => st0
    | None => setAxes (index gp) (fun a => a) st0
    end in
  (forall j idx, wasPressed st1 j idx = wasPressed st j idx) /\
  (forall j, axesOf st1 j = axesOf st j).
Proof.
  intros st0 st1.
  assert (H0 : (forall j idx, wasPressed st0 j idx = wasPressed st j idx) /\
               (forall j, axesOf st0 j = axesOf st j)).
  { subst st0. destruct (st_buttons st !! index gp) eqn:E; [now split|].
    split; [|reflexivity]. intros j idx. unfold wasPressed. cbn [st_buttons].
    destruct (decide (j = index gp)) as [->|Hj].
    - now rewrite lookup_insert_eq, E.
    - now rewrite lookup_insert_ne by done. }
  destruct H0 as [Hw Ha]. subst st1.
  destruct (st_axes st0 !! index gp) eqn:E; [now split|].
  split.
  - intros j idx. rewrite wasPressed_setAxes. apply Hw.
  - intros j. rewrite axesOf_setAxes. destruct (decide (j = index gp)) as [->|];
      apply Ha.
Qed.

Lemma pollDevice_run (gp : gamepad) (st : gamepadState) :
  exists st',
    pollDevice gp st = (Returned tt, st', buttonEdges st gp ++ stickEdges st gp) /\
    tickSampled gp st st'.
Proof.
  destruct (init_observably_same gp st) as [Hw Ha].
  unfold pollDevice, bind, modify. cbn beta iota.
  set (st1 := match st_axes _ !! index gp with Some _ => _ | None => _ end) in *.
  destruct (forEachFrom_run (buttons gp) 0 (index gp)
              (if Nat.eqb (index gp) 0 then "p1" else "p2") st1)
    as (st2 & Hrun & Hax & Hj & _ & Hge & Hnth).
  rewrite Hrun.
  destruct (processAxes_run gp (if Nat.eqb (index gp) 0 then "p1" else "p2") st2)
    as (st3 & Hrun3 & Hnow & Hother & Hsame).
  rewrite Hrun3. exists st3. split.
  - cbn [app]. unfold buttonEdges, stickEdges, playerOf.
    rewrite Hax, Ha. do 2 f_equal.
    apply buttonEdgesFrom_ext. intros idx _. apply Hw.
  - repeat split.
    + exact Hnow.
    + intros j Hne. now rewrite Hother, Hax, Ha.
    + intros j idx Hne. now rewrite Hsame, Hj, Hw.
    + intros idx Hidx. rewrite Hsame, Hge by (cbn; lia). apply Hw.
    + intros idx btn Hidx. rewrite Hsame.
      pose proof (Hnth idx btn Hidx) as Hx. cbn [Nat.add] in Hx.
      now rewrite Hx, Hw.
Qed.

Lemma buttonEdgesFrom_changes (l2 l1 : list button) (k i : nat) (p : string)
    (st : gamepadState) :
  List.length l1 = List.length l2 ->
  (forall off b1 c, nth_error l1 off = Some b1 ->
                    GAMEPAD_MAPPING (k + off) = Some c ->
                    wasPressed st i (k + off) = isPressed b1) ->
  buttonEdgesFrom k i p st l2
  = List.flat_map
      (fun ibb => match GAMEPAD_MAPPING (fst ibb) with
                  | Some c => edgeEvents c p (isPressed (snd (snd ibb)))
                                         (isPressed (fst (snd ibb)))
                  | None => []
                  end)
      (indexed k (List.combine l1 l2)).
Proof.
  revert l1 k. induction l2 as [|b2 r2 IH]; intros [|b1 r1] k Hlen Hwas;
    try discriminate; [reflexivity|].
  rewrite buttonEdgesFrom_cons. cbn [List.combine]. unfold indexed.
  cbn [List.length List.seq List.combine List.flat_map fst snd].
  f_equal.
  - destruct (GAMEPAD_MAPPING k) as [c|] eqn:E; [|reflexivity].
    specialize (Hwas 0 b1 c eq_refl). rewrite Nat.add_0_r in Hwas.
    now rewrite (Hwas E).
  - apply IH; [cbn in Hlen; lia|].
    intros off b c Hoff Hmap. replace (S k + off) with (k + S off) in * by lia.
    now apply (Hwas (S off) b c).
Qed.

Lemma tick_after (prev gp : gamepad) (st st1 : gamepadState) :
  sameDevice prev gp -> tickSampled prev st st1 ->
  buttonEdges st1 gp ++ stickEdges st1 gp = changes prev gp.
Proof.
  intros [Hi Hn] (Hnow & _ & _ & _ & Hnth).
  unfold changes, buttonEdges, stickEdges. rewrite <- Hi, Hnow. f_equal.
  apply buttonEdgesFrom_changes; [assumption|].
  intros off b1 c Hoff Hmap. cbn [Nat.add] in *.
  now rewrite (Hnth off b1 Hoff), Hmap.
Qed.

Lemma sameDevice_trans (a b c : gamepad) :
  sameDevice a b -> sameDevice b c -> sameDevice a c.
Proof. intros [H1 H2] [H3 H4]. split; congruence. Qed.

Lemma ticks_run (rest : list gamepad) (gp0 : gamepad) (st : gamepadState) :
  Forall (sameDevice gp0) rest ->
  ticks st (gp0 :: rest)
  = (buttonEdges st gp0 ++ stickEdges st gp0) :: consecutive gp0 rest.
Proof.
  revert gp0 st. induction rest as [|gp1 r IH]; intros gp0 st Hall.
  - cbn [ticks consecutive]. unfold tick. cbn [snd].
    destruct (pollDevice_run gp0 st) as (st' & -> & _). reflexivity.
  - inversion Hall as [|? ? H01 Hr]; subst.
    change (ticks st (gp0 :: gp1 :: r))
      with (snd (tick st gp0) :: ticks (fst (tick st gp0)) (gp1 :: r)).
    rewrite IH.
    + unfold tick. cbn [fst snd].
      destruct (pollDevice_run gp0 st) as (st' & -> & Hs).
      unfold state_of, trace_of. cbn [fst snd consecutive].
      now rewrite (tick_after gp0 gp1 st st' H01 Hs).
    + eapply Forall_impl; [exact Hr|].
      intros g Hg. cbn beta. apply (sameDevice_trans gp1 gp0 g); [|assumption].
      destruct H01. split; congruence.
Qed.

Lemma edgeEvents_same (c p : string) (b : bool) : edgeEvents c p b b = [].
Proof. unfold edgeEvents. now rewrite Bool.eqb_reflx. Qed.

Lemma buttonChanges_same (l1 l2 : list button) (p : string) (k : nat) :
  List.map isPressed l1 = List.map isPressed l2 ->
  List.flat_map
    (fun ibb => match GAMEPAD_MAPPING (fst ibb) with
                | Some c => edgeEvents c p (isPressed (snd (snd ibb)))
                                       (isPressed (fst (snd ibb)))
                | None => []
                end)
    (indexed k (List.combine l1 l2)) = [].
Proof.
  revert l2 k. induction l1 as [|b1 r1 IH]; intros [|b2 r2] k Hb;
    try discriminate; try reflexivity.
  cbn in Hb. injection Hb as Hhd Htl. unfold indexed.
  cbn [List.combine List.length List.seq List.flat_map fst snd].
  specialize (IH r2 (S k) Htl). unfold indexed in IH. rewrite IH, Hhd.
  destruct (GAMEPAD_MAPPING k); [now rewrite edgeEvents_same|reflexivity].
Qed.

Lemma changes_sameInputs (prev gp : gamepad) :
  sameInputs prev gp -> changes prev gp = [].
Proof.
  intros [Hb Hs]. unfold changes. rewrite Hs, (buttonChanges_same _ _ _ _ Hb).
  unfold stickChanges. now rewrite !edgeEvents_same.
Qed.

End PadTicks.

Section PadGate.
Import Eff Gamepad.

(** Without a connected device, or while the session is [running] with no
    engine instance, a tick does nothing. *)
Lemma pollGamepad_gated (hasGamepad : bool) (status : Session.status_t)
    (ref : option Engine.engine) (gps : list (option gamepad))
    (st : gamepadState) :
  hasGamepad = false \/ (status = Session.running /\ ref = None) ->
  pollGamepad hasGamepad status ref gps st = (Returned tt, st, []).
Proof.
  unfold pollGamepad. intros [->|[-> ->]]; [reflexivity|].
  now destruct hasGamepad.
Qed.

(** Otherwise a tick with one connected device is the loop body on it;
    empty slots of the device array are skipped. *)
Lemma pollGamepad_one_device (status : Session.status_t) (e : Engine.engine)
    (gp : gamepad) (st : gamepadState) :
  pollGamepad true status (Some e) [None; Some gp; None] st = pollDevice gp st.
Proof.
  unfold pollGamepad. cbn [negb for_each].
  destruct (pollDevice_run gp st) as (st' & H & _).
  destruct status; unfold bind, ret; rewrite H; now rewrite app_nil_r.
Qed.

End PadGate.

Section Deadzone.
Import Gamepad.

Lemma stickNow_stickAt (i : nat) (x y : Q) :
  stickNow (stickAt i x y)
  = mkAxes (JS.Qltb y (- 0.25)) (JS.Qltb 0.25 y)
           (JS.Qltb x (- 0.25)) (JS.Qltb 0.25 x).
Proof. reflexivity. Qed.

Lemma changes_stickAt (i : nat) (x y x' y' : Q) :
  changes (stickAt i x y) (stickAt i x' y')
  = stickChanges (if Nat.eqb i 0 then "p1" else "p2")
      (stickNow (stickAt i x' y')) (stickNow (stickAt i x y)).
Proof. reflexivity. Qed.

Lemma atRest_inactive (v : Q) :
  atRest v -> JS.Qltb v (- 0.25) = false /\ JS.Qltb 0.25 v = false.
Proof. intros [H1 H2]. split; now apply Qltb_ge. Qed.

Lemma pushedLow_active (v : Q) :
  (v < - 0.25)%Q -> JS.Qltb v (- 0.25) = true /\ JS.Qltb 0.25 v = false.
Proof.
  intros H. split; [now apply Qltb_lt|]. apply Qltb_ge.
  apply Qlt_le_weak. apply (Qlt_trans _ (- 0.25)); [assumption|reflexivity].
Qed.

Lemma pushedHigh_active (v : Q) :
  (0.25 < v)%Q -> JS.Qltb v (- 0.25) = false /\ JS.Qltb 0.25 v = true.
Proof.
  intros H. split; [|now apply Qltb_lt]. apply Qltb_ge.
  apply Qlt_le_weak. apply (Qlt_trans _ 0.25); [reflexivity|assumption].
Qed.

End Deadzone.

(** ** The poll over a snapshot *)

Section PadDevices.
Import Eff Gamepad.

Lemma deviceEdges_ext (gp : gamepad) (st1 st2 : gamepadState) :
  (forall idx, wasPressed st1 (index gp) idx = wasPressed st2 (index gp) idx) ->
  axesOf st1 (index gp) = axesOf st2 (index gp) ->
  deviceEdges st1 gp = deviceEdges st2 gp.
Proof.
  intros Hw Ha. unfold deviceEdges, buttonEdges, stickEdges. rewrite Ha.
  f_equal. apply buttonEdgesFrom_ext. intros idx _. apply Hw.
Qed.

Lemma flat_map_ext_on {A B} (f g : A -> list B) (l : list A) :
  (forall a, In a l -> f a = g a) -> List.flat_map f l = List.flat_map g l.
Proof.
  induction l as [|a r IH]; intros H; [reflexivity|].
  cbn [List.flat_map]. rewrite (H a) by now left.
  f_equal. apply IH. intros x Hx. apply H. now right.
Qed.

Lemma pollEach_run (gps : list (option gamepad)) (st : gamepadState) :
  List.NoDup (List.map index (present gps)) ->
  exists st',
    pollEach gps st
    = (Returned tt, st', List.flat_map (deviceEdges st) (present gps)) /\
    (forall j, ~ In j (List.map index (present gps)) ->
               axesOf st' j = axesOf st j /\
               forall idx, wasPressed st' j idx = wasPressed st j idx) /\
    (forall gp, In gp (present gps) -> deviceSampled gp st st').
Proof.
  revert st. induction gps as [|[gp|] r IH]; intros st Hnd.
  - exists st. split; [reflexivity|]. split; [now split|]. intros gp [].
  - cbn [present List.flat_map app List.map] in Hnd.
    fold (present r) in Hnd. inversion Hnd as [|? ? Hnotin Hnd']; subst.
    destruct (pollDevice_run gp st) as (st1 & Hrun & Hs1).
    destruct (IH st1 Hnd') as (st' & Hrest & Hout & Hin).
    pose proof Hs1 as (Hnow & Hax & Hwas & Hge & Hnth).
    assert (Hother : forall g, In g (present r) -> index g <> index gp).
    { intros g Hg E. apply Hnotin. rewrite <- E. now apply in_map. }
    exists st'. split; [|split].
    + unfold pollEach in *. cbn [for_each]. unfold bind at 1.
      rewrite Hrun, Hrest. cbn [present List.flat_map app].
      fold (present r). unfold deviceEdges at 2. do 2 f_equal.
      apply flat_map_ext_on. intros g Hg. apply deviceEdges_ext.
      * intros idx. apply Hwas. now apply Hother.
      * apply Hax. now apply Hother.
    + intros j Hj. cbn [present List.flat_map app List.map] in Hj.
      fold (present r) in Hj.
      assert (Hne : j <> index gp) by (intros ->; apply Hj; now left).
      assert (Hjr : ~ In j (List.map index (present r)))
        by (intros H; apply Hj; now right).
      destruct (Hout j Hjr) as [Ha Hw]. split.
      * now rewrite Ha, Hax.
      * intros idx. now rewrite Hw, Hwas.
    + intros g Hg. cbn [present List.flat_map app] in Hg. fold (present r) in Hg.
      destruct Hg as [<-|Hg].
      * destruct (Hout (index gp) Hnotin) as [Ha Hw].
        split; [now rewrite Ha|]. split.
        -- intros idx Hidx. now rewrite Hw, Hge.
        -- intros idx btn Hb. now rewrite Hw, (Hnth idx btn Hb).
      * destruct (Hin g Hg) as (Hn & Hg1 & Hg2).
        pose proof (Hother g Hg) as Hne.
        split; [exact Hn|]. split.
        -- intros idx Hidx. now rewrite Hg1, Hwas.
        -- intros idx btn Hb. rewrite (Hg2 idx btn Hb).
           destruct (GAMEPAD_MAPPING idx); [reflexivity|]. now apply Hwas.
  - cbn [present List.flat_map app] in Hnd. fold (present r) in Hnd.
    destruct (IH st Hnd) as (st' & Hrest & Hout & Hin).
    exists st'. split; [|split; assumption].
    unfold pollEach in *. cbn [for_each]. unfold bind at 1, ret at 1.
    now rewrite Hrest.
Qed.

Lemma pollGamepad_open (status : Session.status_t) (ref : option Engine.engine)
    (gps : list (option gamepad)) :
  gateOpen status ref -> pollGamepad true status ref gps = pollEach gps.
Proof.
  unfold gateOpen, pollGamepad, pollEach. cbn [negb]. intros H.
  destruct status; try reflexivity.
  destruct ref; [reflexivity|]. now exfalso; apply H.
Qed.

Lemma deviceEdges_player (st : gamepadState) (gp : gamepad) (ev : InputEvent.t) :
  In ev (deviceEdges st gp) ->
  InputEvent.player ev = playerOf gp /\
  ButtonTable.isValidButton (InputEvent.control ev) = true.
Proof.
  assert (He : forall c p now was e,
             In e (edgeEvents c p now was) ->
             InputEvent.player e = p /\ InputEvent.control e = c).
  { intros c p now was e. unfold edgeEvents.
    destruct (Bool.eqb now was); [intros []|]. now intros [<-|[]]. }
  unfold deviceEdges, buttonEdges, buttonEdgesFrom, stickEdges, stickChanges.
  rewrite !in_app_iff, in_flat_map.
  intros [([idx btn] & _ & H)|[H|[H|[H|H]]]].
  - cbn [fst snd] in H.
    destruct (GAMEPAD_MAPPING idx) as [c|] eqn:E; [|contradiction].
    apply He in H as [-> ->]. split; [reflexivity|].
    unfold GAMEPAD_MAPPING in E.
    do 16 (destruct idx as [|idx];
           [first [discriminate E|injection E as <-; reflexivity]|]).
    discriminate E.
  - apply He in H as [-> ->]. split; reflexivity.
  - apply He in H as [-> ->]. split; reflexivity.
  - apply He in H as [-> ->]. split; reflexivity.
  - apply He in H as [-> ->]. split; reflexivity.
Qed.

Lemma pollEach_none (gps : list (option gamepad)) (st : gamepadState) :
  present gps = [] -> pollEach gps st = (Returned tt, st, []).
Proof.
  induction gps as [|[gp|] r IH]; intros H; [reflexivity|discriminate H|].
  unfold pollEach in *. cbn [for_each]. unfold bind at 1, ret at 1.
  cbn [present List.flat_map app] in H. now rewrite (IH H).
Qed.

Lemma pollEach_single (gps : list (option gamepad)) (gp : gamepad)
    (st : gamepadState) :
  present gps = [gp] -> pollEach gps st = pollDevice gp st.
Proof.
  induction gps as [|[g|] r IH]; intros H; [discriminate H| |].
  - cbn [present List.flat_map app] in H. fold (present r) in H.
    injection H as -> Hr.
    unfold pollEach. cbn [for_each]. unfold bind at 1.
    destruct (pollDevice_run gp st) as (st' & -> & _).
    fold (pollEach r). rewrite (pollEach_none r st' Hr). now rewrite app_nil_r.
  - cbn [present List.flat_map app] in H. fold (present r) in H.
    unfold pollEach in *. cbn [for_each]. unfold bind at 1, ret at 1.
    rewrite (IH H). now destruct (pollDevice gp st) as [[? ?] ?].
Qed.

Lemma polls_ticks (status : Session.status_t) (ref : option Engine.engine)
    (snaps : list (list (option gamepad))) (samples : list gamepad)
    (st : gamepadState) :
  gateOpen status ref ->
  List.map present snaps = List.map (fun g => [g]) samples ->
  polls true status ref st snaps = ticks st samples.
Proof.
  intros Hgate. revert samples st.
  induction snaps as [|gps r IH]; intros [|gp samples] st H;
    try discriminate H; [reflexivity|].
  cbn [List.map] in H. injection H as Hgp Hr.
  cbn [polls ticks]. unfold tick. cbn [fst snd].
  rewrite (pollGamepad_open _ _ _ Hgate), (pollEach_single gps gp st Hgp).
  f_equal. now apply IH.
Qed.

Lemma legacy_buttons_from (l : list button) (k i : nat) :
  In i (List.flat_map (fun ib : nat * button =>
                         if pressed (snd ib) then [fst ib] else [])
          (List.combine (List.seq k (List.length l)) l))
  <-> exists off btn, i = (k + off)%nat /\ nth_error l off = Some btn /\
                      pressed btn = true.
Proof.
  revert k. induction l as [|b r IH]; intros k.
  - split; [intros []|]. intros (off & btn & _ & H & _). now destruct off.
  - cbn [List.length List.seq List.combine List.flat_map fst snd].
    rewrite in_app_iff, IH. split.
    + intros [H|(off & btn & -> & Hn & Hp)].
      * destruct (pressed b) eqn:E; [|contradiction].
        destruct H as [<-|[]]. exists 0%nat, b. split; [lia|now split].
      * exists (S off), btn. split; [lia|now split].
    + intros ([|off] & btn & -> & Hn & Hp).
      * left. injection Hn as ->. rewrite Hp. left. lia.
      * right. exists off, btn. split; [lia|now split].
Qed.

End PadDevices.

(** C2, as the document states it, fails for the predecessor component:
    its poll keeps nothing between ticks, so a button that stays held is
    announced again by the next poll. *)
Lemma legacy_poll_is_not_edge_triggered : ~ DesignDoc.heldAnnouncedOnce.
Proof.
  intros H.
  specialize (H [Some (Gamepad.mkPad 0 [Gamepad.mkButton true (JS.Fin 1)] [])]).
  vm_compute in H. discriminate H.
Qed.

(** C2 (amended): the poll of [EmulatorScreen(fixes 2p).jsx] is edge
    triggered.  A poll behind a closed gate does nothing.  With the gates
    open a poll emits, for every device of the snapshot, for every mapped
    button and every stick direction, nothing when the sampled state equals
    the cached one, one [down] on a rise and one [up] on a fall, and caches
    the sampled state; so over consecutive polls of a device the events of
    a poll are the changes between the previous sample and this one, and a
    sample showing the same inputs emits nothing.  A stick direction is
    active only beyond the deadzone of 0.25: a value inside it emits
    nothing from rest, crossing it emits one [down], staying beyond it
    emits nothing more, and coming back emits one [up].  The poll of the
    predecessor component announces the index of a button exactly when a
    device of the snapshot shows it pressed, on every poll. *)
Theorem gamepad_edge_detection :
  (forall (h : bool) (status : Session.status_t) (ref : option Engine.engine)
          (gps : list (option Gamepad.gamepad)) (st : Gamepad.gamepadState),
      h = false \/ (status = Session.running /\ ref = None) ->
      Gamepad.pollGamepad h status ref gps st = (Eff.Returned tt, st, [])) /\
  (forall (status : Session.status_t) (ref : option Engine.engine)
          (gps : list (option Gamepad.gamepad)) (st : Gamepad.gamepadState),
      gateOpen status ref ->
      List.NoDup (List.map Gamepad.index (present gps)) ->
      let r := Gamepad.pollGamepad true status ref gps st in
      Eff.result_of r = Eff.Returned tt /\
      Eff.trace_of r
      = List.flat_map (fun gp => buttonEdges st gp ++ stickEdges st gp)
                      (present gps) /\
      (forall gp, In gp (present gps) -> deviceSampled gp st (Eff.state_of r))) /\
  (forall (status : Session.status_t) (ref : option Engine.engine)
          (gps : list (option Gamepad.gamepad)) (gp : Gamepad.gamepad)
          (st : Gamepad.gamepadState),
      gateOpen status ref ->
      present gps = [gp] ->
      let r := Gamepad.pollGamepad true status ref gps st in
      Eff.result_of r = Eff.Returned tt /\
      Eff.trace_of r = buttonEdges st gp ++ stickEdges st gp /\
      tickSampled gp st (Eff.state_of r)) /\
  (forall (status : Session.status_t) (ref : option Engine.engine)
          (st : Gamepad.gamepadState) (gp0 : Gamepad.gamepad)
          (rest : list Gamepad.gamepad)
          (snaps : list (list (option Gamepad.gamepad))),
      gateOpen status ref ->
      Forall (sameDevice gp0) rest ->
      List.map present snaps = List.map (fun g => [g]) (gp0 :: rest) ->
      Gamepad.polls true status ref st snaps
      = (buttonEdges st gp0 ++ stickEdges st gp0) :: consecutive gp0 rest) /\
  (forall prev gp : Gamepad.gamepad, sameInputs prev gp -> changes prev gp = []) /\
  (forall v : Q,
      (Gamepad.leftActive (JS.Fin v) = true <-> (v < - 0.25)%Q) /\
      (Gamepad.rightActive (JS.Fin v) = true <-> (0.25 < v)%Q) /\
      (Gamepad.upActive (JS.Fin v) = true <-> (v < - 0.25)%Q) /\
      (Gamepad.downActive (JS.Fin v) = true <-> (0.25 < v)%Q)) /\
  (forall (i : nat) (x x' y y' : Q),
      atRest y -> atRest y' ->
      let p := if Nat.eqb i 0 then "p1" else "p2" in
      (atRest x -> atRest x' -> changes (stickAt i x y) (stickAt i x' y') = []) /\
      (atRest x -> (x' < - 0.25)%Q ->
       changes (stickAt i x y) (stickAt i x' y')
       = [InputEvent.mk "left" InputEvent.down p]) /\
      ((x < - 0.25)%Q -> (x' < - 0.25)%Q ->
       changes (stickAt i x y) (stickAt i x' y') = []) /\
      ((x < - 0.25)%Q -> atRest x' ->
       changes (stickAt i x y) (stickAt i x' y')
       = [InputEvent.mk "left" InputEvent.up p]) /\
      (atRest x -> (0.25 < x')%Q ->
       changes (stickAt i x y) (stickAt i x' y')
       = [InputEvent.mk "right" InputEvent.down p]) /\
      ((0.25 < x)%Q -> (0.25 < x')%Q ->
       changes (stickAt i x y) (stickAt i x' y') = []) /\
      ((0.25 < x)%Q -> atRest x' ->
       changes (stickAt i x y) (stickAt i x' y')
       = [InputEvent.mk "right" InputEvent.up p])) /\
  (forall (gps : list (option Gamepad.gamepad)) (idx : nat),
      In idx (Gamepad.pollGamepad_legacy true gps)
      <-> exists gp btn, In gp (present gps) /\
                         nth_error (Gamepad.buttons gp) idx = Some btn /\
                         Gamepad.pressed btn = true) /\
  (forall (h : bool) (snaps : list (list (option Gamepad.gamepad))),
      Gamepad.polls_legacy h snaps
      = List.map (fun gps => if h then Gamepad.pollGamepad_legacy true gps else [])
                 snaps).
Proof.
  split; [|split; [|split; [|split; [|split; [|split; [|split; [|split]]]]]]].
  - intros h status ref gps st. apply pollGamepad_gated.
  - intros status ref gps st Hgate Hnd r. subst r.
    rewrite (pollGamepad_open _ _ _ Hgate).
    destruct (pollEach_run gps st Hnd) as (st' & -> & _ & Hin).
    split; [reflexivity|split; [reflexivity|exact Hin]].
  - intros status ref gps gp st Hgate Hgp r. subst r.
    rewrite (pollGamepad_open _ _ _ Hgate), (pollEach_single gps gp st Hgp).
    destruct (pollDevice_run gp st) as (st' & -> & Hs).
    split; [reflexivity|split; [reflexivity|exact Hs]].
  - intros status ref st gp0 rest snaps Hgate Hall Hsn.
    rewrite (polls_ticks status ref snaps (gp0 :: rest) st Hgate Hsn).
    now apply ticks_run.
  - apply changes_sameInputs.
  - intros v. repeat split; intros H; now apply Qltb_lt in H.
  - intros i x x' y y' Hy Hy' p. subst p.
    rewrite !changes_stickAt, !stickNow_stickAt.
    destruct (atRest_inactive y Hy) as [-> ->].
    destruct (atRest_inactive y' Hy') as [-> ->].
    repeat split; intros H H';
      repeat match goal with
        | H : atRest _ |- _ =>
            apply atRest_inactive in H; destruct H as [-> ->]
        | H : (_ < - 0.25)%Q |- _ =>
            apply pushedLow_active in H; destruct H as [-> ->]
        | H : (0.25 < _)%Q |- _ =>
            apply pushedHigh_active in H; destruct H as [-> ->]
        end; reflexivity.
  - intros gps idx. unfold Gamepad.pollGamepad_legacy, present. cbn [negb].
    rewrite in_flat_map. split.
    + intros ([gp|] & Hgp & Hin); [|contradiction].
      apply legacy_buttons_from in Hin as (off & btn & -> & Hn & Hp).
      exists gp, btn. split; [|now split].
      apply in_flat_map. exists (Some gp). split; [exact Hgp|now left].
    + intros (gp & btn & Hgp & Hn & Hp).
      apply in_flat_map in Hgp as ([g|] & Hg & Hin); [|contradiction].
      destruct Hin as [->|[]]. exists (Some gp). split; [exact Hg|].
      apply legacy_buttons_from. exists idx, btn. split; [reflexivity|now split].
  - intros h snaps. unfold Gamepad.polls_legacy. apply List.map_ext.
    intros gps. now destruct h.
Qed.

Lemma gamepad_edge_detection_witness :
  let rest := stickAt 0 0 0 in
  let pushed := stickAt 0 (- 0.5) 0 in
  let further := stickAt 0 (- 0.9) 0.1 in
  Gamepad.polls true Session.idle None Gamepad.fresh
    [[Some rest]; [None; Some pushed]; [Some further; None]; [Some rest]]
  = [ []; [InputEvent.mk "left" InputEvent.down "p1"]; [];
      [InputEvent.mk "left" InputEvent.up "p1"] ] /\
  Gamepad.pollGamepad true Session.running None [Some pushed] Gamepad.fresh
  = (Eff.Returned tt, Gamepad.fresh, []) /\
  Eff.trace_of (Gamepad.pollGamepad true Session.idle None [Some pushed]
                  Gamepad.fresh)
  = [InputEvent.mk "left" InputEvent.down "p1"] /\
  changes pushed further = [] /\
  changes rest pushed = [InputEvent.mk "left" InputEvent.down "p1"].
Proof.
  intros rest pushed further.
  assert (Hg : gateOpen Session.idle None) by (intros H; discriminate H).
  destruct gamepad_edge_detection
    as (Hgated & _ & Hone & Hpolls & Hsame & _ & Hstick & _).
  split; [|split; [|split; [|split]]].
  - rewrite (Hpolls Session.idle None Gamepad.fresh rest [pushed; further; rest]).
    + reflexivity.
    + exact Hg.
    + repeat constructor.
    + reflexivity.
  - apply Hgated. right. split; reflexivity.
  - destruct (Hone Session.idle None [Some pushed] pushed Gamepad.fresh Hg eq_refl)
      as (_ & -> & _).
    reflexivity.
  - apply Hsame. split; reflexivity.
  - assert (H0 : atRest 0) by (split; discriminate).
    destruct (Hstick 0%nat 0 (- 0.5) 0 0 H0 H0)%Q as (_ & Hdown & _).
    apply Hdown; [exact H0|reflexivity].
Defined.

(** The predecessor component's poll announces every pressed button on
    every tick as a raw index notification; it keeps no cache, reads no
    axis and dispatches no normalized event. *)
Example legacy_poll_is_level_triggered :
  let held := Gamepad.mkPad 0 [Gamepad.mkButton true (JS.Fin 1)] [] in
  Gamepad.polls_legacy true [[Some held]; [Some held]] = [[0%nat]; [0%nat]] /\
  Gamepad.polls true Session.idle None Gamepad.fresh [[Some held]; [Some held]]
  = [[InputEvent.mk "b" InputEvent.down "p1"]; []].
Proof. split; vm_compute; reflexivity. Qed.

(* ===================================================================== *)
(** * Further properties of the code *)
(* ===================================================================== *)

(** ** Keyboard capture and play *)

Lemma get_keys {V} (o : list (string * V)) (k : string) (v : V) :
  JS.get o k = Some v -> In k (JS.keys o).
Proof.
  intros H. apply get_In in H. unfold JS.keys.
  apply in_map_iff. now exists (k, v).
Qed.

Lemma keys_set {V} (o : list (string * V)) (k : string) (v : V) :
  JS.keys (JS.set o k v)
  = if JS.includes (JS.keys o) k then JS.keys o else JS.keys o ++ [k].
Proof.
  induction o as [|[k0 v0] r IH]; [reflexivity|].
  cbn [JS.set JS.keys List.map fst JS.includes existsb].
  destruct (String.eqb_spec k k0) as [->|Hk]; [reflexivity|].
  cbn [List.map fst orb]. fold (JS.keys (JS.set r k v)). rewrite IH.
  fold (JS.keys r). unfold JS.includes.
  now destruct (existsb (String.eqb k) (JS.keys r)).
Qed.

Section Keys.
Import Keyboard.

Lemma bindingOf_rebind (maps : mappingsObj) (a : control)
    (b : MappingStore.binding) (p k : string) :
  bindingOf (rebind maps a b) p k
  = if String.eqb p (c_player a) && String.eqb k (c_key a) then Some b
    else bindingOf maps p k.
Proof.
  unfold bindingOf, rebind. rewrite get_set.
  destruct (String.eqb_spec p (c_player a)) as [->|Hp]; [|reflexivity].
  change (default [] (Some ?x)) with x. rewrite get_set. cbn [andb].
  now destruct (String.eqb k (c_key a)).
Qed.

Lemma in_scan (ty ty' : InputEvent.transition) (maps : mappingsObj)
    (pressed player c p : string) :
  In (InputEvent.mk c ty' p) (scan ty maps pressed player)
  <-> ty' = ty /\ p = player /\ bindingOf maps player c = Some (Some pressed).
Proof.
  unfold scan, bindingOf. rewrite in_flat_map. split.
  - intros (control & Hk & Hin).
    destruct (JS.get (default [] (JS.get maps player)) control) as [[c'|]|] eqn:E;
      try contradiction.
    destruct (String.eqb_spec c' pressed) as [->|]; [|contradiction].
    destruct Hin as [[= <- <- <-]|[]]. now repeat split.
  - intros (-> & -> & H). exists c. split; [now apply get_keys in H|].
    rewrite H, String.eqb_refl. now left.
Qed.

Lemma in_play (ty : InputEvent.transition) (maps : mappingsObj)
    (pressed c p : string) (ty' : InputEvent.transition) :
  In (InputEvent.mk c ty' p) (play ty maps pressed)
  <-> ty' = ty /\ (p = "p1" \/ p = "p2") /\
      bindingOf maps p c = Some (Some pressed).
Proof.
  unfold play. rewrite in_app_iff, !in_scan. split.
  - intros [(-> & -> & H)|(-> & -> & H)]; tauto.
  - intros (-> & [->| ->] & H); tauto.
Qed.

Lemma onKeyDown_capture (st : state) (a : control) (e : keyEvent) :
  awaiting st = Some a -> binds e ->
  onKeyDown st e
  = mkHandled (mkState (rebind (mappings st) a (Some (code e))) None) [] true.
Proof.
  intros Ha [Hesc Hmod]. unfold onKeyDown. now rewrite Ha, Hesc, Hmod.
Qed.

Lemma runKeys_idle (evs : list keyAction) (st : state) :
  awaiting st = None -> runKeys st evs = st.
Proof.
  revert st. induction evs as [|a r IH]; intros st H; [reflexivity|].
  cbn [runKeys fold_left]. fold (runKeys (keyStep st a) r).
  assert (keyStep st a = st) as ->.
  { destruct a; cbn [keyStep]; [|reflexivity].
    unfold onKeyDown. now rewrite H. }
  now apply IH.
Qed.

End Keys.

(** X1.  In play mode a key event dispatches exactly the bindings of its
    code: an event for a control and a player is dispatched iff the player
    is [p1] or [p2] and that control of that player is bound to the code;
    on keydown and on keyup alike the browser default is prevented iff
    something was dispatched, and a key bound to nothing is a silent no-op
    that changes nothing. *)
Theorem keyboard_play_dispatches_bound_controls
    (st : Keyboard.state) (e : Keyboard.keyEvent) :
  Keyboard.awaiting st = None ->
  (forall (c p : string) (ty : InputEvent.transition),
      In (InputEvent.mk c ty p) (Keyboard.dispatched (Keyboard.onKeyDown st e))
      <-> ty = InputEvent.down /\ (p = "p1" \/ p = "p2") /\
          Keyboard.bindingOf (Keyboard.mappings st) p c
          = Some (Some (Keyboard.code e))) /\
  (forall (c p : string) (ty : InputEvent.transition),
      In (InputEvent.mk c ty p) (Keyboard.dispatched (Keyboard.onKeyUp st e))
      <-> ty = InputEvent.up /\ (p = "p1" \/ p = "p2") /\
          Keyboard.bindingOf (Keyboard.mappings st) p c
          = Some (Some (Keyboard.code e))) /\
  (Keyboard.defaultPrevented (Keyboard.onKeyDown st e) = false
   <-> Keyboard.dispatched (Keyboard.onKeyDown st e) = []) /\
  (Keyboard.defaultPrevented (Keyboard.onKeyUp st e) = false
   <-> Keyboard.dispatched (Keyboard.onKeyUp st e) = []) /\
  Keyboard.next (Keyboard.onKeyDown st e) = st /\
  Keyboard.next (Keyboard.onKeyUp st e) = st.
Proof.
  intros Hidle.
  unfold Keyboard.onKeyDown, Keyboard.onKeyUp. rewrite Hidle.
  cbn [Keyboard.dispatched Keyboard.defaultPrevented Keyboard.next].
  split; [intros c p ty; apply in_play|].
  split; [intros c p ty; apply in_play|].
  split; [|split; [|split; reflexivity]].
  - destruct (Keyboard.play _ _ _); split; intros H; try reflexivity;
      discriminate.
  - destruct (Keyboard.play _ _ _); split; intros H; try reflexivity;
      discriminate.
Qed.

Lemma keyboard_play_dispatches_bound_controls_witness :
  let st := Keyboard.mkState
              (Keyboard.ofMapping MappingStore.defaultMappings) None in
  In (InputEvent.mk "start" InputEvent.down "p1")
     (Keyboard.dispatched (Keyboard.onKeyDown st (Keyboard.mkKey "Enter" "Enter"))) /\
  Keyboard.dispatched (Keyboard.onKeyDown st (Keyboard.mkKey "z" "KeyZ")) = [].
Proof.
  intros st.
  destruct (keyboard_play_dispatches_bound_controls st
              (Keyboard.mkKey "Enter" "Enter") eq_refl) as (H1 & _).
  destruct (keyboard_play_dispatches_bound_controls st
              (Keyboard.mkKey "z" "KeyZ") eq_refl) as (_ & _ & H3 & _ & _).
  split.
  - apply H1. repeat split. now left.
  - apply H3. reflexivity.
Defined.

(** X2.  Capturing a key and then playing it: with a capture pending for a
    control of [p1] or [p2], a key that is neither Escape nor a modifier is
    swallowed (nothing dispatched, default prevented), ends the capture and
    becomes the binding of that control; from then on pressing a key with
    that code dispatches the control's [down] for that player, and releasing
    it the control's [up]. *)
Theorem keyboard_capture_then_play
    (st : Keyboard.state) (a : Keyboard.control) (e e' : Keyboard.keyEvent) :
  Keyboard.awaiting st = Some a ->
  binds e ->
  Keyboard.c_player a = "p1" \/ Keyboard.c_player a = "p2" ->
  Keyboard.code e' = Keyboard.code e ->
  let h := Keyboard.onKeyDown st e in
  Keyboard.dispatched h = [] /\
  Keyboard.defaultPrevented h = true /\
  Keyboard.awaiting (Keyboard.next h) = None /\
  Keyboard.bindingOf (Keyboard.mappings (Keyboard.next h))
                     (Keyboard.c_player a) (Keyboard.c_key a)
  = Some (Some (Keyboard.code e)) /\
  In (InputEvent.mk (Keyboard.c_key a) InputEvent.down (Keyboard.c_player a))
     (Keyboard.dispatched (Keyboard.onKeyDown (Keyboard.next h) e')) /\
  In (InputEvent.mk (Keyboard.c_key a) InputEvent.up (Keyboard.c_player a))
     (Keyboard.dispatched (Keyboard.onKeyUp (Keyboard.next h) e')).
Proof.
  intros Ha [Hesc Hmod] Hp Hcode h. subst h.
  rewrite (onKeyDown_capture st a e Ha (conj Hesc Hmod)).
  cbn [Keyboard.dispatched Keyboard.defaultPrevented Keyboard.next
       Keyboard.awaiting Keyboard.mappings].
  assert (Hb : Keyboard.bindingOf
                 (Keyboard.rebind (Keyboard.mappings st) a (Some (Keyboard.code e)))
                 (Keyboard.c_player a) (Keyboard.c_key a)
               = Some (Some (Keyboard.code e))).
  { now rewrite bindingOf_rebind, !String.eqb_refl. }
  unfold Keyboard.onKeyDown, Keyboard.onKeyUp.
  cbn [Keyboard.dispatched Keyboard.awaiting Keyboard.mappings].
  rewrite Hcode.
  split; [reflexivity|]. split; [reflexivity|]. split; [reflexivity|].
  split; [exact Hb|].
  split; apply in_play; (split; [reflexivity|split; assumption]).
Qed.

Lemma keyboard_capture_then_play_witness :
  let st := Keyboard.mkState
              (Keyboard.ofMapping MappingStore.defaultMappings)
              (Some (Keyboard.mkControl "p2" "a")) in
  let e := Keyboard.mkKey "m" "KeyM" in
  In (InputEvent.mk "a" InputEvent.down "p2")
     (Keyboard.dispatched
        (Keyboard.onKeyDown (Keyboard.next (Keyboard.onKeyDown st e)) e)).
Proof.
  intros st e.
  assert (Hb : binds e) by (split; reflexivity).
  destruct (keyboard_capture_then_play st (Keyboard.mkControl "p2" "a") e e
              eq_refl Hb (or_intror eq_refl) eq_refl)
    as (_ & _ & _ & _ & Hdown & _).
  exact Hdown.
Defined.

(** X3.  A capture consumes one key.  Whatever keys go down and up, the
    mappings are never changed without a capture pending; with a capture
    pending for a control they either stay as they were (the capture is
    still pending or was cancelled) or are the old mappings with that one
    control rebound to the code of one key of the sequence that is neither
    Escape nor a modifier, after which no capture is pending. *)
Theorem keyboard_capture_binds_at_most_once
    (evs : list keyAction) (st : Keyboard.state) :
  (Keyboard.awaiting st = None -> runKeys st evs = st) /\
  (forall a, Keyboard.awaiting st = Some a ->
     Keyboard.mappings (runKeys st evs) = Keyboard.mappings st \/
     exists e, In (Down e) evs /\ binds e /\
               Keyboard.awaiting (runKeys st evs) = None /\
               Keyboard.mappings (runKeys st evs)
               = Keyboard.rebind (Keyboard.mappings st) a
                                 (Some (Keyboard.code e))).
Proof.
  split; [apply runKeys_idle|].
  revert st. induction evs as [|ev r IH]; intros st a Ha; [now left|].
  cbn [runKeys fold_left]. fold (runKeys (keyStep st ev) r).
  destruct ev as [e|e].
  - cbn [keyStep]. unfold Keyboard.onKeyDown. rewrite Ha.
    destruct (String.eqb (Keyboard.key e) "Escape") eqn:Hesc.
    + cbn [Keyboard.next]. rewrite runKeys_idle by reflexivity. now left.
    + destruct (Keyboard.isModifier e) eqn:Hmod; cbn [Keyboard.next].
      * destruct (IH st a Ha) as [H|(e' & Hin & Hb & Hn & Hm)]; [now left|].
        right. exists e'. repeat split; try assumption; try apply Hb.
        now right.
      * rewrite runKeys_idle by reflexivity. right. exists e.
        repeat split; try assumption. now left.
  - cbn [keyStep Keyboard.onKeyUp Keyboard.next].
    destruct (IH st a Ha) as [H|(e' & Hin & Hb & Hn & Hm)]; [now left|].
    right. exists e'. repeat split; try assumption; try apply Hb. now right.
Qed.

Lemma keyboard_capture_binds_at_most_once_witness :
  let st := Keyboard.mkState
              (Keyboard.ofMapping MappingStore.defaultMappings)
              (Some (Keyboard.mkControl "p1" "b")) in
  let evs := [ Up (Keyboard.mkKey "j" "KeyJ");
               Down (Keyboard.mkKey "Shift" "ShiftRight");
               Down (Keyboard.mkKey "n" "KeyN");
               Down (Keyboard.mkKey "m" "KeyM") ] in
  Keyboard.mappings (runKeys st evs) = Keyboard.mappings st \/
  exists e, In (Down e) evs /\ binds e /\
            Keyboard.awaiting (runKeys st evs) = None /\
            Keyboard.mappings (runKeys st evs)
            = Keyboard.rebind (Keyboard.mappings st)
                (Keyboard.mkControl "p1" "b") (Some (Keyboard.code e)).
Proof.
  intros st evs.
  destruct (keyboard_capture_binds_at_most_once evs st) as [_ H].
  apply (H (Keyboard.mkControl "p1" "b")). reflexivity.
Defined.

(** X4.  Rebinding one control (by a capture, or to nothing by the clear
    button) changes what that control of that player dispatches and
    nothing else: afterwards the control is dispatched for exactly the new
    code, every other control of either player is dispatched as before, and
    a control already listed keeps its place in the player's list.  A
    cleared control is dispatched by no key. *)
Theorem keyboard_rebind_touches_one_control
    (maps : Keyboard.mappingsObj) (a : Keyboard.control)
    (b : MappingStore.binding) :
  (forall (ty ty' : InputEvent.transition) (pressed c p : string),
      In (InputEvent.mk c ty' p) (Keyboard.play ty (Keyboard.rebind maps a b) pressed)
      <-> if String.eqb p (Keyboard.c_player a) && String.eqb c (Keyboard.c_key a)
          then ty' = ty /\ (p = "p1" \/ p = "p2") /\ b = Some pressed
          else In (InputEvent.mk c ty' p) (Keyboard.play ty maps pressed)) /\
  (forall (st : Keyboard.state) (ty ty' : InputEvent.transition) (pressed : string),
      ~ In (InputEvent.mk (Keyboard.c_key a) ty' (Keyboard.c_player a))
           (Keyboard.play ty (Keyboard.mappings (Keyboard.clearMapping a st)) pressed)) /\
  (forall p : string,
      JS.includes (JS.keys (default [] (JS.get maps (Keyboard.c_player a))))
                  (Keyboard.c_key a) = true ->
      JS.keys (default [] (JS.get (Keyboard.rebind maps a b) p))
      = JS.keys (default [] (JS.get maps p))).
Proof.
  assert (H1 : forall m b' (ty ty' : InputEvent.transition) (pressed c p : string),
      In (InputEvent.mk c ty' p) (Keyboard.play ty (Keyboard.rebind m a b') pressed)
      <-> if String.eqb p (Keyboard.c_player a) && String.eqb c (Keyboard.c_key a)
          then ty' = ty /\ (p = "p1" \/ p = "p2") /\ b' = Some pressed
          else In (InputEvent.mk c ty' p) (Keyboard.play ty m pressed)).
  { intros m b' ty ty' pressed c p. rewrite in_play, bindingOf_rebind.
    destruct (String.eqb p (Keyboard.c_player a) && String.eqb c (Keyboard.c_key a));
      [|now rewrite in_play].
    split; intros (E1 & E2 & E3); (split; [exact E1|split; [exact E2|]]);
      [now injection E3|now rewrite E3]. }
  split; [apply H1|]. split.
  - intros st ty ty' pressed Hin. unfold Keyboard.clearMapping in Hin.
    cbn [Keyboard.mappings] in Hin. apply H1 in Hin.
    rewrite !String.eqb_refl in Hin. cbn [andb] in Hin.
    now destruct Hin as (_ & _ & ?).
  - intros p Hk. unfold Keyboard.rebind. rewrite get_set.
    destruct (String.eqb_spec p (Keyboard.c_player a)) as [->|]; [|reflexivity].
    change (default [] (Some ?x)) with x. now rewrite keys_set, Hk.
Qed.

Lemma keyboard_rebind_touches_one_control_witness :
  let maps := Keyboard.ofMapping MappingStore.defaultMappings in
  let a := Keyboard.mkControl "p1" "x" in
  JS.keys (default [] (JS.get (Keyboard.rebind maps a None) "p1"))
  = JS.keys (default [] (JS.get maps "p1")) /\
  Keyboard.play InputEvent.down (Keyboard.rebind maps a None) "KeyI"
  = [InputEvent.mk "a" InputEvent.down "p2"].
Proof.
  intros maps a.
  destruct (keyboard_rebind_touches_one_control maps a None) as (_ & _ & H3).
  split; [apply H3|]; reflexivity.
Defined.

(** ** Stored mappings: what the initializer returns *)

Lemma finiteNumbers_reparsed (v : MappingStore.json) :
  finiteNumbers v = true -> MappingStore.reparsed v = v.
Proof.
  revert v. fix IH 1. intros [ |b|[q| | |]|t|l|o]; try reflexivity;
    try discriminate.
  - cbn [finiteNumbers MappingStore.reparsed]. intros H. f_equal.
    induction l as [|x r IHl]; [reflexivity|].
    cbn [forallb] in H. apply andb_true_iff in H as [Hx Hr].
    cbn [List.map]. now rewrite (IH x Hx), (IHl Hr).
  - cbn [finiteNumbers MappingStore.reparsed]. intros H. f_equal.
    induction o as [|[k x] r IHo]; [reflexivity|].
    cbn [forallb] in H. apply andb_true_iff in H as [Hx Hr].
    cbn [List.map]. now rewrite (IH x Hx), (IHo Hr).
Qed.

(** X5.  Whatever the store holds, the initializer returns an object with
    an own member [p1] and a truthy member [p2].  Written back and read
    again, the value comes back as the serialiser and the parser make it
    (a number that is not finite becomes [null]) when its [p1] and [p2]
    are then truthy, and otherwise is wrapped once more as player 1's
    mapping.  So a value whose numbers are all finite is stable when its
    [p1] is truthy, and a stored [p1] of [1e400], which parses to infinity
    and is truthy, is written back as [null] and wrapped at the next
    read. *)
Theorem stored_mappings_shape_and_reload
    (ls ls' : MappingStore.localStorage) :
  (exists o, MappingStore.load ls = MappingStore.JObj o /\
             MappingStore.hasKey o "p1" = true /\
             MappingStore.truthy (JS.get o "p2") = true) /\
  (MappingStore.getItemThrows ls' = false ->
   MappingStore.setItemThrows ls' = false ->
   MappingStore.load (MappingStore.persist (MappingStore.load ls) ls')
   = let v := MappingStore.reparsed (MappingStore.load ls) in
     if MappingStore.truthy (MappingStore.member v "p1")
        && MappingStore.truthy (MappingStore.member v "p2")
     then v
     else MappingStore.JObj
            [ ("p1", v);
              ("p2", MappingStore.encodeMap
                       (MappingStore.p2 MappingStore.defaultMappings)) ]) /\
  (MappingStore.getItemThrows ls' = false ->
   MappingStore.setItemThrows ls' = false ->
   finiteNumbers (MappingStore.load ls) = true ->
   MappingStore.load (MappingStore.persist (MappingStore.load ls) ls')
   = if MappingStore.truthy (MappingStore.member (MappingStore.load ls) "p1")
     then MappingStore.load ls
     else MappingStore.JObj
            [ ("p1", MappingStore.load ls);
              ("p2", MappingStore.encodeMap
                       (MappingStore.p2 MappingStore.defaultMappings)) ]).
Proof.
  assert (Hshape : exists o, MappingStore.load ls = MappingStore.JObj o /\
             MappingStore.hasKey o "p1" = true /\
             MappingStore.truthy (JS.get o "p2") = true).
  { unfold MappingStore.load.
    destruct (MappingStore.getItemThrows ls);
      [eexists; split; [reflexivity|split; reflexivity]|].
    destruct (MappingStore.item ls) as [[| |parsed]|];
      try (eexists; split; [reflexivity|split; reflexivity]).
    destruct (MappingStore.truthy (Some parsed)
              && MappingStore.truthy (MappingStore.member parsed "p1")
              && MappingStore.truthy (MappingStore.member parsed "p2")) eqn:E;
      [|eexists; split; [reflexivity|split; reflexivity]].
    apply andb_true_iff in E as [E E2]. apply andb_true_iff in E as [_ E1].
    destruct parsed as [ | | | | |o]; try discriminate.
    exists o. cbn [MappingStore.member] in E1, E2.
    split; [reflexivity|]. split; [|exact E2].
    unfold MappingStore.hasKey. now destruct (JS.get o "p1"). }
  assert (Hreload : MappingStore.getItemThrows ls' = false ->
            MappingStore.setItemThrows ls' = false ->
            MappingStore.load (MappingStore.persist (MappingStore.load ls) ls')
            = let v := MappingStore.reparsed (MappingStore.load ls) in
              if MappingStore.truthy (MappingStore.member v "p1")
                 && MappingStore.truthy (MappingStore.member v "p2")
              then v
              else MappingStore.JObj
                     [ ("p1", v);
                       ("p2", MappingStore.encodeMap
                                (MappingStore.p2 MappingStore.defaultMappings)) ]).
  { intros Hg Hs. destruct Hshape as (o & -> & _ & _).
    unfold MappingStore.persist. rewrite Hs.
    unfold MappingStore.load at 1.
    cbn [MappingStore.getItemThrows MappingStore.item]. rewrite Hg.
    reflexivity. }
  split; [exact Hshape|]. split; [exact Hreload|].
  intros Hg Hs Hfin. rewrite (Hreload Hg Hs). cbn zeta.
  rewrite (finiteNumbers_reparsed _ Hfin).
  destruct Hshape as (o & -> & _ & H2). cbn [MappingStore.member].
  now rewrite H2, andb_true_r.
Qed.

Lemma stored_mappings_shape_and_reload_witness :
  let stored := MappingStore.JObj
                  [ ("p1", MappingStore.JNum JS.PInf);
                    ("p2", MappingStore.JNum (JS.Fin 1)) ] in
  let ls := MappingStore.mkStorage
              (Some (MappingStore.Encodes stored)) false false in
  MappingStore.load ls = stored /\
  MappingStore.load (MappingStore.persist (MappingStore.load ls) ls)
  = MappingStore.JObj
      [ ("p1", MappingStore.JObj
                 [ ("p1", MappingStore.JNull);
                   ("p2", MappingStore.JNum (JS.Fin 1)) ]);
        ("p2", MappingStore.encodeMap
                 (MappingStore.p2 MappingStore.defaultMappings)) ].
Proof.
  intros stored ls. split; [reflexivity|].
  destruct (stored_mappings_shape_and_reload ls ls) as (_ & H & _).
  rewrite (H eq_refl eq_refl). reflexivity.
Defined.

(** ** Button identifiers *)

Lemma valid_button_not_prefixed (b b' : string) :
  ButtonTable.isValidButton b' = true -> ("P2_" ++ b)%string <> b'.
Proof.
  intros H. apply includes_In in H.
  change ("P2_" ++ b)%string with (String "P" (String "2" (String "_" b))).
  cbn in H. intuition (subst; discriminate).
Qed.

(** X6.  On the buttons of the table the engine identifier tells button and
    player apart: two valid buttons get the same identifier only when they
    are the same button and both or neither is for player 2; and the
    identifier of a valid button for player 2 is itself not a valid
    button. *)
Theorem toCoreId_separates_buttons_and_players
    (b b' : string) (p p' : option Z) :
  ButtonTable.isValidButton b = true ->
  ButtonTable.isValidButton b' = true ->
  (InputMapping.toCoreId b p = InputMapping.toCoreId b' p' ->
   b = b' /\ (p = Some 2%Z <-> p' = Some 2%Z)) /\
  ButtonTable.isValidButton (InputMapping.toCoreId b (Some 2%Z)) = false.
Proof.
  intros Hb Hb'. split.
  - unfold InputMapping.toCoreId.
    assert (Hp : forall q : option Z,
               (match q with None => 1%Z | Some z => z end =? 2)%Z = true
               <-> q = Some 2%Z).
    { intros [z|]; [|split; discriminate].
      rewrite Z.eqb_eq. split; [now intros ->|now intros [= ->]]. }
    destruct (match p with None => 1%Z | Some z => z end =? 2)%Z eqn:E;
      destruct (match p' with None => 1%Z | Some z => z end =? 2)%Z eqn:E';
      intros H.
    + apply Hp in E, E'. split; [|tauto].
      change (String "P" (String "2" (String "_" b))
              = String "P" (String "2" (String "_" b'))) in H.
      now injection H.
    + exfalso. exact (valid_button_not_prefixed b b' Hb' H).
    + exfalso. symmetry in H. exact (valid_button_not_prefixed b' b Hb H).
    + split; [exact H|]. rewrite <- !Hp, E, E'. tauto.
  - cbn [InputMapping.toCoreId Z.eqb Pos.eqb].
    destruct (ButtonTable.isValidButton ("P2_" ++ b)) eqn:E; [|reflexivity].
    exfalso. exact (valid_button_not_prefixed b _ E eq_refl).
Qed.

Lemma toCoreId_separates_buttons_and_players_witness :
  ButtonTable.isValidButton (InputMapping.toCoreId "a" (Some 2%Z)) = false.
Proof.
  apply (toCoreId_separates_buttons_and_players "a" "b" None None);
    reflexivity.
Defined.

(** ** Detection and the archive scan on file names *)

Section FileNames.
Import ConsoleProfileTable.

Lemma lower_ascii_dot (c : ascii) :
  Ascii.eqb (JS.lower_ascii c) "." = Ascii.eqb c ".".
Proof. destruct c as [[] [] [] [] [] [] [] []]; reflexivity. Qed.

Lemma lower_ascii_idem (c : ascii) :
  JS.lower_ascii (JS.lower_ascii c) = JS.lower_ascii c.
Proof. destruct c as [[] [] [] [] [] [] [] []]; reflexivity. Qed.

Lemma toLowerCase_idem (s : string) :
  JS.toLowerCase (JS.toLowerCase s) = JS.toLowerCase s.
Proof.
  induction s as [|c r IH]; [reflexivity|].
  cbn [JS.toLowerCase]. now rewrite lower_ascii_idem, IH.
Qed.

Lemma toLowerCase_empty (s : string) :
  String.eqb (JS.toLowerCase s) "" = String.eqb s "".
Proof. now destruct s. Qed.

Lemma split_not_nil (sep : ascii) (s : string) : JS.split sep s <> [].
Proof.
  destruct s as [|c r]; [discriminate|]. cbn [JS.split].
  destruct (Ascii.eqb c sep); [discriminate|].
  destruct (JS.split sep r); discriminate.
Qed.

Lemma split_toLowerCase (s : string) :
  JS.split "." (JS.toLowerCase s) = List.map JS.toLowerCase (JS.split "." s).
Proof.
  induction s as [|c r IH]; [reflexivity|].
  cbn [JS.toLowerCase JS.split]. rewrite lower_ascii_dot, IH.
  destruct (Ascii.eqb c "."); [reflexivity|].
  destruct (JS.split "." r); reflexivity.
Qed.

Lemma split_dotless (s : string) : dotless s -> JS.split "." s = [s].
Proof.
  unfold dotless. induction s as [|c r IH]; [reflexivity|].
  cbn [hasChar JS.split]. intros H. apply orb_false_iff in H as [Hc Hr].
  now rewrite Hc, (IH Hr).
Qed.

Lemma split_app_dot (a e : string) :
  JS.split "." (a ++ String "." e) = JS.split "." a ++ JS.split "." e.
Proof.
  induction a as [|c r IH].
  - reflexivity.
  - change (String c r ++ String "." e)%string
      with (String c (r ++ String "." e)%string).
    cbn [JS.split]. rewrite IH.
    destruct (Ascii.eqb c "."); [reflexivity|].
    pose proof (split_not_nil "." r) as Hne.
    destruct (JS.split "." r) as [|seg segs]; [contradiction|reflexivity].
Qed.

Lemma pop_app_one (l : list string) (x : string) : JS.pop (l ++ [x]) = x.
Proof. unfold JS.pop. apply last_last. Qed.

(** The segments of a name that ends in a dot and a dot-free suffix. *)
Lemma split_suffix (stem e : string) :
  dotless e ->
  JS.split "." (stem ++ String "." e) = JS.split "." stem ++ [e].
Proof. intros H. now rewrite split_app_dot, (split_dotless e H). Qed.

Lemma extensionOf_suffix (stem e : string) :
  dotless e ->
  extensionOf (stem ++ String "." e)
  = if String.eqb e "" then None else Some (JS.toLowerCase e).
Proof.
  intros H. unfold extensionOf.
  rewrite split_toLowerCase, (split_suffix stem e H), List.map_app.
  cbn [List.map].
  pose proof (split_not_nil "." stem) as Hne.
  destruct (JS.split "." stem) as [|s0 segs]; [contradiction|].
  cbn [List.map app].
  destruct (List.map JS.toLowerCase segs ++ [JS.toLowerCase e]) eqn:E.
  - destruct (List.map JS.toLowerCase segs); discriminate.
  - rewrite <- E.
    change (JS.toLowerCase s0 :: List.map JS.toLowerCase segs ++ [JS.toLowerCase e])
      with ((JS.toLowerCase s0 :: List.map JS.toLowerCase segs) ++ [JS.toLowerCase e]).
    now rewrite pop_app_one, toLowerCase_empty.
Qed.

Lemma extensionOf_dotless (fn : string) : dotless fn -> extensionOf fn = None.
Proof.
  intros H. unfold extensionOf.
  now rewrite split_toLowerCase, (split_dotless fn H).
Qed.

Lemma entryExtension_suffix (stem e : string) :
  dotless e ->
  Session.entryExtension (stem ++ String "." e) = String "." (JS.toLowerCase e).
Proof.
  intros H. unfold Session.entryExtension.
  now rewrite (split_suffix stem e H), pop_app_one.
Qed.

Lemma entryExtension_dotless (fn : string) :
  dotless fn -> Session.entryExtension fn = String "." (JS.toLowerCase fn).
Proof.
  intros H. unfold Session.entryExtension.
  now rewrite (split_dotless fn H).
Qed.

Lemma scan_extensions_are_keys :
  forallb (fun e => match JS.get consoleMap e with
                    | Some _ => true
                    | None => false
                    end)
          (List.map undot Session.allRomExtensions) = true.
Proof. vm_compute. reflexivity. Qed.

Lemma scan_extension_key (x : string) :
  JS.includes Session.allRomExtensions (String "." x) = true ->
  exists p, JS.get consoleMap x = Some p.
Proof.
  intros H. apply (includes_dotted _ x) in H.
  pose proof scan_extensions_are_keys as Hall.
  rewrite forallb_forall in Hall. specialize (Hall _ H).
  destruct (JS.get consoleMap x) as [p|]; [now exists p|discriminate].
Qed.

End FileNames.

(** X7.  Detection reads only the text after the last dot of the name and
    ignores case: a name ending in a dot and a dot-free suffix is detected
    by that suffix in lower case (by nothing when the suffix is empty), a
    name without any dot gets the default profile, and a name and its
    lower-case form are detected alike. *)
Theorem detection_reads_last_suffix_ignoring_case :
  (forall stem e : string,
      dotless e ->
      ConsoleProfileTable.detectConsoleFromFile (stem ++ String "." e)
      = ConsoleProfileTable.profileFor
          (if String.eqb e "" then None else Some (JS.toLowerCase e))) /\
  (forall fn : string,
      dotless fn ->
      ConsoleProfileTable.detectConsoleFromFile fn
      = ConsoleProfileTable.Profile ConsoleProfileTable.defaultProfile) /\
  (forall fn : string,
      ConsoleProfileTable.detectConsoleFromFile (JS.toLowerCase fn)
      = ConsoleProfileTable.detectConsoleFromFile fn).
Proof.
  split; [|split].
  - intros stem e H. unfold ConsoleProfileTable.detectConsoleFromFile.
    now rewrite extensionOf_suffix.
  - intros fn H. unfold ConsoleProfileTable.detectConsoleFromFile.
    now rewrite extensionOf_dotless.
  - intros fn.
    unfold ConsoleProfileTable.detectConsoleFromFile,
      ConsoleProfileTable.extensionOf.
    now rewrite toLowerCase_idem.
Qed.

Lemma detection_reads_last_suffix_ignoring_case_witness :
  ConsoleProfileTable.core_of
    (ConsoleProfileTable.detectConsoleFromFile ("my.game.v2" ++ String "." "GBA"))
  = Some "mgba" /\
  ConsoleProfileTable.detectConsoleFromFile "nes"
  = ConsoleProfileTable.Profile ConsoleProfileTable.defaultProfile.
Proof.
  destruct detection_reads_last_suffix_ignoring_case as (H1 & H2 & _).
  split.
  - rewrite (H1 "my.game.v2" "GBA" eq_refl). reflexivity.
  - apply H2. reflexivity.
Defined.

(** X8.  The scan and detection agree on dotted names and differ on
    dot-free ones.  An entry whose name ends in a dot and a dot-free suffix
    is accepted by the scan by that suffix in lower case, and every such
    accepted entry is detected from the table, as a profile that lists the
    suffix.  An entry whose whole name is dot-free is tested by the scan
    as if the name were its own extension, while detection gives it the
    default profile: the entry [nes] is taken as the ROM and launched with
    the default core. *)
Theorem scan_and_detection_on_entry_names :
  (forall (stem e : string) (file : Engine.zipEntry),
      dotless e ->
      isCandidate ((stem ++ String "." e)%string, file) = true ->
      exists p,
        ConsoleProfileTable.detectConsoleFromFile (stem ++ String "." e)
        = ConsoleProfileTable.Profile p /\
        ConsoleProfileTable.inAliasSet (JS.toLowerCase e) p = true /\
        In p ConsoleProfileTable.tableProfiles) /\
  (forall (fn : string) (file : Engine.zipEntry),
      dotless fn ->
      isCandidate (fn, file)
      = negb (Engine.dir file)
        && JS.includes Session.allRomExtensions (String "." (JS.toLowerCase fn)) /\
      ConsoleProfileTable.detectConsoleFromFile fn
      = ConsoleProfileTable.Profile ConsoleProfileTable.defaultProfile) /\
  (forall (isMobile : bool) (zip : Engine.File) (s : Session.state),
      JS.endsWith (JS.toLowerCase (Engine.name zip)) ".zip" = true ->
      let entries := [("nes", Engine.mkEntry false (Eff.Returned "rom"))] in
      let r := Session.onRomSelected isMobile (fun _ => Engine.Archive entries)
                 (Some zip) s in
      Eff.trace_of r
      = [Engine.LaunchCall
           (Engine.mkConfig (Some "snes9x") (Engine.mkFile "nes" "rom") isMobile)]).
Proof.
  split; [|split].
  - intros stem e file He Hc. unfold isCandidate in Hc. cbn [fst snd] in Hc.
    apply andb_true_iff in Hc as [_ Hc].
    rewrite (entryExtension_suffix stem e He) in Hc.
    destruct (scan_extension_key _ Hc) as [p Hp].
    exists p. unfold ConsoleProfileTable.detectConsoleFromFile.
    rewrite (extensionOf_suffix stem e He).
    destruct (String.eqb_spec e "") as [->|Hne].
    + vm_compute in Hp. discriminate Hp.
    + destruct (consoleMap_key _ p Hp) as (Ha & Hin & _).
      split; [now apply profileFor_key|]. now split.
  - intros fn file H. unfold isCandidate. cbn [fst snd].
    rewrite (entryExtension_dotless fn H). split; [reflexivity|].
    unfold ConsoleProfileTable.detectConsoleFromFile.
    now rewrite extensionOf_dotless.
  - intros isMobile zip s Hzip entries r. subst r entries.
    unfold Session.onRomSelected. rewrite Hzip. reflexivity.
Qed.

Lemma scan_and_detection_on_entry_names_witness :
  exists p,
    ConsoleProfileTable.detectConsoleFromFile ("Mario" ++ String "." "NES")
    = ConsoleProfileTable.Profile p /\
    ConsoleProfileTable.inAliasSet "nes" p = true.
Proof.
  destruct scan_and_detection_on_entry_names as (H1 & _ & _).
  destruct (H1 "Mario" "NES" (Engine.mkEntry false (Eff.Returned "rom"))
              eq_refl eq_refl) as (p & Hd & Ha & _).
  exists p. split; [exact Hd|exact Ha].
Defined.

(** ** Archive ingestion: failures and the first candidate *)

Section Ingestion.
Import Session Engine Eff.
Variable isMobile : bool.
Variable loadAsync : File -> archive.



Lemma extract_first_candidate (zip : File)
    (before after : list (string * zipEntry)) (fn : string) (file : zipEntry) :
  loadAsync zip = Archive (before ++ (fn, file) :: after) ->
  forallb (fun kv => negb (isCandidate kv)) before = true ->
  isCandidate (fn, file) = true ->
  extractRomFromZip loadAsync zip
  = match data file with
    | Returned bytes => Returned (mkFile fn bytes)
    | Raised e => Raised e
    end.
Proof.
  intros Hload Hb Hc. unfold extractRomFromZip.
  rewrite Hload, findRom_skips by assumption.
  cbn [findRom]. unfold isCandidate in Hc. cbn [fst snd] in Hc. rewrite Hc.
  now destruct (data file).
Qed.

End Ingestion.



(** X10.  Extraction is decided by the first accepted entry alone.  With
    no accepted entry before it, the first entry the scan accepts is the
    ROM when its data can be read, and its read failure is the failure of
    the whole extraction when it cannot, whatever entries follow; a
    directory is never accepted, whatever its name. *)
Theorem extraction_decided_by_first_candidate
    (loadAsync : Engine.File -> Engine.archive) (zip : Engine.File)
    (before after : list (string * Engine.zipEntry))
    (fn : string) (file : Engine.zipEntry) :
  loadAsync zip = Engine.Archive (before ++ (fn, file) :: after) ->
  forallb (fun kv => negb (isCandidate kv)) before = true ->
  isCandidate (fn, file) = true ->
  Session.extractRomFromZip loadAsync zip
  = match Engine.data file with
    | Eff.Returned bytes => Eff.Returned (Engine.mkFile fn bytes)
    | Eff.Raised e => Eff.Raised e
    end /\
  Engine.dir file = false /\
  forall (d : string) (r : Eff.outcome string),
    Session.extractRomFromZip
      (fun _ => Engine.Archive ((d, Engine.mkEntry true r) :: before
                                ++ (fn, file) :: after)) zip
    = Session.extractRomFromZip loadAsync zip.
Proof.
  intros Hload Hb Hc. split; [|split].
  - apply (extract_first_candidate loadAsync zip before after fn file);
      assumption.
  - unfold isCandidate in Hc. cbn [fst snd] in Hc.
    apply andb_true_iff in Hc as [Hd _]. now apply negb_true_iff in Hd.
  - intros d r.
    rewrite (extract_first_candidate loadAsync zip before after fn file)
      by assumption.
    apply (extract_first_candidate _ zip ((d, Engine.mkEntry true r) :: before)
             after fn file); [reflexivity| |assumption].
    cbn [forallb]. now rewrite Hb.
Qed.

Lemma extraction_decided_by_first_candidate_witness :
  Session.extractRomFromZip
    (fun _ => Engine.Archive
                [ ("readme.txt", Engine.mkEntry false (Eff.Returned "hello"));
                  ("a.sfc", Engine.mkEntry false (Eff.Raised (JS.Error "crc")));
                  ("b.sfc", Engine.mkEntry false (Eff.Returned "rom")) ])
    (Engine.mkFile "pack.zip" "")
  = Eff.Raised (JS.Error "crc").
Proof.
  apply (extraction_decided_by_first_candidate _ (Engine.mkFile "pack.zip" "")
           [("readme.txt", Engine.mkEntry false (Eff.Returned "hello"))]
           [("b.sfc", Engine.mkEntry false (Eff.Returned "rom"))]
           "a.sfc" (Engine.mkEntry false (Eff.Raised (JS.Error "crc"))));
    reflexivity.
Defined.

(** ** Status and handle over a session *)

Section SessionInvariants.
Import Session Engine Eff.
Variable isMobile : bool.
Variable loadAsync : File -> archive.

(** What one event does to the component state. *)
Lemma step_comp (w : world) (ev : event) :
  comp (step isMobile loadAsync w ev)
  = match ev with
    | RomSelected f => state_of (onRomSelected isMobile loadAsync f (comp w))
    | LaunchRequested file dc =>
        state_of (launchWithRomFile_begin isMobile file dc (comp w))
    | LaunchSettles r =>
        match inFlight w with
        | [] => comp w
        | _ :: _ =>
            match r with
            | inl c => state_of (launchWithRomFile_resume
                                   (Launched (mkEngine (nextId w) c)) (comp w))
            | inr err => state_of (launchWithRomFile_resume (Rejected err) (comp w))
            end
        end
    | SaveStateClicked => state_of (Session.saveState (comp w))
    | LoadStateSelected f => state_of (onLoadStateFile f (comp w))
    | Unmounted => state_of (teardown (comp w))
    end.
Proof.
  destruct ev as [f|file dc|[c|err]| |f|]; cbn [step].
  - now destruct (onRomSelected isMobile loadAsync f (comp w)) as [[r s] t].
  - now destruct (launchWithRomFile_begin isMobile file dc (comp w)) as [[r s] t].
  - now destruct (inFlight w).
  - now destruct (inFlight w).
  - now destruct (Session.saveState (comp w)) as [[r s] t].
  - now destruct (onLoadStateFile f (comp w)) as [[r s] t].
  - now destruct (teardown (comp w)) as [[r s] t].
Qed.

Lemma begin_status (file : option File) (dc : option string) (s : state) :
  let s' := state_of (launchWithRomFile_begin isMobile file dc s) in
  s' = s \/ status s' = loading.
Proof. destruct file; [now right|now left]. Qed.

Lemma onRomSelected_status (f : option File) (s : state) :
  let s' := state_of (onRomSelected isMobile loadAsync f s) in
  s' = s \/ status s' = loading \/ status s' = error.
Proof.
  destruct f as [f|]; [|now left]. right.
  unfold onRomSelected, extractRomFromZip.
  destruct (JS.endsWith (JS.toLowerCase (name f)) ".zip"); [|now left].
  destruct (loadAsync f) as [e|files]; [now right|].
  destruct (findRom files) as [[rom|]|[e| |]];
    [now left|now right|now right|now left|now left].
Qed.

Lemma teardown_status (s : state) :
  status (state_of (teardown s)) = status s.
Proof.
  unfold teardown, bind, get.
  destruct (nostalgistRef s) as [n|]; [|reflexivity].
  destruct (exit (caps n)) as [[e|]|]; reflexivity.
Qed.

(** The status after an event is the status before it, [loading],
    [running] or [error]; it is [running] only if it was before or a
    handle has just been stored. *)
Lemma step_status (w : world) (ev : event) :
  let s := comp w in
  let s' := comp (step isMobile loadAsync w ev) in
  (status s' = status s /\
   (staysMounted ev = true -> nostalgistRef s' = nostalgistRef s)) \/
  (status s' = loading /\ nostalgistRef s' = nostalgistRef s) \/
  (status s' = error /\ nostalgistRef s' = nostalgistRef s) \/
  (status s' = running /\ nostalgistRef s' <> None).
Proof.
  cbn zeta. rewrite step_comp.
  destruct ev as [f|file dc|[c|err]| |f|].
  - pose proof (onRomSelected_keeps_ref isMobile loadAsync f (comp w)) as [Hr _].
    destruct (onRomSelected_status f (comp w)) as [H|[H|H]].
    + left. now rewrite H.
    + right. left. now split.
    + right. right. left. now split.
  - pose proof (begin_keeps_ref isMobile file dc (comp w)) as [Hr _].
    destruct (begin_status file dc (comp w)) as [H|H].
    + left. now rewrite H.
    + right. left. now split.
  - destruct (inFlight w); [now left|].
    right. right. right. now split.
  - destruct (inFlight w); [now left|].
    right. right. left. now split.
  - left. now rewrite (proj1 (saveState_keeps_state (comp w))).
  - left. now rewrite (proj1 (loadState_keeps_state f (comp w))).
  - left. split; [apply teardown_status|discriminate].
Qed.

Lemma run_cons (w : world) (ev : event) (evs : list event) :
  run isMobile loadAsync w (ev :: evs)
  = run isMobile loadAsync (step isMobile loadAsync w ev) evs.
Proof. reflexivity. Qed.

Lemma run_not_idle (evs : list event) (w : world) :
  status (comp w) <> idle ->
  status (comp (run isMobile loadAsync w evs)) <> idle.
Proof.
  revert w. induction evs as [|ev r IH]; intros w H; [exact H|].
  rewrite run_cons. apply IH.
  destruct (step_status w ev) as [[E _]|[[E _]|[[E _]|[E _]]]];
    rewrite E; try discriminate. exact H.
Qed.

Lemma run_keeps_handle (evs : list event) (w : world) :
  forallb staysMounted evs = true ->
  nostalgistRef (comp w) <> None ->
  nostalgistRef (comp (run isMobile loadAsync w evs)) <> None.
Proof.
  revert w. induction evs as [|ev r IH]; intros w Hm H; [exact H|].
  cbn [forallb] in Hm. apply andb_true_iff in Hm as [Hev Hr].
  rewrite run_cons. apply IH; [assumption|].
  destruct (step_status w ev) as [[_ E]|[[_ E]|[[_ E]|[_ E]]]];
    try (rewrite E; auto); exact E.
Qed.

Lemma run_running_has_handle (evs : list event) (w : world) :
  forallb staysMounted evs = true ->
  (status (comp w) = running -> nostalgistRef (comp w) <> None) ->
  status (comp (run isMobile loadAsync w evs)) = running ->
  nostalgistRef (comp (run isMobile loadAsync w evs)) <> None.
Proof.
  revert w. induction evs as [|ev r IH]; intros w Hm H; [exact H|].
  cbn [forallb] in Hm. apply andb_true_iff in Hm as [Hev Hr].
  rewrite run_cons. apply IH; [assumption|].
  destruct (step_status w ev) as [[E1 E2]|[[E _]|[[E _]|[_ E]]]];
    try (rewrite E; discriminate).
  - rewrite E1, (E2 Hev). exact H.
  - intros _. exact E.
Qed.

End SessionInvariants.

(** X11.  Over any sequence of user actions and launch outcomes: once the
    status has left [idle] it never returns to it (not even at unmount);
    while the component stays mounted a stored engine handle is never
    dropped, a failed relaunch included; and, starting from the mounted
    component, the status is [running] only while a handle is stored. *)
Theorem session_status_and_handle_invariants
    (isMobile : bool) (loadAsync : Engine.File -> Engine.archive)
    (evs : list Session.event) (w : Session.world) :
  let w' := Session.run isMobile loadAsync w evs in
  (Session.status (Session.comp w) <> Session.idle ->
   Session.status (Session.comp w') <> Session.idle) /\
  (forallb staysMounted evs = true ->
   Session.nostalgistRef (Session.comp w) <> None ->
   Session.nostalgistRef (Session.comp w') <> None) /\
  (forallb staysMounted evs = true ->
   Session.status
     (Session.comp (Session.run isMobile loadAsync Session.mounted evs))
   = Session.running ->
   Session.nostalgistRef
     (Session.comp (Session.run isMobile loadAsync Session.mounted evs))
   <> None).
Proof.
  cbn zeta. split; [apply run_not_idle|]. split; [apply run_keeps_handle|].
  intros Hm. apply run_running_has_handle; [exact Hm|discriminate].
Qed.

Lemma session_status_and_handle_invariants_witness :
  let rom := Some (Engine.mkFile "game.sfc" "") in
  let c := Engine.mkCaps true true true None None None in
  let w0 := Session.run false (fun _ => Engine.NotAnArchive (JS.Error "no"))
              Session.mounted
              [ Session.RomSelected rom; Session.LaunchSettles (inl c) ] in
  let w := Session.run false (fun _ => Engine.NotAnArchive (JS.Error "no")) w0
             [ Session.RomSelected rom;
               Session.LaunchSettles (inr (JS.Error "core missing")) ] in
  Session.status (Session.comp w) <> Session.idle /\
  Session.nostalgistRef (Session.comp w) <> None.
Proof.
  intros rom c w0 w.
  destruct (session_status_and_handle_invariants false
              (fun _ => Engine.NotAnArchive (JS.Error "no"))
              [ Session.RomSelected rom;
                Session.LaunchSettles (inr (JS.Error "core missing")) ] w0)
    as (H1 & H2 & _).
  split.
  - apply H1. vm_compute. discriminate.
  - apply H2; [reflexivity|]. vm_compute. discriminate.
Defined.

(** ** Polling several devices *)


(** X12.  One poll of a snapshot holding several devices treats each of
    them on its own.  With the gates open and the devices at distinct
    indices, the events of the poll are, device after device in slot
    order, the edges of that device against the cache as it was before
    the poll; afterwards the cache holds the sampled state of every device
    of the snapshot and is unchanged for every other index.  Every event
    carries a button of the table, for player [p1] when it comes from the
    device of index 0 and for [p2] from any other device. *)
Theorem gamepad_devices_polled_independently
    (status : Session.status_t) (ref : option Engine.engine)
    (gps : list (option Gamepad.gamepad)) (st : Gamepad.gamepadState) :
  gateOpen status ref ->
  List.NoDup (List.map Gamepad.index (present gps)) ->
  let r := Gamepad.pollGamepad true status ref gps st in
  Eff.result_of r = Eff.Returned tt /\
  Eff.trace_of r = List.flat_map (deviceEdges st) (present gps) /\
  (forall gp, In gp (present gps) -> deviceSampled gp st (Eff.state_of r)) /\
  (forall j, ~ In j (List.map Gamepad.index (present gps)) ->
     Gamepad.axesOf (Eff.state_of r) j = Gamepad.axesOf st j /\
     forall idx, Gamepad.wasPressed (Eff.state_of r) j idx
                 = Gamepad.wasPressed st j idx) /\
  (forall ev, In ev (Eff.trace_of r) ->
     exists gp, In gp (present gps) /\
       InputEvent.player ev
       = (if Nat.eqb (Gamepad.index gp) 0 then "p1" else "p2") /\
       ButtonTable.isValidButton (InputEvent.control ev) = true).
Proof.
  intros Hgate Hnd r. subst r. rewrite (pollGamepad_open _ _ _ Hgate).
  destruct (pollEach_run gps st Hnd) as (st' & -> & Hout & Hin).
  cbn [Eff.result_of Eff.trace_of Eff.state_of fst snd].
  split; [reflexivity|]. split; [reflexivity|]. split; [exact Hin|].
  split; [exact Hout|].
  intros ev Hev. apply in_flat_map in Hev as (gp & Hgp & Hev).
  exists gp. split; [exact Hgp|]. now apply deviceEdges_player in Hev.
Qed.

Lemma gamepad_devices_polled_independently_witness :
  let held := Gamepad.mkButton true (JS.Fin 1) in
  let pad0 := Gamepad.mkPad 0 [held] [] in
  let pad1 := Gamepad.mkPad 1 [held] [JS.Fin 1] in
  Eff.trace_of (Gamepad.pollGamepad true Session.idle None
                  [Some pad0; None; Some pad1] Gamepad.fresh)
  = [ InputEvent.mk "b" InputEvent.down "p1";
      InputEvent.mk "b" InputEvent.down "p2";
      InputEvent.mk "right" InputEvent.down "p2" ].
Proof.
  intros held pad0 pad1.
  assert (Hg : gateOpen Session.idle None) by (intros H; discriminate H).
  assert (Hnd : List.NoDup (List.map Gamepad.index
                         (present [Some pad0; None; Some pad1]))).
  { cbn. repeat constructor; cbn; intuition discriminate. }
  destruct (gamepad_devices_polled_independently Session.idle None
              [Some pad0; None; Some pad1] Gamepad.fresh Hg Hnd)
    as (_ & Ht & _).
  rewrite Ht. reflexivity.
Defined.

(** ** The gates of the poll *)

Section PollGates.
Import Eff Gamepad.

Lemma connected_from (k : nat) (gps : list (option gamepad)) :
  List.flat_map
    (fun ig : nat * option gamepad =>
       match snd ig with Some _ => [fst ig] | None => [] end)
    (List.combine (List.seq k (List.length gps)) gps) = [] ->
  present gps = [].
Proof.
  revert k. induction gps as [|[gp|] r IH]; intros k H; [reflexivity| |].
  - discriminate H.
  - cbn [List.length List.seq List.combine List.flat_map snd app] in H.
    cbn [present List.flat_map app]. exact (IH (S k) H).
Qed.

Lemma pollGamepad_by_case (h : bool) (status : Session.status_t)
    (ref : option Engine.engine) (gps : list (option gamepad)) :
  gateOpen status ref ->
  pollGamepad h status ref gps = if h then pollEach gps else ret tt.
Proof.
  intros H. destruct h; [now apply pollGamepad_open|reflexivity].
Qed.

End PollGates.

(** X13.  The two gates of the poll never hide an input.  A presence flag
    computed by [checkGamepads] from the snapshot that is polled changes
    nothing: the poll does what it does with the flag set.  And in every
    state the mounted component can reach, whatever the user does and
    however launches end, the status test lets the poll through: the poll
    is the loop over the snapshot whenever the flag is set, in every
    status. *)
Theorem gamepad_poll_gates_are_transparent :
  (forall (status : Session.status_t) (ref : option Engine.engine)
          (gps : list (option Gamepad.gamepad)) (st : Gamepad.gamepadState),
      Gamepad.pollGamepad (GamepadPresence.checkGamepads gps) status ref gps st
      = Gamepad.pollGamepad true status ref gps st) /\
  (forall (isMobile : bool) (loadAsync : Engine.File -> Engine.archive)
          (evs : list Session.event) (h : bool)
          (gps : list (option Gamepad.gamepad)),
      forallb staysMounted evs = true ->
      let s := Session.comp (Session.run isMobile loadAsync Session.mounted evs) in
      Gamepad.pollGamepad h (Session.status s) (Session.nostalgistRef s) gps
      = if h then pollEach gps else Eff.ret tt).
Proof.
  split.
  - intros status ref gps st.
    destruct (GamepadPresence.checkGamepads gps) eqn:E; [reflexivity|].
    unfold GamepadPresence.checkGamepads, GamepadPresence.connected in E.
    apply Nat.ltb_ge in E.
    destruct (List.flat_map _ _) eqn:Ec in E; [|cbn in E; lia].
    apply connected_from in Ec.
    unfold Gamepad.pollGamepad. cbn [negb].
    destruct (match status with Session.running => _ | _ => _ end);
      [reflexivity|].
    symmetry. exact (pollEach_none gps st Ec).
  - intros isMobile loadAsync evs h gps Hm s. subst s.
    apply pollGamepad_by_case. unfold gateOpen.
    apply run_running_has_handle; [exact Hm|discriminate].
Qed.

Lemma gamepad_poll_gates_are_transparent_witness :
  let rom := Some (Engine.mkFile "game.sfc" "") in
  let s := Session.comp
             (Session.run false (fun _ => Engine.NotAnArchive (JS.Error "no"))
                Session.mounted [Session.RomSelected rom]) in
  Session.status s = Session.loading /\
  forall gps,
    Gamepad.pollGamepad true (Session.status s) (Session.nostalgistRef s) gps
    = pollEach gps.
Proof.
  intros rom s. split; [reflexivity|]. intros gps.
  destruct gamepad_poll_gates_are_transparent as [_ H].
  apply (H false (fun _ => Engine.NotAnArchive (JS.Error "no"))
           [Session.RomSelected rom] true gps).
  reflexivity.
Defined.

(** ** The stick *)

Lemma opposite_never_both (v : JS.num) :
  Gamepad.leftActive v && Gamepad.rightActive v = false /\
  Gamepad.upActive v && Gamepad.downActive v = false.
Proof.
  unfold Gamepad.leftActive, Gamepad.rightActive, Gamepad.upActive,
    Gamepad.downActive, JS.gt, JS.lt, Gamepad.DEADZONE.
  destruct v as [q| | |]; try (split; reflexivity).
  assert (H : JS.Qltb q (- 0.25) && JS.Qltb 0.25 q = false).
  { destruct (JS.Qltb q (- 0.25)) eqn:E1; [|reflexivity].
    destruct (JS.Qltb 0.25 q) eqn:E2; [|reflexivity].
    apply Qltb_lt in E1, E2. exfalso.
    apply (Qlt_irrefl q). apply (Qlt_trans _ (- 0.25)); [assumption|].
    apply (Qlt_trans _ 0.25); [reflexivity|assumption]. }
  now split.
Qed.

(** X14.  After any poll of a device the cached stick state of that device
    never holds two opposite directions, whatever the axes report
    (infinities and NaN included), and a device that reports no axes, or
    NaN on both, is cached with the stick centred.  (The d-pad buttons 12
    to 15 are cached one by one and carry no such guarantee.) *)
Theorem stick_state_never_holds_opposite_directions
    (st : Gamepad.gamepadState) (gp : Gamepad.gamepad) :
  let a := Gamepad.axesOf (Eff.state_of (Gamepad.pollDevice gp st))
                          (Gamepad.index gp) in
  Gamepad.ax_left a && Gamepad.ax_right a = false /\
  Gamepad.ax_up a && Gamepad.ax_down a = false /\
  ((nth_error (Gamepad.axes gp) 0 = None \/
    nth_error (Gamepad.axes gp) 0 = Some JS.NaN) ->
   (nth_error (Gamepad.axes gp) 1 = None \/
    nth_error (Gamepad.axes gp) 1 = Some JS.NaN) ->
   a = Gamepad.mkAxes false false false false).
Proof.
  destruct (pollDevice_run gp st) as (st' & Hrun & Hnow & _).
  rewrite Hrun. cbn [Eff.state_of fst snd]. rewrite Hnow.
  unfold stickNow. cbn [Gamepad.ax_left Gamepad.ax_right Gamepad.ax_up Gamepad.ax_down].
  split; [apply opposite_never_both|]. split; [apply opposite_never_both|].
  intros [-> | ->] [-> | ->]; reflexivity.
Qed.

Lemma stick_state_never_holds_opposite_directions_witness :
  let gp := Gamepad.mkPad 0 [] [JS.NaN] in
  Gamepad.axesOf (Eff.state_of (Gamepad.pollDevice gp Gamepad.fresh)) 0
  = Gamepad.mkAxes false false false false.
Proof.
  intros gp.
  destruct (stick_state_never_holds_opposite_directions Gamepad.fresh gp)
    as (_ & _ & H).
  apply H; [now right|now left].
Defined.

(** ** Forwarding input events to the engine *)

Section Forward.
Import Forwarding.

Lemma onInput_call (n : Engine.engine) (m : CoreMappings.methods)
    (e : InputEvent.t) :
  onInput (Some (n, m)) e
  = if canForward n m (InputEvent.type e)
    then [ if Engine.has_press (Engine.caps n)
           then PressPayload (InputEvent.control e) (InputEvent.type e)
                             (playerIndex (InputEvent.player e))
           else match InputEvent.type e with
                | InputEvent.down =>
                    if Engine.has_pressDown (Engine.caps n)
                    then PressDownAt (InputEvent.control e)
                                     (playerIndex (InputEvent.player e))
                    else SendCommand (InputEvent.control e) InputEvent.down
                                     (playerIndex (InputEvent.player e))
                | InputEvent.up =>
                    if Engine.has_pressUp (Engine.caps n)
                    then PressUpAt (InputEvent.control e)
                                   (playerIndex (InputEvent.player e))
                    else SendCommand (InputEvent.control e) InputEvent.up
                                     (playerIndex (InputEvent.player e))
                end ]
    else [].
Proof.
  unfold onInput, canForward.
  destruct (Engine.has_press (Engine.caps n)); [reflexivity|].
  destruct (InputEvent.type e); cbn [orb].
  - destruct (Engine.has_pressDown (Engine.caps n)); [reflexivity|].
    now destruct (CoreMappings.has_sendCommand m).
  - destruct (Engine.has_pressUp (Engine.caps n)); [reflexivity|].
    now destruct (CoreMappings.has_sendCommand m).
Qed.

Lemma onInput_carries (ref : option (Engine.engine * CoreMappings.methods))
    (e : InputEvent.t) (c : forwarded) :
  In c (onInput ref e) ->
  onInput ref e = [c] /\
  callControl c = InputEvent.control e /\
  callType c = InputEvent.type e /\
  callPlayer c = playerIndex (InputEvent.player e).
Proof.
  destruct ref as [[n m]|]; [|intros []].
  rewrite onInput_call.
  destruct (canForward n m (InputEvent.type e)); [|intros []].
  intros [<-|[]]. split; [reflexivity|].
  destruct (Engine.has_press (Engine.caps n)); [now repeat split|].
  destruct (InputEvent.type e);
    [destruct (Engine.has_pressDown (Engine.caps n))
    |destruct (Engine.has_pressUp (Engine.caps n))];
    now repeat split.
Qed.

End Forward.

(** X15.  From a gamepad to the engine.  Every event a poll of a device
    dispatches is forwarded by the listener as at most one call on the
    engine, none without an instance and exactly one when the instance has
    a route for the transition; the call carries the event's control, a
    button of the table, and its transition, with player index 1 when the
    device has index 0 and player index 2 for every other device. *)
Theorem gamepad_events_reach_engine_with_player_index
    (ref : option (Engine.engine * CoreMappings.methods))
    (st : Gamepad.gamepadState) (gp : Gamepad.gamepad) (ev : InputEvent.t) :
  In ev (Eff.trace_of (Gamepad.pollDevice gp st)) ->
  (ref = None -> Forwarding.onInput ref ev = []) /\
  (forall n m, ref = Some (n, m) ->
     canForward n m (InputEvent.type ev) = true ->
     exists c, Forwarding.onInput ref ev = [c]) /\
  (forall c, In c (Forwarding.onInput ref ev) ->
     Forwarding.onInput ref ev = [c] /\
     callControl c = InputEvent.control ev /\
     ButtonTable.isValidButton (callControl c) = true /\
     callType c = InputEvent.type ev /\
     callPlayer c = (if Nat.eqb (Gamepad.index gp) 0 then 1 else 2)%Z).
Proof.
  intros Hev.
  destruct (pollDevice_run gp st) as (st' & Hrun & _).
  rewrite Hrun in Hev. cbn [Eff.trace_of snd] in Hev.
  apply (deviceEdges_player st gp ev) in Hev as [Hp Hc].
  split; [now intros ->|]. split.
  - intros n m -> Hroute. rewrite onInput_call, Hroute. eauto.
  - intros c Hin. destruct (onInput_carries ref ev c Hin) as (H1 & H2 & H3 & H4).
    split; [exact H1|]. split; [exact H2|]. split; [now rewrite H2|].
    split; [exact H3|]. rewrite H4, Hp. unfold playerOf.
    now destruct (Nat.eqb (Gamepad.index gp) 0).
Qed.

Lemma gamepad_events_reach_engine_with_player_index_witness :
  let n := Engine.mkEngine 0 (Engine.mkCaps true true false None None None) in
  let m := CoreMappings.mkMethods false false None None in
  let gp := Gamepad.mkPad 3 [Gamepad.mkButton true (JS.Fin 1)] [] in
  let ev := InputEvent.mk "b" InputEvent.down "p2" in
  Forwarding.onInput (Some (n, m)) ev = [Forwarding.PressDownAt "b" 2].
Proof.
  intros n m gp ev.
  assert (Hev : In ev (Eff.trace_of (Gamepad.pollDevice gp Gamepad.fresh)))
    by (now left).
  destruct (gamepad_events_reach_engine_with_player_index (Some (n, m))
              Gamepad.fresh gp ev Hev) as (_ & _ & H).
  destruct (H (Forwarding.PressDownAt "b" 2)) as (H1 & _); [now left|exact H1].
Defined.

(** X16.  In the predecessor component the listener and the on-screen
    controls address the engine alike: for an instance that has
    [pressDown] (respectively [pressUp]), a [down] (an [up]) event for a
    control and a player makes the listener issue the very call the
    on-screen press (release) of that control for that player issues,
    with the identifier [toCoreId] gives the control for player 2 when the
    player is [p2] and for player 1 otherwise. *)
Theorem legacy_listener_agrees_with_onscreen_controls
    (n : Engine.engine) (m : CoreMappings.methods) (c p : string)
    (s : VirtualControls.state) :
  let id := InputMapping.toCoreId c
              (Some (if String.eqb p "p2" then 2 else 1)%Z) in
  (Engine.has_pressDown (Engine.caps n) = true ->
   Forwarding.onInput_legacy (Some (n, m)) (InputEvent.mk c InputEvent.down p)
   = [Forwarding.ById (Engine.PressDown id)] /\
   Eff.trace_of (VirtualControls.handleVirtualPress (Some n) c (Some p) s)
   = [Engine.EngineCall (Engine.eid n) (Engine.PressDown id)]) /\
  (Engine.has_pressUp (Engine.caps n) = true ->
   Forwarding.onInput_legacy (Some (n, m)) (InputEvent.mk c InputEvent.up p)
   = [Forwarding.ById (Engine.PressUp id)] /\
   Eff.trace_of (VirtualControls.handleVirtualRelease (Some n) c (Some p) s)
   = [Engine.EngineCall (Engine.eid n) (Engine.PressUp id)]).
Proof.
  cbn zeta.
  assert (Hid : Forwarding.coreIdOf c p
                = InputMapping.toCoreId c
                    (Some (if String.eqb p "p2" then 2 else 1)%Z)).
  { unfold Forwarding.coreIdOf, InputMapping.toCoreId.
    now destruct (String.eqb p "p2"). }
  split; intros H.
  - unfold Forwarding.onInput_legacy, VirtualControls.handleVirtualPress.
    cbn [InputEvent.type InputEvent.control InputEvent.player].
    rewrite H, Hid. split; reflexivity.
  - unfold Forwarding.onInput_legacy, VirtualControls.handleVirtualRelease.
    cbn [InputEvent.type InputEvent.control InputEvent.player].
    rewrite H, Hid. split; reflexivity.
Qed.

Lemma legacy_listener_agrees_with_onscreen_controls_witness :
  let n := Engine.mkEngine 0 (Engine.mkCaps true true false None None None) in
  let m := CoreMappings.mkMethods false false None None in
  Forwarding.onInput_legacy (Some (n, m)) (InputEvent.mk "a" InputEvent.down "p2")
  = [Forwarding.ById (Engine.PressDown "P2_a")].
Proof.
  intros n m.
  destruct (legacy_listener_agrees_with_onscreen_controls n m "a" "p2"
              VirtualControls.initial) as [H _].
  destruct (H eq_refl) as [H1 _]. exact H1.
Defined.

(** ** Waiting for the core and reading its key table *)

Section CoreTable.
Import CoreMappings.

Lemma check_pending (h : bool) (obs : list observation) :
  check h obs = None -> Forall (pending h) obs.
Proof.
  induction obs as [|o r IH]; [constructor|].
  cbn [check]. destruct (h && isReady (reported o)) eqn:E; [discriminate|].
  destruct (5000 <? elapsed o)%Z eqn:E2; [discriminate|].
  intros H. constructor; [|now apply IH].
  split; [exact E|]. now apply Z.ltb_ge in E2.
Qed.

Lemma check_skips (h : bool) (pre rest : list observation) :
  Forall (pending h) pre -> check h (pre ++ rest) = check h rest.
Proof.
  induction 1 as [|o r [E1 E2] _ IH]; [reflexivity|].
  cbn [app check]. rewrite E1.
  apply Z.ltb_ge in E2. now rewrite E2.
Qed.

Lemma set_fresh {V} (o : list (string * V)) (k : string) (v : V) :
  ~ In k (JS.keys o) -> JS.set o k v = o ++ [(k, v)].
Proof.
  induction o as [|[k0 v0] r IH]; [reflexivity|].
  cbn [JS.keys List.map fst JS.set]. intros H.
  destruct (String.eqb_spec k k0) as [->|Hne]; [exfalso; apply H; now left|].
  cbn [app]. f_equal. apply IH. intros Hin. apply H. now right.
Qed.

Lemma addButton_fold (n : methods) (l : list string) (acc1 : list string) :
  List.NoDup (acc1 ++ l) ->
  fold_left (addButton n) l
    (mkCoreMap (List.map (fun b => (b, fst (lookupButton n b))) acc1)
               (List.map (fun b => (b, snd (lookupButton n b))) acc1))
  = mkCoreMap (List.map (fun b => (b, fst (lookupButton n b))) (acc1 ++ l))
              (List.map (fun b => (b, snd (lookupButton n b))) (acc1 ++ l)).
Proof.
  revert acc1. induction l as [|b r IH]; intros acc1 Hnd.
  - now rewrite app_nil_r.
  - cbn [fold_left]. unfold addButton at 2.
    destruct (lookupButton n b) as [v1 v2] eqn:E. cbn [cm_p1 cm_p2].
    assert (Hb : ~ In b acc1).
    { apply NoDup_remove_2 in Hnd. intros H. apply Hnd.
      apply in_or_app. now left. }
    rewrite !set_fresh
      by (unfold JS.keys; rewrite List.map_map; cbn [fst]; now rewrite List.map_id).
    replace (List.map (fun b0 => (b0, fst (lookupButton n b0))) acc1 ++ [(b, v1)])
      with (List.map (fun b0 => (b0, fst (lookupButton n b0))) (acc1 ++ [b]))
      by (rewrite List.map_app; cbn [List.map]; now rewrite E).
    replace (List.map (fun b0 => (b0, snd (lookupButton n b0))) acc1 ++ [(b, v2)])
      with (List.map (fun b0 => (b0, snd (lookupButton n b0))) (acc1 ++ [b]))
      by (rewrite List.map_app; cbn [List.map]; now rewrite E).
    rewrite IH; rewrite <- app_assoc; [reflexivity|exact Hnd].
Qed.

Lemma buttons_NoDup : List.NoDup buttons.
Proof.
  unfold buttons.
  repeat (constructor; [cbn; intuition discriminate|]). constructor.
Qed.

Lemma updateCoreMappings_answers (n : methods) (cell : option coreMap) :
  updateCoreMappings (Some n) cell = Some (answers n).
Proof.
  unfold updateCoreMappings, answers. f_equal.
  exact (addButton_fold n buttons [] buttons_NoDup).
Qed.

Lemma orNull_idem (v : option string) : orNull (orNull v) = orNull v.
Proof.
  destruct v as [s|]; [|reflexivity]. cbn [orNull].
  destruct (String.eqb s "") eqn:E; [reflexivity|]. cbn [orNull]. now rewrite E.
Qed.

Lemma orNull_not_empty (v : option string) : orNull v <> Some "".
Proof.
  destruct v as [s|]; [|discriminate]. cbn [orNull].
  destruct (String.eqb_spec s ""); [discriminate|congruence].
Qed.

Lemma askBoth_normal (f : keyboardCodeFn) (b : string) :
  orNull (fst (askBoth f b)) = fst (askBoth f b) /\
  orNull (snd (askBoth f b)) = snd (askBoth f b).
Proof.
  unfold askBoth. destruct (f b 1%Z); [|now split].
  destruct (f b 2%Z); [|now split]. cbn [fst snd]. split; apply orNull_idem.
Qed.

Lemma lookupButton_normal (n : methods) (b : string) :
  orNull (fst (lookupButton n b)) = fst (lookupButton n b) /\
  orNull (snd (lookupButton n b)) = snd (lookupButton n b).
Proof.
  unfold lookupButton.
  destruct (getKeyboardCode n) as [f|]; [apply askBoth_normal|].
  destruct (getEmscripten n) as [[[m|]|e]|]; try (now split).
  destruct (mod_getKeyboardCode m) as [f|]; [apply askBoth_normal|now split].
Qed.

Lemma lookupButton_blind (n : methods) (b : string) :
  noIntrospection n -> lookupButton n b = (None, None).
Proof.
  intros [H1 H2]. unfold lookupButton. rewrite H1.
  destruct (getEmscripten n) as [[[m|]|e]|]; try reflexivity. now rewrite H2.
Qed.

Lemma get_map_key {V} (F : string -> V) (l : list string) (b : string) :
  JS.get (List.map (fun b => (b, F b)) l) b
  = if JS.includes l b then Some (F b) else None.
Proof.
  induction l as [|x r IH]; [reflexivity|].
  cbn [List.map JS.get JS.includes existsb].
  destruct (String.eqb_spec b x) as [->|]; [reflexivity|]. exact IH.
Qed.

End CoreTable.

(** X17.  The wait for the core settles, and a ready status wins.  With
    checks at least 200 ms apart the wait has settled by its 27th check at
    the latest.  It resolves at the first check that sees one of the three
    ready statuses, even when that check comes after the five seconds,
    provided no earlier check came after them; and on an instance without
    [getStatus] it never resolves, so that it can only time out. *)
Theorem waitForCoreReady_settles
    (m : CoreMappings.methods) :
  (forall obs : list CoreMappings.observation,
      paced obs -> 27 <= List.length obs ->
      CoreMappings.waitForCoreReady (Some m) obs <> None) /\
  (forall (pre post : list CoreMappings.observation)
          (o : CoreMappings.observation),
      CoreMappings.has_getStatus m = true ->
      Forall (pending true) pre ->
      CoreMappings.isReady (CoreMappings.reported o) = true ->
      CoreMappings.waitForCoreReady (Some m) (pre ++ o :: post)
      = Some CoreMappings.Resolved) /\
  (forall (obs : list CoreMappings.observation) (s : CoreMappings.settled),
      CoreMappings.has_getStatus m = false ->
      CoreMappings.waitForCoreReady (Some m) obs = Some s ->
      s = CoreMappings.RejectedWith "timeout waiting for core").
Proof.
  split; [|split].
  - intros obs Hp Hlen H. cbn [CoreMappings.waitForCoreReady] in H.
    apply check_pending in H.
    destruct (nth_error obs 26) as [o|] eqn:E.
    + pose proof (Hp 26%nat o E) as Hlow.
      rewrite List.Forall_forall in H.
      destruct (H o (nth_error_In _ _ E)) as [_ Hhigh]. lia.
    + apply nth_error_None in E. lia.
  - intros pre post o Hg Hpre Hr. cbn [CoreMappings.waitForCoreReady].
    rewrite Hg, check_skips by assumption.
    cbn [CoreMappings.check]. now rewrite Hr.
  - intros obs s Hg. cbn [CoreMappings.waitForCoreReady]. rewrite Hg.
    induction obs as [|o r IH]; [discriminate|].
    cbn [CoreMappings.check andb].
    destruct (5000 <? CoreMappings.elapsed o)%Z; [now intros [= <-]|exact IH].
Qed.

Lemma waitForCoreReady_settles_witness :
  let m := CoreMappings.mkMethods false true None None in
  let late := CoreMappings.mkObs (Eff.Returned "running") 6000 in
  let early := CoreMappings.mkObs (Eff.Returned "booting") 0 in
  CoreMappings.waitForCoreReady (Some m) [early; late]
  = Some CoreMappings.Resolved.
Proof.
  intros m late early.
  destruct (waitForCoreReady_settles m) as (_ & H & _).
  apply (H [early] [] late); [reflexivity| |reflexivity].
  constructor; [|constructor]. split; [reflexivity|]. cbn. lia.
Defined.

(** X18.  The key table read from the core always has the same shape.
    Whatever the instance offers and however its queries end, the table
    lists the twelve buttons, in the loop's order, for both players; every
    value is a non-empty code or null.  A throw on either player's query
    for a button nulls that button for both players, also when the other
    query had answered; [getKeyboardCode] of the instance, when present,
    is used and the Emscripten module is not asked; and an instance with
    no means of introspection gives a table of nulls.  Without an instance
    the cell keeps its value. *)
Theorem core_table_shape (n : CoreMappings.methods)
    (cell : option CoreMappings.coreMap) :
  CoreMappings.updateCoreMappings None cell = cell /\
  exists cm,
    CoreMappings.updateCoreMappings (Some n) cell = Some cm /\
    JS.keys (CoreMappings.cm_p1 cm) = CoreMappings.buttons /\
    JS.keys (CoreMappings.cm_p2 cm) = CoreMappings.buttons /\
    (forall b, JS.get (CoreMappings.cm_p1 cm) b <> Some (Some "") /\
               JS.get (CoreMappings.cm_p2 cm) b <> Some (Some "")) /\
    (forall f b e,
        CoreMappings.getKeyboardCode n = Some f ->
        In b CoreMappings.buttons ->
        f b 1%Z = Eff.Raised e \/ f b 2%Z = Eff.Raised e ->
        JS.get (CoreMappings.cm_p1 cm) b = Some None /\
        JS.get (CoreMappings.cm_p2 cm) b = Some None) /\
    (forall f b v1 v2,
        CoreMappings.getKeyboardCode n = Some f ->
        In b CoreMappings.buttons ->
        f b 1%Z = Eff.Returned v1 -> f b 2%Z = Eff.Returned v2 ->
        JS.get (CoreMappings.cm_p1 cm) b = Some (CoreMappings.orNull v1) /\
        JS.get (CoreMappings.cm_p2 cm) b = Some (CoreMappings.orNull v2)) /\
    (noIntrospection n ->
     forall b, In b CoreMappings.buttons ->
       JS.get (CoreMappings.cm_p1 cm) b = Some None /\
       JS.get (CoreMappings.cm_p2 cm) b = Some None).
Proof.
  split; [reflexivity|].
  exists (answers n). split; [apply updateCoreMappings_answers|].
  assert (Hget : forall b, In b CoreMappings.buttons ->
             JS.get (CoreMappings.cm_p1 (answers n)) b
             = Some (fst (CoreMappings.lookupButton n b)) /\
             JS.get (CoreMappings.cm_p2 (answers n)) b
             = Some (snd (CoreMappings.lookupButton n b))).
  { intros b Hb. apply includes_In in Hb. unfold answers.
    cbn [CoreMappings.cm_p1 CoreMappings.cm_p2].
    now rewrite !get_map_key, Hb. }
  split; [reflexivity|]. split; [reflexivity|]. split; [|split; [|split]].
  - intros b. unfold answers. cbn [CoreMappings.cm_p1 CoreMappings.cm_p2].
    rewrite !get_map_key.
    destruct (JS.includes CoreMappings.buttons b); [|split; discriminate].
    destruct (lookupButton_normal n b) as [H1 H2].
    split; intros [= H].
    + rewrite <- H1 in H. exact (orNull_not_empty _ H).
    + rewrite <- H2 in H. exact (orNull_not_empty _ H).
  - intros f b e Hf Hb Hthrow. destruct (Hget b Hb) as [-> ->].
    unfold CoreMappings.lookupButton, CoreMappings.askBoth. rewrite Hf.
    destruct Hthrow as [-> | H2]; [now split|].
    rewrite H2. now destruct (f b 1%Z).
  - intros f b v1 v2 Hf Hb H1 H2. destruct (Hget b Hb) as [-> ->].
    unfold CoreMappings.lookupButton, CoreMappings.askBoth.
    now rewrite Hf, H1, H2.
  - intros Hblind b Hb. destruct (Hget b Hb) as [-> ->].
    now rewrite (lookupButton_blind n b Hblind).
Qed.

Lemma core_table_shape_witness :
  let f : CoreMappings.keyboardCodeFn :=
    fun b p => if Z.eqb p 2 then Eff.Raised (JS.Error "no player 2")
               else Eff.Returned (Some "KeyZ") in
  let n := CoreMappings.mkMethods false false (Some f) None in
  exists cm,
    CoreMappings.updateCoreMappings (Some n) None = Some cm /\
    JS.get (CoreMappings.cm_p1 cm) "a" = Some None.
Proof.
  intros f n.
  destruct (core_table_shape n None) as (_ & cm & Hcm & _ & _ & _ & Hthrow & _).
  exists cm. split; [exact Hcm|].
  destruct (Hthrow f "a" (JS.Error "no player 2") eq_refl) as [H _].
  - cbn. tauto.
  - now right.
  - exact H.
Defined.

Section Sync.
Import CoreMappings.

Lemma literal_fresh {V} (l acc : list (string * V)) :
  List.NoDup (JS.keys acc ++ JS.keys l) ->
  fold_left (fun o kv => JS.set o (fst kv) (snd kv)) l acc = acc ++ l.
Proof.
  revert acc. induction l as [|[k v] r IH]; intros acc Hnd.
  - now rewrite app_nil_r.
  - cbn [fold_left fst snd].
    rewrite set_fresh.
    + rewrite IH; [now rewrite <- app_assoc|].
      unfold JS.keys in *. rewrite List.map_app, <- app_assoc. exact Hnd.
    + apply NoDup_remove_2 in Hnd. intros H. apply Hnd.
      apply in_or_app. now left.
Qed.

Lemma synced_player (F : string -> option string) :
  JS.literal (List.map (fun kv => (fst kv, syncBinding (snd kv)))
                       (List.map (fun b => (b, F b)) buttons))
  = List.map (fun b => (b, orNull (F b))) buttons.
Proof.
  unfold JS.literal. rewrite List.map_map. cbn [fst snd].
  apply (literal_fresh _ []). cbn [JS.keys List.map app].
  unfold JS.keys. rewrite List.map_map. cbn [fst]. rewrite List.map_id.
  exact buttons_NoDup.
Qed.

Lemma sync_answers (n : methods) (maps : Keyboard.mappingsObj) :
  fst (syncToCore (Some (answers n)) maps)
  = [ ("p1", List.map (fun b => (b, fst (lookupButton n b))) buttons);
      ("p2", List.map (fun b => (b, snd (lookupButton n b))) buttons) ].
Proof.
  unfold syncToCore, answers. cbn [fst cm_p1 cm_p2].
  rewrite !synced_player.
  assert (E1 : List.map (fun b => (b, orNull (fst (lookupButton n b)))) buttons
               = List.map (fun b => (b, fst (lookupButton n b))) buttons).
  { apply List.map_ext. intros b.
    now rewrite (proj1 (lookupButton_normal n b)). }
  assert (E2 : List.map (fun b => (b, orNull (snd (lookupButton n b)))) buttons
               = List.map (fun b => (b, snd (lookupButton n b))) buttons).
  { apply List.map_ext. intros b.
    now rewrite (proj2 (lookupButton_normal n b)). }
  now rewrite E1, E2.
Qed.

End Sync.

(** X19.  Reading the core's table and syncing to it replaces the user's
    bindings wholesale.  After [updateCoreMappings] on an instance and a
    sync, the binding of every button of either player is what the core
    answered for it (a code, or nothing), whatever the mappings were
    before: a key dispatches a control exactly when the core answered that
    key's code for it.  On an instance without introspection the sync
    therefore leaves every button unbound and no key dispatches anything.
    With no table read yet the sync changes nothing and says so. *)
Theorem sync_to_core_replaces_bindings
    (n : CoreMappings.methods) (cell : option CoreMappings.coreMap)
    (maps : Keyboard.mappingsObj) :
  let synced :=
    fst (CoreMappings.syncToCore
           (CoreMappings.updateCoreMappings (Some n) cell) maps) in
  (forall b, In b CoreMappings.buttons ->
     Keyboard.bindingOf synced "p1" b
     = Some (fst (CoreMappings.lookupButton n b)) /\
     Keyboard.bindingOf synced "p2" b
     = Some (snd (CoreMappings.lookupButton n b))) /\
  (forall (ty ty' : InputEvent.transition) (pressed c : string),
     (In (InputEvent.mk c ty' "p1") (Keyboard.play ty synced pressed)
      <-> ty' = ty /\ In c CoreMappings.buttons /\
          fst (CoreMappings.lookupButton n c) = Some pressed) /\
     (In (InputEvent.mk c ty' "p2") (Keyboard.play ty synced pressed)
      <-> ty' = ty /\ In c CoreMappings.buttons /\
          snd (CoreMappings.lookupButton n c) = Some pressed)) /\
  (noIntrospection n ->
   forall ty pressed, Keyboard.play ty synced pressed = []) /\
  CoreMappings.syncToCore None maps = (maps, "Core mappings not available").
Proof.
  cbn zeta. rewrite updateCoreMappings_answers, sync_answers.
  assert (Hb : forall b,
             Keyboard.bindingOf
               [ ("p1", List.map (fun b => (b, fst (CoreMappings.lookupButton n b)))
                                 CoreMappings.buttons);
                 ("p2", List.map (fun b => (b, snd (CoreMappings.lookupButton n b)))
                                 CoreMappings.buttons) ] "p1" b
             = (if JS.includes CoreMappings.buttons b
                then Some (fst (CoreMappings.lookupButton n b)) else None) /\
             Keyboard.bindingOf
               [ ("p1", List.map (fun b => (b, fst (CoreMappings.lookupButton n b)))
                                 CoreMappings.buttons);
                 ("p2", List.map (fun b => (b, snd (CoreMappings.lookupButton n b)))
                                 CoreMappings.buttons) ] "p2" b
             = (if JS.includes CoreMappings.buttons b
                then Some (snd (CoreMappings.lookupButton n b)) else None)).
  { intros b. unfold Keyboard.bindingOf. cbn [JS.get String.eqb Ascii.eqb Bool.eqb].
    change (default [] (Some ?x)) with x. now rewrite !get_map_key. }
  assert (Hplay : forall (ty ty' : InputEvent.transition) (pressed c : string),
     (In (InputEvent.mk c ty' "p1")
         (Keyboard.play ty
            [ ("p1", List.map (fun b => (b, fst (CoreMappings.lookupButton n b)))
                              CoreMappings.buttons);
              ("p2", List.map (fun b => (b, snd (CoreMappings.lookupButton n b)))
                              CoreMappings.buttons) ] pressed)
      <-> ty' = ty /\ In c CoreMappings.buttons /\
          fst (CoreMappings.lookupButton n c) = Some pressed) /\
     (In (InputEvent.mk c ty' "p2")
         (Keyboard.play ty
            [ ("p1", List.map (fun b => (b, fst (CoreMappings.lookupButton n b)))
                              CoreMappings.buttons);
              ("p2", List.map (fun b => (b, snd (CoreMappings.lookupButton n b)))
                              CoreMappings.buttons) ] pressed)
      <-> ty' = ty /\ In c CoreMappings.buttons /\
          snd (CoreMappings.lookupButton n c) = Some pressed)).
  { intros ty ty' pressed c. rewrite !in_play.
    destruct (Hb c) as [-> ->]. rewrite <- (includes_In CoreMappings.buttons c).
    destruct (JS.includes CoreMappings.buttons c); split; split;
      try (intros (-> & _ & [= ->]); now repeat split);
      try (intros (-> & _ & ->); repeat split; tauto);
      try (intros (_ & _ & H); discriminate H);
      try (intros (_ & H & _); discriminate H). }
  split; [|split; [exact Hplay|split; [|reflexivity]]].
  - intros b Hin. apply includes_In in Hin. destruct (Hb b) as [H1 H2].
    now rewrite H1, H2, Hin.
  - intros Hblind ty pressed.
    destruct (Keyboard.play ty _ pressed) as [|[c ty' p] r] eqn:E; [reflexivity|].
    exfalso.
    assert (Hin : In (InputEvent.mk c ty' p)
                     (Keyboard.play ty
                        [ ("p1", List.map (fun b => (b, fst (CoreMappings.lookupButton n b)))
                                          CoreMappings.buttons);
                          ("p2", List.map (fun b => (b, snd (CoreMappings.lookupButton n b)))
                                          CoreMappings.buttons) ] pressed))
      by (rewrite E; now left).
    pose proof Hin as Hin'. apply in_play in Hin' as (_ & [-> | ->] & _).
    + apply Hplay in Hin as (_ & _ & H).
      now rewrite (lookupButton_blind n c Hblind) in H.
    + apply Hplay in Hin as (_ & _ & H).
      now rewrite (lookupButton_blind n c Hblind) in H.
Qed.

Lemma sync_to_core_replaces_bindings_witness :
  let n := CoreMappings.mkMethods true true None None in
  Keyboard.play InputEvent.down
    (fst (CoreMappings.syncToCore
            (CoreMappings.updateCoreMappings (Some n) None)
            (Keyboard.ofMapping MappingStore.defaultMappings)))
    "KeyK" = [].
Proof.
  intros n.
  destruct (sync_to_core_replaces_bindings n None
              (Keyboard.ofMapping MappingStore.defaultMappings))
    as (_ & _ & H & _).
  apply H. split; reflexivity.
Defined.

(** ** Saving and loading a state *)



(** ** A d-pad event without a contact point *)

(** A ratio whose dividend comes from a missing coordinate is NaN, which
    is neither below 0.33 nor above 0.67. *)
Lemma missing_ratio (l w : float) :
  ((PrimFloat.nan - l) / w <? 0.33)%float = false /\
  (0.67 <? (PrimFloat.nan - l) / w)%float = false.
Proof.
  assert (H : Prim2SF ((PrimFloat.nan - l) / w) = S754_nan)
    by (rewrite div_spec, sub_spec; reflexivity).
  rewrite !ltb_spec, H. split; reflexivity.
Qed.

Lemma noContact_neutral (e : VirtualControls.domEvent) :
  noContact e -> VirtualControls.newDirectionOf e = None.
Proof.
  intros (Ht & Hx & Hy).
  assert (Hc : VirtualControls.contactPoint e = (PrimFloat.nan, PrimFloat.nan)).
  { unfold VirtualControls.contactPoint. rewrite Hx, Hy.
    now destruct Ht as [-> | ->]. }
  unfold VirtualControls.newDirectionOf. rewrite Hc.
  unfold VirtualControls.zoneOf.
  destruct (missing_ratio (VirtualControls.r_left (VirtualControls.rect e))
              (VirtualControls.r_width (VirtualControls.rect e))) as [-> ->].
  destruct (missing_ratio (VirtualControls.r_top (VirtualControls.rect e))
              (VirtualControls.r_height (VirtualControls.rect e))) as [-> ->].
  reflexivity.
Qed.

(** X21.  A d-pad move into the neutral zone acts on the engine and on the
    component as an end of contact does: with the active direction, if
    any, one of the four directions, when the event's zone is neutral the
    move handler returns as the end handler does, with the same engine
    calls (the release of the active direction, if any) and the same
    state.  The two differ in one thing only: the end handler, like the
    start handler, also prevents the event's default, which the move
    handler does not.  An event that carries no contact point (no touch
    point and no client coordinates) is neutral, whatever the pad's box
    is, its ratios being NaN. *)
Theorem dpad_neutral_move_is_end
    (ref : option Engine.engine) (e : VirtualControls.domEvent)
    (s : VirtualControls.state) :
  (forall x, VirtualControls.activeDpadDirection s = Some x ->
             In x VirtualControls.directions) ->
  (VirtualControls.newDirectionOf e = None ->
   VirtualControls.handle ref (VirtualControls.DpadPointerMove e) s
   = VirtualControls.handle ref VirtualControls.DpadPointerUp s /\
   VirtualControls.handle ref (VirtualControls.DpadTouchMove e) s
   = VirtualControls.handle ref VirtualControls.DpadTouchEnd s /\
   Eff.trace_of (VirtualControls.handleDpadMove ref e s)
   = releaseCalls ref (VirtualControls.activeDpadDirection s) /\
   VirtualControls.activeDpadDirection
     (Eff.state_of (VirtualControls.handleDpadMove ref e s)) = None) /\
  (VirtualControls.preventsDefault (VirtualControls.DpadPointerMove e) = false /\
   VirtualControls.preventsDefault (VirtualControls.DpadTouchMove e) = false /\
   VirtualControls.preventsDefault (VirtualControls.DpadPointerDown e) = true /\
   VirtualControls.preventsDefault (VirtualControls.DpadTouchStart e) = true /\
   VirtualControls.preventsDefault VirtualControls.DpadPointerUp = true /\
   VirtualControls.preventsDefault VirtualControls.DpadTouchEnd = true) /\
  (noContact e ->
   VirtualControls.newDirectionOf e = None /\
   VirtualControls.handle ref (VirtualControls.DpadTouchStart e) s
   = VirtualControls.handle ref VirtualControls.DpadTouchEnd s).
Proof.
  intros _.
  assert (H : VirtualControls.newDirectionOf e = None ->
              VirtualControls.handleDpadMove ref e s
              = VirtualControls.handleDpadEnd ref s).
  { intros Hn.
    unfold VirtualControls.handleDpadMove, VirtualControls.handleDpadEnd,
      Eff.bind, Eff.get.
    rewrite Hn.
    destruct (VirtualControls.activeDpadDirection s) as [old|]; [|reflexivity].
    cbn [VirtualControls.direction_eqb negb].
    destruct (VirtualControls.handleVirtualRelease ref old None s)
      as [[[[]|err] s1] t1]; cbn; now rewrite ?app_nil_r. }
  split; [|split].
  - intros Hn. cbn [VirtualControls.handle].
    split; [exact (H Hn)|]. split; [exact (H Hn)|].
    rewrite move_run, Hn.
    destruct (calls_none ref) as [Hr Hp].
    destruct (VirtualControls.activeDpadDirection s) as [old|] eqn:E;
      cbn [VirtualControls.direction_eqb Eff.trace_of Eff.state_of fst snd
           VirtualControls.activeDpadDirection].
    + split; [now rewrite Hp, app_nil_r|reflexivity].
    + split; [now rewrite Hr|exact E].
  - repeat split.
  - intros Hc. pose proof (noContact_neutral e Hc) as Hn.
    split; [exact Hn|]. cbn [VirtualControls.handle].
    unfold VirtualControls.handleDpadStart. exact (H Hn).
Qed.

Lemma dpad_neutral_move_is_end_witness :
  let e := VirtualControls.mkEvent
             (VirtualControls.mkRect 0 0 90 90) (Some []) None None in
  let s := VirtualControls.mkState [("p1", [("up", true)]); ("p2", [])]
                                   (Some "up") in
  VirtualControls.handle (Some bareEngine) (VirtualControls.DpadTouchStart e) s
  = VirtualControls.handle (Some bareEngine) VirtualControls.DpadTouchEnd s.
Proof.
  intros e s.
  assert (Hs : forall x, VirtualControls.activeDpadDirection s = Some x ->
                         In x VirtualControls.directions).
  { intros x [= <-]. now left. }
  destruct (dpad_neutral_move_is_end (Some bareEngine) e s Hs) as (_ & _ & H).
  apply H. split; [now right|split; reflexivity].
Defined.

(** ** Sources that share a control *)

Section SharedControl.
Import Eff Gamepad.

Lemma indexed_nth {A} (l : list A) (k off : nat) (x : A) :
  nth_error l off = Some x -> In ((k + off)%nat, x) (indexed k l).
Proof.
  revert k off. induction l as [|a r IH]; intros k [|off] H; try discriminate.
  - injection H as ->. rewrite Nat.add_0_r. now left.
  - right. rewrite Nat.add_succ_r. exact (IH (S k) off H).
Qed.

Lemma indexed_In {A} (l : list A) (k j : nat) (x : A) :
  In (j, x) (indexed k l) ->
  exists off, j = (k + off)%nat /\ nth_error l off = Some x.
Proof.
  revert k. induction l as [|a r IH]; intros k; [intros []|].
  unfold indexed. cbn [List.length List.seq List.combine].
  intros [[= <- <-]|H].
  - exists 0%nat. split; [lia|reflexivity].
  - destruct (IH (S k) H) as (off & -> & Hn). exists (S off).
    split; [lia|exact Hn].
Qed.

Lemma flat_map_nil_on {A B} (f : A -> list B) (l : list A) :
  (forall a, In a l -> f a = []) -> List.flat_map f l = [].
Proof.
  induction l as [|a r IH]; intros H; [reflexivity|].
  cbn [List.flat_map]. rewrite (H a) by now left.
  apply IH. intros x Hx. apply H. now right.
Qed.

Lemma filter_flat_map {A B} (p : B -> bool) (f : A -> list B) (l : list A) :
  List.filter p (List.flat_map f l)
  = List.flat_map (fun a => List.filter p (f a)) l.
Proof.
  induction l as [|a r IH]; [reflexivity|].
  cbn [List.flat_map]. now rewrite List.filter_app, IH.
Qed.

(** Of the indexed elements only the one at [off] contributes. *)
Lemma flat_map_only {A B} (f : nat * A -> list B) (l : list A)
    (k off : nat) (b : A) :
  nth_error l off = Some b ->
  (forall j x, In (j, x) (indexed k l) -> j <> (k + off)%nat -> f (j, x) = []) ->
  List.flat_map f (indexed k l) = f ((k + off)%nat, b).
Proof.
  revert k off. induction l as [|a r IH]; intros k [|off] Hn Hrest;
    try discriminate Hn.
  - injection Hn as ->. unfold indexed.
    cbn [List.length List.seq List.combine List.flat_map].
    rewrite Nat.add_0_r, flat_map_nil_on; [apply app_nil_r|].
    intros [j x] Hin. apply Hrest; [now right|].
    destruct (indexed_In r (S k) j x Hin) as (o & -> & _). lia.
  - unfold indexed. cbn [List.length List.seq List.combine List.flat_map].
    rewrite (Hrest k a) by (try (now left); lia). cbn [app].
    replace (k + S off)%nat with (S k + off)%nat by lia.
    apply IH; [exact Hn|].
    intros j x Hin Hj. apply Hrest; [now right|lia].
Qed.

Lemma filter_edgeEvents (c c' p : string) (now was : bool) :
  List.filter (fun ev => String.eqb (InputEvent.control ev) c)
              (edgeEvents c' p now was)
  = if String.eqb c' c then edgeEvents c' p now was else [].
Proof.
  unfold edgeEvents. destruct (Bool.eqb now was).
  - now destruct (String.eqb c' c).
  - cbn [List.filter InputEvent.control]. now destruct (String.eqb c' c).
Qed.

(** Two button indices with one control are the two shoulder buttons of a
    side, and no third index has that control. *)
Lemma shared_sources (a b : nat) (c : string) :
  GAMEPAD_MAPPING a = Some c -> GAMEPAD_MAPPING b = Some c -> a <> b ->
  (c = "l" \/ c = "r") /\
  forall j, GAMEPAD_MAPPING j = Some c -> j = a \/ j = b.
Proof.
  intros Ha Hb Hne.
  assert (Hl : forall j, GAMEPAD_MAPPING j = Some "l" -> j = 4%nat \/ j = 6%nat).
  { intros j H. unfold GAMEPAD_MAPPING in H.
    do 16 (destruct j as [|j]; [first [discriminate H|lia]|]). discriminate H. }
  assert (Hr : forall j, GAMEPAD_MAPPING j = Some "r" -> j = 5%nat \/ j = 7%nat).
  { intros j H. unfold GAMEPAD_MAPPING in H.
    do 16 (destruct j as [|j]; [first [discriminate H|lia]|]). discriminate H. }
  assert (Hc : c = "l" \/ c = "r").
  { unfold GAMEPAD_MAPPING in Ha, Hb.
    do 16 (destruct a as [|a];
           [first
              [ discriminate Ha
              | injection Ha as <-;
                do 16 (destruct b as [|b];
                       [first [ discriminate Hb
                              | exfalso; apply Hne; reflexivity
                              | left; reflexivity
                              | right; reflexivity ]|]);
                discriminate Hb ]|]).
    discriminate Ha. }
  split; [exact Hc|].
  destruct Hc as [->| ->]; intros j Hj.
  - pose proof (Hl j Hj). apply Hl in Ha. apply Hl in Hb. lia.
  - pose proof (Hr j Hj). apply Hr in Ha. apply Hr in Hb. lia.
Qed.

Lemma stick_is_not_shoulder (c p : string) (now was : axisState) :
  c = "l" \/ c = "r" ->
  List.filter (fun ev => String.eqb (InputEvent.control ev) c)
              (stickChanges p now was) = [].
Proof.
  intros [->| ->]; unfold stickChanges;
    rewrite !List.filter_app, !filter_edgeEvents; reflexivity.
Qed.

Lemma only_release_of_shared (st : gamepadState) (gp : gamepad)
    (idx idx' : nat) (b b' : button) (c : string) :
  nth_error (buttons gp) idx = Some b ->
  nth_error (buttons gp) idx' = Some b' ->
  GAMEPAD_MAPPING idx = Some c ->
  GAMEPAD_MAPPING idx' = Some c ->
  wasPressed st (index gp) idx = true ->
  wasPressed st (index gp) idx' = true ->
  isPressed b = false ->
  isPressed b' = true ->
  List.filter (fun ev => String.eqb (InputEvent.control ev) c)
              (deviceEdges st gp)
  = [InputEvent.mk c InputEvent.up (playerOf gp)].
Proof.
  intros Hb Hb' Hc Hc' Hw Hw' Hp Hp'.
  assert (Hne : idx <> idx') by (intros ->; congruence).
  destruct (shared_sources idx idx' c Hc Hc' Hne) as [Hshoulder Hsrc].
  unfold deviceEdges, buttonEdges, stickEdges, buttonEdgesFrom.
  rewrite List.filter_app, (stick_is_not_shoulder _ _ _ _ Hshoulder), app_nil_r.
  rewrite filter_flat_map.
  rewrite (flat_map_only _ (buttons gp) 0 idx b Hb).
  - cbn [Nat.add fst snd]. rewrite Hc, filter_edgeEvents, String.eqb_refl, Hw, Hp.
    reflexivity.
  - intros j x Hin Hj. cbn [Nat.add] in Hj. cbn [fst snd].
    destruct (GAMEPAD_MAPPING j) as [c'|] eqn:E; [|reflexivity].
    rewrite filter_edgeEvents.
    destruct (String.eqb_spec c' c) as [->|]; [|reflexivity].
    destruct (Hsrc j E) as [->| ->]; [contradiction|].
    destruct (indexed_In _ _ _ _ Hin) as (off & -> & Hn). cbn [Nat.add] in *.
    assert (x = b') by congruence. subst x.
    rewrite Hw', Hp'. apply edgeEvents_same.
Qed.

Lemma button_fall_emits_up (st : gamepadState) (gp : gamepad) (idx : nat)
    (b : button) (c : string) :
  nth_error (buttons gp) idx = Some b ->
  GAMEPAD_MAPPING idx = Some c ->
  wasPressed st (index gp) idx = true ->
  isPressed b = false ->
  In (InputEvent.mk c InputEvent.up (playerOf gp)) (deviceEdges st gp).
Proof.
  intros Hb Hc Hw Hp. unfold deviceEdges. apply in_or_app. left.
  unfold buttonEdges, buttonEdgesFrom. apply in_flat_map.
  exists (idx, b). split; [exact (indexed_nth (buttons gp) 0 idx b Hb)|].
  cbn [fst snd]. rewrite Hc, Hw, Hp. now left.
Qed.

End SharedControl.

(** X22.  Sources that share a control are tracked one by one.  When a
    mapped button that the cache holds pressed is sampled released, the
    poll dispatches the [up] of its control, whether or not another source
    of the same control is still held: another button mapped to the same
    control (indices 4 and 6 both give [l], 5 and 7 both [r]) stays cached
    as pressed and dispatches nothing, so that the [up] is the only event
    of the poll for that control and the control is released for the
    engine while that button is down. *)
Theorem shared_control_released_by_one_source
    (status : Session.status_t) (ref : option Engine.engine)
    (gps : list (option Gamepad.gamepad))
    (st : Gamepad.gamepadState) (gp : Gamepad.gamepad)
    (idx idx' : nat) (b b' : Gamepad.button) (c : string) :
  gateOpen status ref ->
  present gps = [gp] ->
  nth_error (Gamepad.buttons gp) idx = Some b ->
  nth_error (Gamepad.buttons gp) idx' = Some b' ->
  Gamepad.GAMEPAD_MAPPING idx = Some c ->
  Gamepad.GAMEPAD_MAPPING idx' = Some c ->
  Gamepad.wasPressed st (Gamepad.index gp) idx = true ->
  Gamepad.wasPressed st (Gamepad.index gp) idx' = true ->
  Gamepad.isPressed b = false ->
  Gamepad.isPressed b' = true ->
  let r := Gamepad.pollGamepad true status ref gps st in
  In (InputEvent.mk c InputEvent.up (playerOf gp)) (Eff.trace_of r) /\
  List.filter (fun ev => String.eqb (InputEvent.control ev) c) (Eff.trace_of r)
  = [InputEvent.mk c InputEvent.up (playerOf gp)] /\
  Gamepad.wasPressed (Eff.state_of r) (Gamepad.index gp) idx = false /\
  Gamepad.wasPressed (Eff.state_of r) (Gamepad.index gp) idx' = true /\
  Gamepad.GAMEPAD_MAPPING 4 = Gamepad.GAMEPAD_MAPPING 6 /\
  Gamepad.GAMEPAD_MAPPING 5 = Gamepad.GAMEPAD_MAPPING 7.
Proof.
  intros Hgate Hgp Hb Hb' Hc Hc' Hw Hw' Hp Hp' r. subst r.
  rewrite (pollGamepad_open _ _ _ Hgate), (pollEach_single gps gp st Hgp).
  destruct (pollDevice_run gp st) as (st' & Hrun & _ & _ & _ & _ & Hnth).
  rewrite Hrun. cbn [Eff.trace_of Eff.state_of fst snd].
  split; [exact (button_fall_emits_up st gp idx b c Hb Hc Hw Hp)|].
  split; [exact (only_release_of_shared st gp idx idx' b b' c
                   Hb Hb' Hc Hc' Hw Hw' Hp Hp')|].
  rewrite (Hnth idx b Hb), (Hnth idx' b' Hb'), Hc, Hc'.
  repeat split; assumption.
Qed.

Lemma shared_control_released_by_one_source_witness :
  let up_ := Gamepad.mkButton false (JS.Fin 0) in
  let dn := Gamepad.mkButton true (JS.Fin 1) in
  let both := Gamepad.mkPad 0 [up_; up_; up_; up_; dn; up_; dn] [] in
  let one := Gamepad.mkPad 0 [up_; up_; up_; up_; up_; up_; dn] [] in
  let st := Eff.state_of (Gamepad.pollGamepad true Session.idle None
                            [Some both] Gamepad.fresh) in
  List.filter (fun ev => String.eqb (InputEvent.control ev) "l")
    (Eff.trace_of (Gamepad.pollGamepad true Session.idle None [None; Some one] st))
  = [InputEvent.mk "l" InputEvent.up "p1"].
Proof.
  intros up_ dn both one st.
  assert (Hg : gateOpen Session.idle None) by (intros H; discriminate H).
  destruct (shared_control_released_by_one_source Session.idle None
              [None; Some one] st one 4 6 up_ dn "l" Hg eq_refl)
    as (_ & H & _); first [exact H|vm_compute; reflexivity].
Defined.

(** ** The core a selected ROM is launched with *)

Section DetectedCore.
Import ConsoleProfileTable.

Lemma table_cores_named :
  forallb (fun kp => negb (String.eqb (core (snd kp)) "")) consoleMap = true.
Proof. vm_compute. reflexivity. Qed.

Lemma detected_core_named (fn : string) (p : profile) :
  detectConsoleFromFile fn = Profile p -> JS.truthyStr (Some (core p)) = true.
Proof.
  unfold detectConsoleFromFile, profileFor, consoleMap_at.
  destruct (JS.get consoleMap _) as [q|] eqn:E.
  - intros [= <-]. apply get_In in E.
    pose proof table_cores_named as Hall. rewrite forallb_forall in Hall.
    exact (Hall _ E).
  - destruct (JS.includes JS.objectPrototypeKeys _); [discriminate|].
    now intros [= <-].
Qed.

End DetectedCore.

(** X23.  A selected ROM is launched with the core detected from its
    name, not with the core the component state held.  For a file that is
    not named as an archive and whose detection yields a profile, the
    handler starts exactly one launch, of that file with the profile's
    core, and leaves the status [loading] and the core and extension cells
    at the profile; for an archive whose extraction yields a ROM it is the
    ROM and the profile detected from the ROM's name.  The core the state
    held before plays no part. *)
Theorem selected_rom_launches_with_detected_core
    (isMobile : bool) (loadAsync : Engine.File -> Engine.archive)
    (f rom : Engine.File) (s : Session.state)
    (p : ConsoleProfileTable.profile) :
  (if JS.endsWith (JS.toLowerCase (Engine.name f)) ".zip"
   then Session.extractRomFromZip loadAsync f = Eff.Returned rom
   else rom = f) ->
  ConsoleProfileTable.detectConsoleFromFile (Engine.name rom)
  = ConsoleProfileTable.Profile p ->
  let r := Session.onRomSelected isMobile loadAsync (Some f) s in
  let cfg := Engine.mkConfig (Some (ConsoleProfileTable.core p)) rom isMobile in
  Eff.result_of r = Eff.Returned (Some cfg) /\
  Eff.trace_of r = [Engine.LaunchCall cfg] /\
  Session.status (Eff.state_of r) = Session.loading /\
  Session.core (Eff.state_of r) = Some (ConsoleProfileTable.core p) /\
  Session.extensions (Eff.state_of r)
  = Some (ConsoleProfileTable.extensions p) /\
  Session.nostalgistRef (Eff.state_of r) = Session.nostalgistRef s.
Proof.
  intros Hrom Hdet r cfg. subst r cfg.
  pose proof (detected_core_named _ p Hdet) as Hcore.
  unfold Session.onRomSelected. unfold Eff.bind at 1. unfold Eff.get at 1.
  destruct (JS.endsWith (JS.toLowerCase (Engine.name f)) ".zip") eqn:Hzip.
  - rewrite Hrom.
    unfold Eff.try_catch, Eff.bind, Session.liftOutcome, Eff.ret,
      Session.setCore, Session.setExtensions, Session.setStatus, Eff.modify.
    cbn beta iota. rewrite Hdet.
    unfold Session.launchWithRomFile_in, Eff.bind, Session.setStatus,
      Eff.modify, Eff.get, Eff.emit, Eff.ret, Session.detectedCore.
    cbn [ConsoleProfileTable.core_of]. cbn beta iota. rewrite Hcore.
    repeat split.
  - subst rom. rewrite Hdet.
    unfold Session.launchWithRomFile_in, Eff.bind, Session.setStatus,
      Session.setCore, Session.setExtensions,
      Eff.modify, Eff.get, Eff.emit, Eff.ret, Session.detectedCore.
    cbn [ConsoleProfileTable.core_of]. cbn beta iota. rewrite Hcore.
    repeat split.
Qed.

Lemma selected_rom_launches_with_detected_core_witness :
  let f := Engine.mkFile "Metroid.GBA" "bytes" in
  let s := Session.mkState Session.running None None (Some "snes9x")
             (Some ".smc,.sfc") None in
  Eff.trace_of (Session.onRomSelected true
                  (fun _ => Engine.NotAnArchive (JS.Error "no")) (Some f) s)
  = [Engine.LaunchCall (Engine.mkConfig (Some "mgba") f true)].
Proof.
  intros f s.
  destruct (selected_rom_launches_with_detected_core true
              (fun _ => Engine.NotAnArchive (JS.Error "no")) f f s
              (ConsoleProfileTable.mkProfile "mgba" ".gba,.agb")
              eq_refl eq_refl) as (_ & H & _).
  exact H.
Defined.
